(** * SafeMap front end: coordinate parsing, route scoring and overlay lifecycle

    A shallow embedding of the browser script [static/js/app.js] in its
    multi-route variants, with the properties of it that the design document
    states and further ones read off the script: how the listener ends in
    each case, what stays on the map, how the incident overlay is kept.

    Modelling conventions.
    - A JavaScript string is the list of its UTF-16 code units ([list N]);
      [str] turns an ASCII literal into such a list.
    - A finite JavaScript number is a rational ([Q]); [num] adds NaN and the
      two infinities. [binary64] rounds a rational to the nearest binary64
      number, a tie going to the even significand. [parseFloat] and the
      divisions of [fmtMiles] and [renderRouteChoices] round with it, so
      the range test of [tryParseLatLon] and the lengths shown are those of
      the script. The arithmetic of the scores and of the minutes is exact;
      the sign of zero is outside the model.
    - The Leaflet map, the module-level variables of the script and the part
      of the page it writes to form one record, [World]; functions that touch
      them are written in a small state-and-exception monad that also logs
      the externally visible actions in order.
    - One run of the submit listener is followed from start to end, each
      [await] resuming with the reply of the service; runs do not interleave.
    - The incident overlay keeps a layer group of its own; its functions are
      modelled on that part of the map alone.
    - Left out: the single-route variants of the listener, and everything
      that only styles the page. *)

From Stdlib Require Import ZArith QArith Qpower Qround Qminmax Qabs Lqa Lia List String Ascii.
From Stdlib Require DecimalPos DecimalN.
From stdpp Require Import base option list gmap.
Import ListNotations.

Local Open Scope Z_scope.

(** ** JavaScript strings *)

Abbreviation jsstring := (list N).

Definition str (s : string) : jsstring :=
  List.map N_of_ascii (list_ascii_of_string s).

(** [!s]: the empty string is the only falsy string. *)
Definition str_falsy (s : jsstring) : bool :=
  match s with [] => true | _ => false end.

(** [a || b] on strings. *)
Definition str_or (a b : jsstring) : jsstring :=
  if str_falsy a then b else a.

(** WhiteSpace and LineTerminator code points: what [\s] matches and what
    [String.prototype.trim] strips. *)
Definition isWhiteSpace (c : N) : bool :=
  ((9 <=? c) && (c <=? 13) || (c =? 32) || (c =? 160) || (c =? 5760)
   || (8192 <=? c) && (c <=? 8202) || (c =? 8232) || (c =? 8233)
   || (c =? 8239) || (c =? 8287) || (c =? 12288) || (c =? 65279))%N.

(** [\d] *)
Definition isDigit (c : N) : bool := ((48 <=? c) && (c <=? 57))%N.

(** [[+-]] *)
Definition isSign (c : N) : bool := ((c =? 43) || (c =? 45))%N.

(** [\.] *)
Definition isDot (c : N) : bool := (c =? 46)%N.

(** [[,\s]] *)
Definition isSeparator (c : N) : bool := ((c =? 44) || isWhiteSpace c)%N.

Fixpoint dropWhile (p : N -> bool) (s : jsstring) : jsstring :=
  match s with
  | c :: r => if p c then dropWhile p r else s
  | [] => []
  end.

(** The longest prefix of [s] whose code units satisfy [p], and the rest. *)
Fixpoint span (p : N -> bool) (s : jsstring) : jsstring * jsstring :=
  match s with
  | c :: r => if p c then let '(a, b) := span p r in (c :: a, b) else ([], s)
  | [] => ([], [])
  end.

(** [s.trim()] *)
Definition trim (s : jsstring) : jsstring :=
  rev (dropWhile isWhiteSpace (rev (dropWhile isWhiteSpace s))).

(** ** JavaScript numbers *)

Inductive num :=
| Fin (q : Q)
| NaN
| Inf (negative : bool).

Definition Qltb (a b : Q) : bool := negb (Qle_bool b a).

(** [a / b]. Zero has no sign in the model: a nonzero value over zero takes
    the sign of the dividend. *)
Definition num_div (a b : num) : num :=
  match a, b with
  | Fin x, Fin y =>
      if Qeq_bool y 0
      then (if Qeq_bool x 0 then NaN else Inf (Qltb x 0))
      else Fin (x / y)
  | Fin _, Inf _ => Fin 0
  | Inf s, Fin y => Inf (xorb s (Qltb y 0))
  | _, _ => NaN
  end.

(** [Math.round] on a finite value: the nearest integer, a tie going up. *)
Definition round_half_up (q : Q) : Z := Qfloor (q + (1 # 2)).

Definition Math_round (x : num) : num :=
  match x with
  | Fin q => Fin (inject_Z (round_half_up q))
  | other => other
  end.

(** *** Rounding to binary64

    A binary64 number is an integer multiple [m * 2^e] with [|m| < 2^53]
    and [-1074 <= e <= 971]. A real number is rounded to the nearest of
    them on the grid of its own magnitude, a tie going to the even [m];
    what rounds to [2^1024] or beyond is an infinity. *)

Definition pow2 (e : Z) : Q := (2 ^ e)%Q.

(** The nearest integer, a tie going to the even one. *)
Definition round_half_even (q : Q) : Z :=
  let f := Qfloor q in
  let r := (q - inject_Z f)%Q in
  if Qltb r (1 # 2) then f
  else if Qltb (1 # 2) r then f + 1
  else if Z.even f then f else f + 1.

(** The integer part of the binary logarithm of a positive rational. *)
Definition ilog2 (q : Q) : Z :=
  let k := Z.log2 (Qnum q) - Z.log2 (Z.pos (Qden q)) in
  if Qle_bool (pow2 k) q then k else k - 1.

(** The exponent of the grid around [q]: 52 binary places below its leading
    bit, and never below the subnormal grid. *)
Definition grid_exponent (q : Q) : Z := Z.max (-1074) (ilog2 q - 52).

Definition round_to_grid (e : Z) (q : Q) : Q :=
  (inject_Z (round_half_even (q / pow2 e)) * pow2 e)%Q.

Definition binary64_pos (q : Q) : num :=
  let v := Qred (round_to_grid (grid_exponent q) q) in
  if Qle_bool (pow2 1024) v then Inf false else Fin v.

Definition num_neg (x : num) : num :=
  match x with
  | Fin q => Fin (- q)
  | NaN => NaN
  | Inf s => Inf (negb s)
  end.

Definition binary64 (q : Q) : num :=
  let q := Qred q in
  if Qeq_bool q 0 then Fin 0
  else if Qltb q 0 then num_neg (binary64_pos (- q)) else binary64_pos q.

(** The value of an arithmetic operation as the script holds it. *)
Definition num_round (x : num) : num :=
  match x with
  | Fin q => binary64 q
  | other => other
  end.

(** Decimal digits of a natural number, most significant first. *)
Fixpoint uint_digits (d : Decimal.uint) : jsstring :=
  match d with
  | Decimal.Nil => []
  | Decimal.D0 r => 48%N :: uint_digits r
  | Decimal.D1 r => 49%N :: uint_digits r
  | Decimal.D2 r => 50%N :: uint_digits r
  | Decimal.D3 r => 51%N :: uint_digits r
  | Decimal.D4 r => 52%N :: uint_digits r
  | Decimal.D5 r => 53%N :: uint_digits r
  | Decimal.D6 r => 54%N :: uint_digits r
  | Decimal.D7 r => 55%N :: uint_digits r
  | Decimal.D8 r => 56%N :: uint_digits r
  | Decimal.D9 r => 57%N :: uint_digits r
  end.

Definition digits (n : Z) : jsstring := uint_digits (N.to_uint (Z.to_N n)).

Definition Q_is_int (q : Q) : bool := Qeq_bool q (inject_Z (Qfloor q)).

Definition pow10 (n : nat) : Z := 10 ^ Z.of_nat n.

(** The digit string of [Number.prototype.toFixed] for [0 <= x < 10^21]:
    the integer [n] nearest to [x * 10^f] (the larger one on a tie), padded
    with zeros to [f + 1] digits, with a point before the last [f]. *)
Definition toFixed_digits (f : nat) (x : Q) : jsstring :=
  let n := round_half_up (x * inject_Z (pow10 f)) in
  let m := digits n in
  match f with
  | O => m
  | _ =>
      let m := if (length m <=? f)%nat
               then repeat 48%N (f + 1 - length m) ++ m else m in
      let k := length m in
      take (k - f) m ++ 46%N :: drop (k - f) m
  end.

(** ** Coordinate parsing *)

Record LatLon := { lat : Q; lon : Q }.

(** The pieces of
    [/^([+-]?\d+(\.\d+)?)[,\s]+([+-]?\d+(\.\d+)?)$/], each returning what it
    consumed and what is left. The character classes of adjacent pieces are
    disjoint, so the greedy choice is the only one that can succeed. *)

(** [[+-]?] *)
Definition re_sign (s : jsstring) : jsstring * jsstring :=
  match s with
  | c :: r => if isSign c then ([c], r) else ([], s)
  | [] => ([], [])
  end.

(** [\d+] *)
Definition re_digits1 (s : jsstring) : option (jsstring * jsstring) :=
  match span isDigit s with
  | ([], _) => None
  | (d, r) => Some (d, r)
  end.

(** [(\.\d+)?] *)
Definition re_fraction (s : jsstring) : jsstring * jsstring :=
  match s with
  | c :: r =>
      if isDot c
      then match re_digits1 r with
           | Some (d, r') => (c :: d, r')
           | None => ([], s)
           end
      else ([], s)
  | [] => ([], s)
  end.

(** [([+-]?\d+(\.\d+)?)] *)
Definition re_number (s : jsstring) : option (jsstring * jsstring) :=
  let '(sg, r) := re_sign s in
  match re_digits1 r with
  | Some (d, r1) => let '(f, r2) := re_fraction r1 in Some (sg ++ d ++ f, r2)
  | None => None
  end.

(** [[,\s]+] *)
Definition re_separator1 (s : jsstring) : option jsstring :=
  match span isSeparator s with
  | ([], _) => None
  | (_, r) => Some r
  end.

(** [s.match(/^...$/)]: the captures [m[1]] and [m[3]], or [None] for null. *)
Definition match_latlon (s : jsstring) : option (jsstring * jsstring) :=
  match re_number s with
  | Some (m1, r) =>
      match re_separator1 r with
      | Some r' =>
          match re_number r' with
          | Some (m3, []) => Some (m1, m3)
          | _ => None
          end
      | None => None
      end
  | None => None
  end.

(** The sign that was read is ["-"]. *)
Definition isMinus (sg : jsstring) : bool :=
  match sg with
  | [c] => (c =? 45)%N
  | _ => false
  end.

Definition digitVal (c : N) : Z := Z.of_N c - 48.

Definition digitsVal (ds : jsstring) : Z :=
  fold_left (fun acc c => 10 * acc + digitVal c) ds 0.

(** [parseFloat] on decimal literals without exponent: leading white space
    is skipped, then the longest prefix [sign digits . digits] is read and
    rounded to the nearest binary64 number; NaN when that prefix has no
    digit. The script applies it only to captures of [match_latlon], which
    hold nothing but a sign, digits and a point. *)
Definition parseFloat (s : jsstring) : num :=
  let '(sg, r) := re_sign (dropWhile isWhiteSpace s) in
  let '(ip, r1) := span isDigit r in
  let fp := match r1 with
            | c :: r2 => if isDot c then fst (span isDigit r2) else []
            | [] => []
            end in
  match ip, fp with
  | [], [] => NaN
  | _, _ =>
      let v := (inject_Z (digitsVal ip)
                + inject_Z (digitsVal fp) / inject_Z (pow10 (length fp)))%Q in
      binary64 (if isMinus sg then - v else v)%Q
  end.

(** [tryParseLatLon(text)]; [None] is null. A non-finite parse fails
    [Number.isNaN] or the range test. *)
Definition tryParseLatLon (text : jsstring) : option LatLon :=
  if str_falsy text then None else
  match match_latlon (trim text) with
  | None => None
  | Some (m1, m3) =>
      match parseFloat m1, parseFloat m3 with
      | Fin la, Fin lo =>
          if Qltb la (-90) || Qltb 90 la || Qltb lo (-180) || Qltb 180 lo
          then None
          else Some {| lat := la; lon := lo |}
      | _, _ => None
      end
  end.

(** ** Route data, as the routing service returns it *)

Record Stats := {
  length_m : option Q;            (* [None]: the key is missing *)
  mean_risk : option Q;           (* [None]: the key is missing *)
  detour_m_vs_beta0 : Q;
  risk_delta_vs_beta0 : Q
}.

Record Route := {
  beta : Q;
  name : option jsstring;         (* [name?]: the service may leave it out *)
  color : jsstring;
  geojson : list LatLon;
  stats : Stats
}.

Record RouteResultSet := {
  mode : option jsstring;         (* [None]: the response has no [mode] *)
  snapped_origin : LatLon;
  snapped_destination : LatLon;
  routes : list Route
}.

(** [x || 0] for a numeric field that may be missing; a present [0] is falsy
    and yields the right operand, which is [0] as well. *)
Definition or0 (x : option Q) : Q :=
  match x with Some q => q | None => 0%Q end.

(** ** Values of a property lookup *)

Inductive jsval :=
| VUndefined
| VNumber (x : num)
| VObject.                        (* a function or a plain object *)

Definition truthy (v : jsval) : bool :=
  match v with
  | VUndefined => false
  | VNumber (Fin q) => negb (Qeq_bool q 0)
  | VNumber NaN => false
  | VNumber (Inf _) => true
  | VObject => true
  end.

(** [a || b] *)
Definition js_or (a b : jsval) : jsval := if truthy a then a else b.

(** [ToNumber]: a function or plain object converts through its string form,
    which is no numeric literal. *)
Definition ToNumber (v : jsval) : num :=
  match v with
  | VNumber x => x
  | VUndefined | VObject => NaN
  end.

(** ** Scoring *)

(** [const MODE_SPEEDS = { walk: 1.3, bike: 4.5, drive: 11.0 }]: the own
    properties of the object literal. *)
Definition MODE_SPEEDS : gmap (list N) Q :=
  {[ str "walk" := 13 # 10; str "bike" := 45 # 10; str "drive" := 11 # 1 ]}.

(** The properties every object literal inherits from [Object.prototype];
    each is a function, except [__proto__], which is the prototype object. *)
Definition Object_prototype_keys : list jsstring :=
  [ str "constructor"; str "hasOwnProperty"; str "isPrototypeOf";
    str "propertyIsEnumerable"; str "toLocaleString"; str "toString";
    str "valueOf"; str "__proto__"; str "__defineGetter__";
    str "__defineSetter__"; str "__lookupGetter__"; str "__lookupSetter__" ].

(** [MODE_SPEEDS[key]]: own properties first, then the prototype chain. *)
Definition MODE_SPEEDS_get (key : jsstring) : jsval :=
  match MODE_SPEEDS !! key with
  | Some q => VNumber (Fin q)
  | None =>
      if bool_decide (key ∈ Object_prototype_keys) then VObject else VUndefined
  end.

(** [nameForBeta(beta)] *)
Definition nameForBeta (beta : Q) : jsstring :=
  if Qeq_bool beta 0 then str "Fastest Route"
  else if Qle_bool 1 beta then str "Safest Route"
  else str "Balanced Route".

(** [Math.max(1e-9, ...routes.map(r => r.stats.mean_risk || 0))] *)
Definition maxRisk (routes : list Route) : Q :=
  fold_left Qmax ((fun r => or0 (mean_risk (stats r))) <$> routes)
            (1 # 1000000000).

(** The body of the [routes.map] callback of [safetyScores]. The divisor
    [maxRisk] is positive (lemma [maxRisk_pos]), so the total division of [Q]
    is the division of the script and every intermediate value is finite. *)
Definition safetyScore (maxRisk : Q) (r : Route) : Z :=
  let rel := (or0 (mean_risk (stats r)) / maxRisk)%Q in
  let score := round_half_up ((1 - Qmin 1 rel) * 100) in
  Z.max 0 (Z.min 100 score).

(** [safetyScores(routes)] *)
Definition safetyScores (routes : list Route) : list Z :=
  safetyScore (maxRisk routes) <$> routes.

Record Badge := { text : jsstring; klass : jsstring }.

(** [safetyBadge(score)] *)
Definition safetyBadge (score : Z) : Badge :=
  if 80 <=? score then {| text := str "Safe"; klass := str "badge badge-safe" |}
  else if 60 <=? score
       then {| text := str "Moderate"; klass := str "badge badge-moderate" |}
       else {| text := str "Caution"; klass := str "badge badge-caution" |}.

(** [featureChips(beta)] *)
Definition featureChips (beta : Q) : list jsstring :=
  if Qeq_bool beta 0
  then [ str "Main thoroughfares"; str "Sidewalks available";
         str "Direct route prioritizes speed" ]
  else if Qle_bool 1 beta
  then [ str "Excellent safety features"; str "Sidewalks available";
         str "Longer distance" ]
  else [ str "Mixed safety features"; str "Sidewalks available";
         str "Moderate complexity" ].

(** ** The route cards *)

Record Card := {
  card_rail : jsstring;           (* background of the accent rail *)
  card_title : jsstring;
  card_badge : Badge;
  card_eta : jsstring;
  card_miles : jsstring;
  card_safety : jsstring;         (* [`${safety}/100`] *)
  card_chips : list jsstring;
  card_subtitle : jsstring
}.

(** [const title = r.name || nameForBeta(r.beta)] *)
Definition cardTitle (r : Route) : jsstring :=
  match name r with
  | Some n => str_or n (nameForBeta (beta r))
  | None => nameForBeta (beta r)
  end.

(** [subtitle.textContent = r.beta === 0 ? .. : r.beta >= 1 ? .. : ..] *)
Definition cardSubtitle (r : Route) : jsstring :=
  if Qeq_bool (beta r) 0 then str "Direct route optimized for walk"
  else if Qle_bool 1 (beta r) then str "Maximum safety route for walk"
  else str "Good compromise between speed and safety for walk".

(** [MODE_SPEEDS[mode] || MODE_SPEEDS.walk] *)
Definition speedFor (mode : jsstring) : jsval :=
  js_or (MODE_SPEEDS_get mode) (MODE_SPEEDS_get (str "walk")).



(** ** The display state

    Leaflet layers are objects with an identity; the map holds the set of
    those currently added to it. [layer.remove()] takes a layer off the map
    and leaves the object alone. *)

Inductive Layer :=
| TileLayer
| Marker (pos : LatLon) (title : jsstring) (popup : option jsstring)
| RouteLayer (geometry : list LatLon) (style_color : jsstring).

Inductive View :=
| SetView (center : LatLon) (zoom : Z)
| FitBounds (points : list LatLon) (padding : Z * Z).   (* the box around [points] *)

Record World := {
  objects : gmap nat Layer;       (* every layer object created so far *)
  on_map : gset nat;              (* the layers currently on the map *)
  view : View;
  originMarker : option nat;      (* [let originMarker = null] *)
  destMarker : option nat;        (* [let destMarker = null] *)
  routeLayers : list nat;         (* [let routeLayers = []] *)
  route_choices : option (list Card);  (* children of [#route-choices]; [None]: no such element *)
  route_sheet : option jsstring   (* [style.display] of [#route-sheet]; [None]: no such element *)
}.

(** What a run does that can be seen from outside, in order. *)
Inductive event :=
| EvAlert (msg : jsstring)
| EvConsoleError (msg : jsstring)
| EvGeocodeRequest (q : jsstring)
| EvRouteRequest (orig dest : LatLon) (mode : jsstring)
| EvAddLayer (id : nat)
| EvRemoveLayer (id : nat)
| EvMoveMarker (id : nat) (pos : LatLon)
| EvView (v : View)
| EvRenderCards (cards : list Card)
| EvDispatch (type : jsstring).

(** How a piece of the script ends: normally, by a thrown [Error] (its
    message), or by a [return] out of the enclosing handler. *)
Inductive outcome (A : Type) :=
| Normal (a : A)
| Threw (message : jsstring)
| Returned.
Arguments Normal {A} a.
Arguments Threw {A} message.
Arguments Returned {A}.

Definition M (A : Type) : Type := World -> outcome A * World * list event.

Definition ret {A} (a : A) : M A := fun w => (Normal a, w, []).

Definition bind {A B} (m : M A) (k : A -> M B) : M B :=
  fun w =>
    match m w with
    | (Normal a, w1, t1) => let '(r, w2, t2) := k a w1 in (r, w2, t1 ++ t2)
    | (Threw e, w1, t1) => (Threw e, w1, t1)
    | (Returned, w1, t1) => (Returned, w1, t1)
    end.

Notation "x <- m ;; k" := (bind m (fun x => k))
  (at level 100, m at next level, right associativity).
Notation "m ;; k" := (bind m (fun _ => k))
  (at level 100, right associativity).

Definition emit (e : event) : M unit := fun w => (Normal tt, w, [e]).
Definition get : M World := fun w => (Normal w, w, []).
Definition modify (f : World -> World) : M unit := fun w => (Normal tt, f w, []).
Definition throw {A} (message : jsstring) : M A := fun w => (Threw message, w, []).
Definition return_ {A} : M A := fun w => (Returned, w, []).

(** [try { body } catch (err) { on_throw(err.message) }] *)
Definition try_catch {A} (body : M A) (on_throw : jsstring -> M A) : M A :=
  fun w =>
    match body w with
    | (Threw e, w1, t1) => let '(r, w2, t2) := on_throw e w1 in (r, w2, t1 ++ t2)
    | other => other
    end.

(** The body of an [async] listener: a [return] completes it. *)
Definition listener (body : M unit) : M unit :=
  fun w =>
    match body w with
    | (Returned, w1, t1) => (Normal tt, w1, t1)
    | other => other
    end.

(** [for (x of xs) f(x)] and [xs.forEach(f)] *)
Fixpoint forEach {A} (xs : list A) (f : A -> M unit) : M unit :=
  match xs with
  | [] => ret tt
  | x :: rest => f x ;; forEach rest f
  end.

Definition alert (msg : jsstring) : M unit := emit (EvAlert msg).
Definition console_error (msg : jsstring) : M unit := emit (EvConsoleError msg).

Definition set_objects (f : gmap nat Layer -> gmap nat Layer) (w : World) : World :=
  {| objects := f (objects w); on_map := on_map w; view := view w;
     originMarker := originMarker w; destMarker := destMarker w;
     routeLayers := routeLayers w; route_choices := route_choices w;
     route_sheet := route_sheet w |}.

Definition set_on_map (f : gset nat -> gset nat) (w : World) : World :=
  {| objects := objects w; on_map := f (on_map w); view := view w;
     originMarker := originMarker w; destMarker := destMarker w;
     routeLayers := routeLayers w; route_choices := route_choices w;
     route_sheet := route_sheet w |}.

Definition set_view (v : View) (w : World) : World :=
  {| objects := objects w; on_map := on_map w; view := v;
     originMarker := originMarker w; destMarker := destMarker w;
     routeLayers := routeLayers w; route_choices := route_choices w;
     route_sheet := route_sheet w |}.

Definition set_originMarker (m : option nat) (w : World) : World :=
  {| objects := objects w; on_map := on_map w; view := view w;
     originMarker := m; destMarker := destMarker w;
     routeLayers := routeLayers w; route_choices := route_choices w;
     route_sheet := route_sheet w |}.

Definition set_destMarker (m : option nat) (w : World) : World :=
  {| objects := objects w; on_map := on_map w; view := view w;
     originMarker := originMarker w; destMarker := m;
     routeLayers := routeLayers w; route_choices := route_choices w;
     route_sheet := route_sheet w |}.

Definition set_routeLayers (l : list nat) (w : World) : World :=
  {| objects := objects w; on_map := on_map w; view := view w;
     originMarker := originMarker w; destMarker := destMarker w;
     routeLayers := l; route_choices := route_choices w;
     route_sheet := route_sheet w |}.

Definition set_route_choices (c : option (list Card)) (w : World) : World :=
  {| objects := objects w; on_map := on_map w; view := view w;
     originMarker := originMarker w; destMarker := destMarker w;
     routeLayers := routeLayers w; route_choices := c;
     route_sheet := route_sheet w |}.

Definition set_route_sheet (d : option jsstring) (w : World) : World :=
  {| objects := objects w; on_map := on_map w; view := view w;
     originMarker := originMarker w; destMarker := destMarker w;
     routeLayers := routeLayers w; route_choices := route_choices w;
     route_sheet := d |}.

(** *** Leaflet primitives *)

(** A stamp no object carries yet. *)
Definition fresh (objs : gmap nat Layer) : nat :=
  S (set_fold Nat.max 0%nat (dom objs)).

(** [L.marker(..)], [L.geoJSON(..)]: a new layer object, not yet on the map. *)
Definition create (l : Layer) : M nat :=
  w <- get ;;
  let id := fresh (objects w) in
  modify (set_objects (insert id l)) ;;
  ret id.

(** [layer.addTo(map)] *)
Definition addTo_map (id : nat) : M unit :=
  modify (set_on_map (fun s => {[ id ]} ∪ s)) ;; emit (EvAddLayer id).

(** [layer.remove()] *)
Definition remove (id : nat) : M unit :=
  modify (set_on_map (fun s => s ∖ {[ id ]})) ;; emit (EvRemoveLayer id).

(** [marker.setLatLng(ll)] *)
Definition setLatLng (id : nat) (ll : LatLon) : M unit :=
  modify (set_objects (alter (fun l => match l with
                                       | Marker _ t p => Marker ll t p
                                       | other => other
                                       end) id)) ;;
  emit (EvMoveMarker id ll).

(** [marker.bindPopup(content)] *)
Definition bindPopup (id : nat) (content : jsstring) : M unit :=
  modify (set_objects (alter (fun l => match l with
                                       | Marker ll t _ => Marker ll t (Some content)
                                       | other => other
                                       end) id)).

(** [marker.getLatLng()] *)
Definition getLatLng (w : World) (id : nat) : list LatLon :=
  match objects w !! id with
  | Some (Marker ll _ _) => [ll]
  | _ => []
  end.

(** [map.setView(..)], [map.fitBounds(..)] *)
Definition show (v : View) : M unit := modify (set_view v) ;; emit (EvView v).

(** ** The two services behind [fetch]

    A reply is a response with a success status and a well-formed body, a
    response with another status ([!res.ok]), or a rejection of [fetch] or
    of [res.json()] with its message. *)

Inductive reply (A : Type) :=
| Success (body : A)
| HttpError
| Rejected (message : jsstring).
Arguments Success {A} body.
Arguments HttpError {A}.
Arguments Rejected {A} message.

Record GeoMatch := { display_name : jsstring; match_lat : Q; match_lon : Q }.

Record Network := {
  geocode_reply : jsstring -> reply (list GeoMatch);
  route_reply : LatLon -> LatLon -> jsstring -> reply RouteResultSet
}.

(** A resolved end point: [{ lat, lon, display }]. *)
Record Place := { place : LatLon; display : jsstring }.

(** ** The incident overlay

    The overlay functions keep one Leaflet layer group in [crimeLayer]; the
    circle markers of a reply go into one feature group that is added to it.
    They read and write no variable of the route script and touch none of
    its layers, so the layer groups they put on the map are kept as a state
    of their own, apart from [on_map]. *)

(** A point feature of the reply of [/crimes]. *)
Record Feature := {
  coordinates : Q * Q;            (* [geometry.coordinates], that is [[lng, lat]] *)
  severity : option Q             (* [properties?.severity]; [None]: undefined or null *)
}.

(** What [L.circleMarker(..).bindTooltip(..)] is given. *)
Record CircleMarker := {
  dot_center : LatLon;
  dot_radius : Q;
  dot_color : jsstring;
  dot_fillColor : jsstring;
  dot_tooltip : jsstring
}.

Record CrimeMap := {
  groups : gmap nat (list (list CircleMarker));
                                  (* every layer group created so far, with the
                                     feature groups added to it *)
  shown : gset nat;               (* the layer groups currently on the map *)
  crimeLayer : option nat         (* [let crimeLayer = null] *)
}.

(** The overlay before its first use. *)
Definition no_crimes : CrimeMap :=
  {| groups := ∅; shown := ∅; crimeLayer := None |}.

(** A stamp no layer group carries yet. *)
Definition fresh_group (gs : gmap nat (list (list CircleMarker))) : nat :=
  S (set_fold Nat.max 0%nat (dom gs)).

(** [colorBySeverity(sev)] *)
Definition colorBySeverity (sev : Q) : jsstring :=
  if Qle_bool 100 sev then str "#d97706"
  else if Qle_bool 50 sev then str "#f59e0b"
  else if Qle_bool 10 sev then str "#60a5fa"
  else str "#93c5fd".

(** [fetchCrimesInView()], from the reply to its request; the body of a
    successful reply is its [features]. *)
Definition fetchCrimesInView (r : reply (list Feature)) : outcome (list Feature) :=
  match r with
  | Success data => Normal data
  | HttpError => Threw (str "Failed to load crimes")
  | Rejected message => Threw message
  end.

(** [hideCrimeDots()] *)
Definition hideCrimeDots (s : CrimeMap) : CrimeMap :=
  match crimeLayer s with
  | Some g => {| groups := groups s; shown := shown s ∖ {[ g ]}; crimeLayer := None |}
  | None => s
  end.

(** * The script, over its parameters *)

Section App.

(** [Number::toString] of a positive finite value that is not an integer
    below [10^21]: the shortest decimal or exponent notation that reads back
    as the same binary64 value. Its digit generation is not spelled out, and
    stays a parameter of the development. *)
Variable shortestDecimal : Q -> jsstring.

(** The routing and geocoding services, as one run of the page meets them. *)
Variable net : Network.

(** ** Printing numbers *)

Definition toString_positive (a : Q) : jsstring :=
  if Q_is_int a && Qltb a (inject_Z (10 ^ 21))
  then digits (Qfloor a)
  else shortestDecimal a.

(** [String(x)] and [`${x}`] for a number. *)
Definition Number_toString (x : num) : jsstring :=
  match x with
  | NaN => str "NaN"
  | Inf false => str "Infinity"
  | Inf true => str "-Infinity"
  | Fin q => (if Qltb q 0 then str "-" else []) ++ toString_positive (Qabs q)
  end.

(** [x.toFixed(f)]: the sign first, then exponent notation from [10^21] on
    and [toFixed_digits] below. *)
Definition toFixed (f : nat) (x : num) : jsstring :=
  match x with
  | Fin q =>
      (if Qltb q 0 then str "-" else [])
      ++ (if Qle_bool (inject_Z (10 ^ 21)) (Qabs q)
          then toString_positive (Qabs q)
          else toFixed_digits f (Qabs q))
  | other => Number_toString other
  end.

(** [fmtMinutes(seconds)] *)
Definition fmtMinutes (seconds : num) : jsstring :=
  let m := Math_round (num_div seconds (Fin 60)) in
  Number_toString m ++ str "m".

(** The literal [1609.344]. *)
Definition mile_m : num := binary64 (1609344 # 1000).

(** [fmtMiles(meters)] *)
Definition fmtMiles (meters : num) : jsstring :=
  toFixed 1 (num_round (num_div meters mile_m)) ++ str " mi".

(** The body of the [routes.forEach] callback of
    [renderRouteChoicesTemplate], as far as it computes text: classes, the
    link target and the progress bar (which repeats [safety]) are left out. *)
Definition routeCard (speeds : jsval) (r : Route) (safety : Z) : Card :=
  let length_m := or0 (length_m (stats r)) in
  let etaSec := num_div (Fin length_m) (ToNumber speeds) in
  {| card_rail := str_or (color r) (str "#1d4ed8");
     card_title := cardTitle r;
     card_badge := safetyBadge safety;
     card_eta := fmtMinutes etaSec;
     card_miles := fmtMiles (Fin length_m);
     card_safety := Number_toString (Fin (inject_Z safety)) ++ str "/100";
     card_chips := featureChips (beta r);
     card_subtitle := cardSubtitle r |}.

(** The cards [renderRouteChoicesTemplate(routes, mode = "walk")] appends to
    the box, in order; [scores[idx]] is paired with the route at [idx]
    ([safetyScores] returns one score per route). *)
Definition routeCards (routes : list Route) (mode : option jsstring) : list Card :=
  let mode := match mode with Some m => m | None => str "walk" end in
  let speeds := speedFor mode in
  let scores := safetyScores routes in
  zip_with (routeCard speeds) routes scores.

(** ** Delta texts of the first multi-route variant

    The two local constants of the [routes.forEach] callback of
    [renderRouteChoices]. Code units: 946 is Greek beta, 8722 the minus sign,
    183 the middle dot. *)

Definition detourTxt (detour : Q) : jsstring :=
  if Qltb (Qabs detour) 1 then str "same distance as " ++ 946%N :: str "=0"
  else if Qltb 0 detour
       then str "+" ++ toFixed 0 (Fin detour) ++ str " m"
       else toFixed 0 (Fin detour) ++ str " m".

Definition riskTxt (riskDelta : Q) : jsstring :=
  if Qltb (Qabs riskDelta) 1 then str "same risk as " ++ 946%N :: str "=0"
  else if Qltb riskDelta 0
       then 8722%N :: toFixed 0 (Fin (Qabs riskDelta))
                   ++ str " m" ++ 183%N :: str "risk"
       else str "+" ++ toFixed 0 (Fin riskDelta)
                   ++ str " m" ++ 183%N :: str "risk".



(** ** The script's own functions *)

(** [setMarker(lat, lon, title, existing)] *)
Definition setMarker (ll : LatLon) (title : jsstring) (existing : option nat) : M nat :=
  existing <- match existing with
              | None =>
                  m <- create (Marker ll title None) ;;
                  addTo_map m ;;
                  ret m
              | Some m => setLatLng m ll ;; ret m
              end ;;
  bindPopup existing title ;;
  ret existing.

(** [fitToMarkers()] *)
Definition fitToMarkers : M unit :=
  w <- get ;;
  let pts :=
    match originMarker w with Some m => getLatLng w m | None => [] end
    ++ match destMarker w with Some m => getLatLng w m | None => [] end in
  match pts with
  | [] => ret tt
  | [p] => show (SetView p 16)
  | _ => show (FitBounds pts (40, 40))
  end.

(** [clearRoutes()] *)
Definition clearRoutes : M unit :=
  w <- get ;;
  forEach (routeLayers w) remove ;;
  modify (set_routeLayers []).

(** The [data.routes.forEach] callback of [drawMultiRoutes]; the result is
    the layer it pushes on [group]. *)
Definition drawRoute (r : Route) : M nat :=
  layer <- create (RouteLayer (geojson r) (color r)) ;;
  addTo_map layer ;;
  modify (fun w => set_routeLayers (routeLayers w ++ [layer]) w) ;;
  ret layer.

Fixpoint mapM {A B} (f : A -> M B) (xs : list A) : M (list B) :=
  match xs with
  | [] => ret []
  | x :: rest => y <- f x ;; ys <- mapM f rest ;; ret (y :: ys)
  end.

(** The points [L.featureGroup(group).getBounds()] encloses. *)
Definition group_points (w : World) (group : list nat) : list LatLon :=
  concat ((fun id => match objects w !! id with
                      | Some (RouteLayer g _) => g
                      | _ => []
                      end) <$> group).

(** [renderRouteChoicesTemplate(routes, mode = "walk")] *)
Definition renderRouteChoicesTemplate (routes : list Route) (mode : option jsstring) : M unit :=
  w <- get ;;
  match route_choices w with
  | None => ret tt
  | Some _ =>
      let cards := routeCards routes mode in
      modify (set_route_choices (Some cards)) ;;
      emit (EvRenderCards cards)
  end.

(** [drawMultiRoutes(data)] *)
Definition drawMultiRoutes (data : RouteResultSet) : M unit :=
  clearRoutes ;;
  group <- mapM drawRoute (routes data) ;;
  match group with
  | [] => ret tt
  | _ => w <- get ;; show (FitBounds (group_points w group) (40, 40))
  end ;;
  renderRouteChoicesTemplate (routes data) (mode data).

(** [geocode(q)] *)
Definition geocode (q : jsstring) : M (list GeoMatch) :=
  emit (EvGeocodeRequest q) ;;
  match geocode_reply net q with
  | Success r => ret r
  | HttpError => throw (str "Geocode failed")
  | Rejected message => throw message
  end.

(** [fetchRoutesMulti(orig, dest, mode)] *)
Definition fetchRoutesMulti (orig dest : LatLon) (mode : jsstring) : M RouteResultSet :=
  emit (EvRouteRequest orig dest mode) ;;
  match route_reply net orig dest mode with
  | Success data => ret data
  | HttpError => throw (str "Route computation failed")
  | Rejected message => throw message
  end.

(** [`${o.lat.toFixed(6)}, ${o.lon.toFixed(6)} (raw)`] *)
Definition raw_display (o : LatLon) : jsstring :=
  toFixed 6 (Fin (lat o)) ++ str ", " ++ toFixed 6 (Fin (lon o)) ++ str " (raw)".

(** [document.getElementById("route-sheet").style.display = "block"]; the
    message of the TypeError is the engine's (here V8's). *)
Definition show_route_sheet : M unit :=
  w <- get ;;
  match route_sheet w with
  | None => throw (str "Cannot read properties of null (reading 'style')")
  | Some _ => modify (set_route_sheet (Some (str "block")))
  end.

(** The listener below is cut at the numbered comments of the script. *)

(** [// 2) Geocode fallback]: the two blocks of the script differ in the
    message only. [parsed] is what [tryParseLatLon] gave for the query [q];
    a [return alert(..)] leaves the listener. *)
Definition resolve (notFound : jsstring) (q : jsstring) (parsed : option LatLon) : M Place :=
  match parsed with
  | None =>
      r <- geocode q ;;
      match r with
      | [] => alert notFound ;; return_
      | r0 :: _ =>
          ret {| place := {| lat := match_lat r0; lon := match_lon r0 |};
                 display := display_name r0 |}
      end
  | Some o => ret {| place := o; display := raw_display o |}
  end.

Definition resolveOrigin : jsstring -> option LatLon -> M Place :=
  resolve (str "Origin not found.").

Definition resolveDest : jsstring -> option LatLon -> M Place :=
  resolve (str "Destination not found.").

(** [// 3) Place markers at RAW inputs] *)
Definition placeMarkers (o d : Place) : M unit :=
  w <- get ;;
  m <- setMarker (place o) (str "Origin: " ++ display o) (originMarker w) ;;
  modify (set_originMarker (Some m)) ;;
  w <- get ;;
  m <- setMarker (place d) (str "Destination: " ++ display d) (destMarker w) ;;
  modify (set_destMarker (Some m)) ;;
  fitToMarkers.

(** [// 4) Ask server for route (snapped to network)], to the end of the
    [try] block. *)
Definition requestAndDraw (o d : Place) (mode : jsstring) : M unit :=
  data <- fetchRoutesMulti (place o) (place d) mode ;;
  drawMultiRoutes data ;;
  show_route_sheet ;;
  emit (EvDispatch (str "routes:updated")).

(** [catch (err) { console.error(err); alert(err.message || "Search/route failed."); }] *)
Definition onError (message : jsstring) : M unit :=
  console_error message ;;
  alert (str_or message (str "Search/route failed.")).

(** The [submit] listener of the form, from the values of the two inputs
    and of the mode selector ([None]: the page has no selector). Each
    [await] resumes with the reply [net] gives; no other flow runs in
    between. *)
Definition submit (originValue destValue : jsstring) (modeSel : option jsstring) : M unit :=
  listener (
    let originQ := trim originValue in
    let destQ := trim destValue in
    let mode := match modeSel with Some value => value | None => str "walk" end in
    if str_falsy originQ || str_falsy destQ
    then alert (str "Please enter both origin and destination.") ;; return_
    else
      try_catch (
        (* 1) Try lat/lon first *)
        let o := tryParseLatLon originQ in
        let d := tryParseLatLon destQ in
        o <- resolveOrigin originQ o ;;
        d <- resolveDest destQ d ;;
        placeMarkers o d ;;
        requestAndDraw o d mode)
      onError).

(** The page as the script finds it once its top level has run: the tile
    layer on the map, the default view, no marker and no route overlay. *)
Definition initial (choices : option (list Card)) (sheet : option jsstring) : World :=
  {| objects := {[ 0%nat := TileLayer ]};
     on_map := {[ 0%nat ]};
     view := SetView {| lat := 386480784 # 10000000; lon := - (903089436 # 10000000) |} 15;
     originMarker := None;
     destMarker := None;
     routeLayers := [];
     route_choices := choices;
     route_sheet := sheet |}.

(** ** Drawing the incident overlay *)

Section Overlay.

(** [Math.log10], which the language leaves implementation-approximated; the
    properties of the overlay say which of its facts they use. *)
Variable log10 : Q -> Q.

(** [radiusBySeverity(sev)] *)
Definition radiusBySeverity (sev : Q) : Q :=
  let r := (2 + log10 (Qmax 1 (sev + 1)) * 3)%Q in
  Qmax 2 (Qmin 8 r).

(** The circle marker the [data.features.forEach] callback of
    [showCrimeDots] pushes on [pts]; [?? 0] on a number that may be missing
    is [or0]. *)
Definition crimeDot (f : Feature) : CircleMarker :=
  let '(lng, lat) := coordinates f in
  let sev := or0 (severity f) in
  {| dot_center := {| lat := lat; lon := lng |};
     dot_radius := radiusBySeverity sev;
     dot_color := colorBySeverity sev;
     dot_fillColor := colorBySeverity sev;
     dot_tooltip := str "Severity: " ++ Number_toString (Fin sev) |}.

(** [showCrimeDots()], from the reply [fetchCrimesInView] awaits. Nothing
    before the [await] writes to the overlay, and what follows it runs
    without a break. *)
Definition showCrimeDots (r : reply (list Feature)) (s : CrimeMap) : outcome unit * CrimeMap :=
  match fetchCrimesInView r with
  | Normal data =>
      let '(g, s1) :=
        match crimeLayer s with
        | None =>                 (* [crimeLayer = L.layerGroup().addTo(map)] *)
            let g := fresh_group (groups s) in
            (g, {| groups := <[ g := [] ]> (groups s);
                   shown := {[ g ]} ∪ shown s;
                   crimeLayer := Some g |})
        | Some g =>               (* [crimeLayer.clearLayers()] *)
            (g, {| groups := alter (fun _ => []) g (groups s);
                   shown := shown s;
                   crimeLayer := Some g |})
        end in
      let pts := crimeDot <$> data in
      (Normal tt,
       match pts with
       | [] => s1
       | _ =>                     (* [L.featureGroup(pts).addTo(crimeLayer)] *)
           {| groups := alter (fun fgs => fgs ++ [pts]) g (groups s1);
              shown := shown s1;
              crimeLayer := crimeLayer s1 |}
       end)
  | Threw message => (Threw message, s)
  | Returned => (Returned, s)
  end.

End Overlay.

(** ** The design document's wording

    Definitions that follow the text of the design document rather than the
    script, for comparison with it. *)

(** The description it derives from [beta] and the active travel mode. *)
Definition documented_description (beta : Q) (mode : jsstring) : jsstring :=
  if Qeq_bool beta 0 then str "Direct route optimized for " ++ mode
  else if Qle_bool 1 beta then str "Maximum safety route for " ++ mode
  else str "Good compromise between speed and safety for " ++ mode.

(** Its coordinate text, [<lat><separator><lon>]: each field an optional
    sign, one or more decimal digits and optionally a point followed by one
    or more digits. Digits are kept as numbers 0..9. *)
Inductive Sign := NoSign | Plus | Minus.

Record Numeral := {
  sign : Sign;
  int_part : list Z;
  frac_part : option (list Z)
}.

Definition is_digits (ds : list Z) : Prop :=
  ds <> [] /\ Forall (fun d => 0 <= d <= 9) ds.

Definition wf_numeral (n : Numeral) : Prop :=
  is_digits (int_part n)
  /\ match frac_part n with Some f => is_digits f | None => True end.

Definition digit_char (d : Z) : N := Z.to_N (48 + d).

Definition sign_text (s : Sign) : jsstring :=
  match s with NoSign => [] | Plus => [43%N] | Minus => [45%N] end.

Definition numeral_text (n : Numeral) : jsstring :=
  sign_text (sign n)
  ++ (digit_char <$> int_part n)
  ++ match frac_part n with
     | Some f => 46%N :: (digit_char <$> f)
     | None => []
     end.

(** The number a digit string denotes, by position. *)
Fixpoint decimal (ds : list Z) : Z :=
  match ds with
  | [] => 0
  | d :: rest => d * 10 ^ Z.of_nat (length rest) + decimal rest
  end.

Definition numeral_value (n : Numeral) : Q :=
  let magnitude :=
    (inject_Z (decimal (int_part n))
     + match frac_part n with
       | Some f => inject_Z (decimal f) / inject_Z (10 ^ Z.of_nat (length f))
       | None => 0
       end)%Q in
  match sign n with Minus => (- magnitude)%Q | _ => magnitude end.

(** What may follow a numeral in a text that the pattern matches: nothing,
    or a character that is neither a digit nor a point. *)
Definition stops (rest : jsstring) : Prop :=
  match rest with
  | [] => True
  | c :: _ => isDigit c = false /\ isDot c = false
  end.

(** A separator: one or more commas and white space characters. *)
Definition is_separator (sep : jsstring) : Prop :=
  sep <> [] /\ Forall (fun c => c = 44%N \/ isWhiteSpace c = true) sep.

Definition in_range (la lo : Q) : Prop :=
  (-90 <= la <= 90 /\ -180 <= lo <= 180)%Q.

(** Half a binary64 step past 90 and past 180: a magnitude up to here
    rounds to a number within the bound, a larger one does not. *)
Definition lat_margin : Q := (90 + pow2 (-47))%Q.
Definition lon_margin : Q := (180 + pow2 (-46))%Q.

Definition rounds_in_range (la lo : Q) : Prop :=
  (Qabs la <= lat_margin /\ Qabs lo <= lon_margin)%Q.

(** ** Observations on the display state *)

Definition is_route_layer (w : World) (id : nat) : bool :=
  match objects w !! id with
  | Some (RouteLayer _ _) => true
  | _ => false
  end.

(** The live route overlays: the route layers that are on the map. *)
Definition live_routes (w : World) : gset nat :=
  filter (fun id => is_route_layer w id = true) (on_map w).

(** The layer of [id] is the overlay of route [r]. *)
Definition overlay_of (w : World) (id : nat) (r : Route) : Prop :=
  id ∈ on_map w /\ objects w !! id = Some (RouteLayer (geojson r) (color r)).

(** The events that put a layer on the map or take one off. *)
Definition layer_event (e : event) : Prop :=
  match e with
  | EvAddLayer _ | EvRemoveLayer _ => True
  | _ => False
  end.

(** The events of the viewport and of the card box. *)
Definition page_event (e : event) : Prop :=
  match e with
  | EvView _ | EvRenderCards _ => True
  | _ => False
  end.

(** What a log does to the set of layers on the map. *)
Definition apply_event (on : gset nat) (e : event) : gset nat :=
  match e with
  | EvAddLayer id => {[ id ]} ∪ on
  | EvRemoveLayer id => on ∖ {[ id ]}
  | _ => on
  end.

Definition replay (on : gset nat) (log : list event) : gset nat :=
  foldl apply_event on log.

(** The marker variable [m] is null or holds a marker that is on the map. *)
Definition marker_ok (w : World) (m : option nat) : Prop :=
  forall id, m = Some id ->
    id ∈ on_map w /\ exists ll t p, objects w !! id = Some (Marker ll t p).

(** The states the script can be in between two runs of its listener: the
    map holds only layers that exist, [routeLayers] holds route layers and
    every live route overlay is among them, and the two marker variables
    hold distinct markers that are on the map. *)
Record wf_world (w : World) : Prop := {
  wf_on_map : on_map w ⊆ dom (objects w);
  wf_routes : forall id, id ∈ routeLayers w -> is_route_layer w id = true;
  wf_tracked : live_routes w ⊆ list_to_set (routeLayers w);
  wf_origin : marker_ok w (originMarker w);
  wf_dest : marker_ok w (destMarker w);
  wf_distinct : forall id, originMarker w = Some id -> destMarker w <> Some id
}.

(** The marker variable [m] holds a marker on the map at [ll] whose popup
    shows [title]. *)
Definition marker_at (w : World) (m : option nat) (ll : LatLon) (title : jsstring) : Prop :=
  exists id t, m = Some id /\ id ∈ on_map w
               /\ objects w !! id = Some (Marker ll t (Some title)).

(** The request a resolution step logs: none for text that parsed, one
    geocoding request otherwise. *)
Definition geo_log (q : jsstring) (parsed : option LatLon) : list event :=
  match parsed with
  | Some _ => []
  | None => [EvGeocodeRequest q]
  end.

(** The messages to the user and to the console. *)
Definition notice_event (e : event) : Prop :=
  match e with
  | EvAlert _ | EvConsoleError _ => True
  | _ => False
  end.

(** The query [q], parsed as [parsed], resolves to [pl]: it is the parsed
    point, or the first match of a successful geocoding reply. *)
Definition resolves_to (q : jsstring) (parsed : option LatLon) (pl : Place) : Prop :=
  match parsed with
  | Some p => pl = {| place := p; display := raw_display p |}
  | None =>
      exists r0 rest,
        geocode_reply net q = Success (r0 :: rest)
        /\ pl = {| place := {| lat := match_lat r0; lon := match_lon r0 |};
                   display := display_name r0 |}
  end.

(** The events step 4 of the listener can log after the request itself. *)
Definition drawing_event (e : event) : Prop :=
  match e with
  | EvAddLayer _ | EvRemoveLayer _ | EvView _ | EvRenderCards _ | EvDispatch _ => True
  | _ => False
  end.

(** The requests of the run to the routing service. *)
Definition route_request (e : event) : Prop :=
  match e with
  | EvRouteRequest _ _ _ => True
  | _ => False
  end.

(** The requests of a run to the geocoder and to the routing service, for
    counting them. *)
Definition is_geocode_request (e : event) : bool :=
  match e with EvGeocodeRequest _ => true | _ => false end.

Definition is_route_request (e : event) : bool :=
  match e with EvRouteRequest _ _ _ => true | _ => false end.

(** Every layer on the map is accounted for: it is the tile layer, a marker
    that one of the two marker variables holds, or a layer recorded in
    [routeLayers]. *)
Definition accounted (w : World) : Prop :=
  forall id, id ∈ on_map w ->
    objects w !! id = Some TileLayer
    \/ originMarker w = Some id \/ destMarker w = Some id
    \/ id ∈ routeLayers w.

(** The overlay state between two calls: the layer group [crimeLayer] holds
    exists and is the only one on the map. *)
Definition crime_ok (s : CrimeMap) : Prop :=
  match crimeLayer s with
  | Some g => shown s = {[ g ]} /\ is_Some (groups s !! g)
  | None => shown s = ∅
  end.

(** * Properties *)

(** ** Safety scores *)

Lemma fold_Qmax_ge_init (xs : list Q) (a : Q) : (a <= fold_left Qmax xs a)%Q.
Proof.
  revert a. induction xs as [|x xs IH]; intros a; simpl.
  - apply Qle_refl.
  - eapply Qle_trans; [apply (Q.le_max_l a x) | apply IH].
Qed.

Lemma fold_Qmax_ge_elem (xs : list Q) (a x : Q) :
  x ∈ xs -> (x <= fold_left Qmax xs a)%Q.
Proof.
  revert a. induction xs as [|y xs IH]; intros a Hin.
  - inversion Hin.
  - apply elem_of_cons in Hin as [-> | Hin]; simpl.
    + eapply Qle_trans; [apply (Q.le_max_r a y) | apply fold_Qmax_ge_init].
    + now apply IH.
Qed.

(** The divisor of [safetyScores] is never zero: it is at least [1e-9]. *)
Lemma maxRisk_floor (rs : list Route) : (1 # 1000000000 <= maxRisk rs)%Q.
Proof. apply fold_Qmax_ge_init. Qed.

Lemma maxRisk_pos (rs : list Route) : (0 < maxRisk rs)%Q.
Proof. eapply Qlt_le_trans; [|apply maxRisk_floor]. reflexivity. Qed.

Lemma maxRisk_ge (rs : list Route) (r : Route) :
  r ∈ rs -> (or0 (mean_risk (stats r)) <= maxRisk rs)%Q.
Proof.
  intros Hin. apply fold_Qmax_ge_elem.
  apply list_elem_of_fmap. now exists r.
Qed.

Lemma round_half_up_mono (a b : Q) :
  (a <= b)%Q -> round_half_up a <= round_half_up b.
Proof. intros H. apply Qfloor_resp_le. lra. Qed.

Lemma round_half_up_int (z : Z) : round_half_up (inject_Z z) = z.
Proof.
  unfold round_half_up.
  assert (Hlo : (inject_Z z <= inject_Z z + (1 # 2))%Q) by lra.
  assert (Hhi : (inject_Z z + (1 # 2) < inject_Z (z + 1))%Q).
  { rewrite inject_Z_plus. change (inject_Z 1) with 1%Q. lra. }
  apply Qfloor_resp_le in Hlo. rewrite Qfloor_Z in Hlo.
  pose proof (Qfloor_le (inject_Z z + (1 # 2))) as Hf.
  assert (Hlt : (inject_Z (Qfloor (inject_Z z + (1 # 2))) < inject_Z (z + 1))%Q)
    by (eapply Qle_lt_trans; eauto).
  rewrite <- Zlt_Qlt in Hlt. lia.
Qed.

Lemma round_half_up_eq (q : Q) (z : Z) :
  (q == inject_Z z)%Q -> round_half_up q = z.
Proof.
  intros H. unfold round_half_up.
  rewrite (Qfloor_comp _ (inject_Z z + (1 # 2))) by (rewrite H; reflexivity).
  apply round_half_up_int.
Qed.

Lemma safetyScore_range (m : Q) (r : Route) : 0 <= safetyScore m r <= 100.
Proof. unfold safetyScore. lia. Qed.

Lemma safetyScore_antitone (m : Q) (a b : Route) :
  (0 < m)%Q ->
  (or0 (mean_risk (stats b)) <= or0 (mean_risk (stats a)))%Q ->
  safetyScore m a <= safetyScore m b.
Proof.
  intros Hm Hle. unfold safetyScore.
  set (ra := (or0 (mean_risk (stats a)) / m)%Q).
  set (rb := (or0 (mean_risk (stats b)) / m)%Q).
  assert (Hrel : (rb <= ra)%Q).
  { unfold ra, rb, Qdiv. apply Qmult_le_compat_r; [exact Hle|].
    apply Qlt_le_weak, Qinv_lt_0_compat, Hm. }
  assert (Hmin : (Qmin 1 rb <= Qmin 1 ra)%Q) by (apply Q.min_le_compat_l, Hrel).
  assert (Hr : round_half_up ((1 - Qmin 1 ra) * 100)
               <= round_half_up ((1 - Qmin 1 rb) * 100)).
  { apply round_half_up_mono. lra. }
  lia.
Qed.

Lemma safetyScore_zero (m : Q) (r : Route) :
  (or0 (mean_risk (stats r)) == 0)%Q -> safetyScore m r = 100.
Proof.
  intros H0. unfold safetyScore.
  set (rel := (or0 (mean_risk (stats r)) / m)%Q).
  assert (Hrel : (rel == 0)%Q).
  { unfold rel, Qdiv. rewrite H0. ring. }
  assert (Hmin : (Qmin 1 rel == rel)%Q) by (apply Q.min_r; lra).
  rewrite (round_half_up_eq _ 100); [reflexivity|].
  rewrite Hmin, Hrel. reflexivity.
Qed.

Lemma safetyScores_lookup (rs : list Route) (i : nat) :
  safetyScores rs !! i = safetyScore (maxRisk rs) <$> rs !! i.
Proof. unfold safetyScores. apply list_lookup_fmap. Qed.

Lemma safetyScores_length (rs : list Route) :
  length (safetyScores rs) = length rs.
Proof. unfold safetyScores. apply length_fmap. Qed.

(** C2. Within one route set the safety score is antitone in the mean risk
    (a missing [mean_risk] counting as 0, as in the script): a route whose
    mean risk is at least another's scores at most as much; a route of mean
    risk 0 scores 100; every score is an integer between 0 and 100; and the
    mean risks 0, 5, 10 score 100, 50, 0. *)
Theorem safetyScores_antitone (rs : list Route) :
  (forall i j a b sa sb,
      rs !! i = Some a -> rs !! j = Some b ->
      safetyScores rs !! i = Some sa -> safetyScores rs !! j = Some sb ->
      (or0 (mean_risk (stats b)) <= or0 (mean_risk (stats a)))%Q ->
      sa <= sb)
  /\ (forall i a,
        rs !! i = Some a -> (or0 (mean_risk (stats a)) == 0)%Q ->
        safetyScores rs !! i = Some 100)
  /\ Forall (fun s => 0 <= s <= 100) (safetyScores rs)
  /\ (forall r0 r5 r10,
        mean_risk (stats r0) = Some 0%Q ->
        mean_risk (stats r5) = Some 5%Q ->
        mean_risk (stats r10) = Some 10%Q ->
        safetyScores [r0; r5; r10] = [100; 50; 0]).
Proof.
  repeat split.
  - intros i j a b sa sb Ha Hb Hsa Hsb Hle.
    rewrite safetyScores_lookup, Ha in Hsa. rewrite safetyScores_lookup, Hb in Hsb.
    simpl in Hsa, Hsb. injection Hsa as <-. injection Hsb as <-.
    apply safetyScore_antitone; [apply maxRisk_pos | exact Hle].
  - intros i a Ha H0. rewrite safetyScores_lookup, Ha. simpl.
    f_equal. now apply safetyScore_zero.
  - unfold safetyScores. apply Forall_fmap, Forall_forall.
    intros r _. apply safetyScore_range.
  - intros r0 r5 r10 H0 H5 H10.
    unfold safetyScores, maxRisk, safetyScore. simpl.
    rewrite H0, H5, H10. reflexivity.
Qed.


(** C4. The badge of an integer score: Safe from 80 up, Moderate from 60 to
    79, Caution below 60. It holds for every integer, the scores 0..100
    among them. *)
Theorem safetyBadge_tiers (s : Z) :
  (text (safetyBadge s) = str "Safe" <-> 80 <= s)
  /\ (text (safetyBadge s) = str "Moderate" <-> 60 <= s < 80)
  /\ (text (safetyBadge s) = str "Caution" <-> s < 60)
  /\ text (safetyBadge 80) = str "Safe"
  /\ text (safetyBadge 79) = str "Moderate"
  /\ text (safetyBadge 60) = str "Moderate"
  /\ text (safetyBadge 59) = str "Caution".
Proof.
  unfold safetyBadge.
  repeat match goal with |- _ /\ _ => split end; try reflexivity;
    destruct (80 <=? s) eqn:E80; destruct (60 <=? s) eqn:E60; simpl;
    split; intros H; try lia; try reflexivity; try discriminate H.
Qed.

(** ** Number printing *)

Lemma Qltb_lt (a b : Q) : Qltb a b = true <-> (a < b)%Q.
Proof.
  unfold Qltb. rewrite negb_true_iff. split.
  - intros H. apply Qnot_le_lt. intros Hle. apply Qle_bool_iff in Hle. congruence.
  - intros H. destruct (Qle_bool b a) eqn:E; [|reflexivity].
    apply Qle_bool_iff in E. lra.
Qed.

Lemma Qltb_ge (a b : Q) : Qltb a b = false <-> (b <= a)%Q.
Proof.
  unfold Qltb. rewrite negb_false_iff. apply Qle_bool_iff.
Qed.

Lemma Qeq_bool_false (a b : Q) : ~ (a == b)%Q -> Qeq_bool a b = false.
Proof.
  intros H. destruct (Qeq_bool a b) eqn:E; [|reflexivity].
  apply Qeq_bool_iff in E. contradiction.
Qed.

Lemma round_half_up_nonneg (q : Q) : (0 <= q)%Q -> 0 <= round_half_up q.
Proof.
  intros H. change 0 with (round_half_up (inject_Z 0)) at 1.
  rewrite round_half_up_int. rewrite <- (round_half_up_int 0).
  apply round_half_up_mono. exact H.
Qed.

Lemma Qabs_Qabs (q : Q) : Qabs (Qabs q) = Qabs q.
Proof. destruct q as [n d]. simpl. now rewrite Z.abs_idemp. Qed.

(** A natural number below [10^21] prints as its decimal digits. *)
Lemma Number_toString_nat (z : Z) :
  0 <= z < 10 ^ 21 -> Number_toString (Fin (inject_Z z)) = digits z.
Proof.
  intros [H0 H1]. unfold Number_toString, toString_positive.
  assert (Hs : Qltb (inject_Z z) 0 = false).
  { apply Qltb_ge. change 0%Q with (inject_Z 0). now rewrite <- Zle_Qle. }
  rewrite Hs, app_nil_l.
  assert (Ha : Qabs (inject_Z z) = inject_Z z).
  { unfold inject_Z. simpl. now rewrite Z.abs_eq. }
  rewrite Ha.
  assert (Hi : Q_is_int (inject_Z z) = true).
  { unfold Q_is_int. rewrite Qfloor_Z. apply Qeq_bool_iff. reflexivity. }
  assert (Hl : Qltb (inject_Z z) (inject_Z (10 ^ 21)) = true).
  { apply Qltb_lt. now rewrite <- Zlt_Qlt. }
  rewrite Hi, Hl. cbn [andb]. now rewrite Qfloor_Z.
Qed.

(** [x.toFixed(0)] below [10^21]: the sign, then the magnitude rounded to the
    nearest integer. *)
Lemma toFixed_0 (q : Q) :
  (Qabs q < inject_Z (10 ^ 21))%Q ->
  toFixed 0 (Fin q)
  = (if Qltb q 0 then str "-" else []) ++ digits (round_half_up (Qabs q)).
Proof.
  intros H. unfold toFixed.
  assert (Hb : Qle_bool (inject_Z (10 ^ 21)) (Qabs q) = false).
  { destruct (Qle_bool (inject_Z (10 ^ 21)) (Qabs q)) eqn:E; [|reflexivity].
    apply Qle_bool_iff in E. lra. }
  rewrite Hb. f_equal. unfold toFixed_digits, round_half_up. f_equal.
  apply Qfloor_comp. change (inject_Z (pow10 0)) with 1%Q. ring.
Qed.

(** ** Detour and risk deltas *)

Lemma delta_not_positive (d : Q) :
  (1 <= Qabs d)%Q -> Qltb 0 d = false -> Qltb d 0 = true.
Proof.
  intros H1 H2. apply Qltb_ge in H2. apply Qltb_lt.
  destruct (Qlt_le_dec d 0) as [Hlt|Hge]; [exact Hlt|].
  rewrite (Qabs_pos d Hge) in H1. lra.
Qed.

(** C9. A detour or risk delta of absolute value below 1 is reported as
    "same distance as beta=0" (respectively "same risk as beta=0", with the
    Greek letter), and no other delta is; below [10^21] any other delta is
    printed as its sign and its magnitude rounded to the nearest integer;
    0.4 gives the "same distance" text, 120 gives "+120 m" and -120 gives
    "-120 m". *)
Theorem delta_texts (d : Q) :
  (detourTxt d = str "same distance as " ++ 946%N :: str "=0" <-> (Qabs d < 1)%Q)
  /\ (riskTxt d = str "same risk as " ++ 946%N :: str "=0" <-> (Qabs d < 1)%Q)
  /\ ((1 <= Qabs d)%Q -> (Qabs d < inject_Z (10 ^ 21))%Q ->
      detourTxt d = (if Qltb 0 d then str "+" else str "-")
                    ++ digits (round_half_up (Qabs d)) ++ str " m"
      /\ riskTxt d = (if Qltb d 0 then [8722%N] else str "+")
                     ++ digits (round_half_up (Qabs d))
                     ++ str " m" ++ 183%N :: str "risk")
  /\ detourTxt (4 # 10) = str "same distance as " ++ 946%N :: str "=0"
  /\ detourTxt 120 = str "+120 m"
  /\ detourTxt (-120) = str "-120 m".
Proof.
  repeat match goal with |- _ /\ _ => split end; try reflexivity.
  - unfold detourTxt. destruct (Qltb (Qabs d) 1) eqn:E.
    + apply Qltb_lt in E. tauto.
    + apply Qltb_ge in E. split; [|intros; lra].
      destruct (Qltb 0 d) eqn:Ed; [discriminate|].
      unfold toFixed. rewrite (delta_not_positive d E Ed). discriminate.
  - unfold riskTxt. destruct (Qltb (Qabs d) 1) eqn:E.
    + apply Qltb_lt in E. tauto.
    + apply Qltb_ge in E. split; [|intros; lra].
      destruct (Qltb d 0); discriminate.
  - intros H1 Hbig.
    assert (E : Qltb (Qabs d) 1 = false) by now apply Qltb_ge.
    split.
    + unfold detourTxt. rewrite E, (toFixed_0 d Hbig).
      destruct (Qltb 0 d) eqn:Ed.
      * assert (Ed' : Qltb d 0 = false) by (apply Qltb_ge; apply Qltb_lt in Ed; lra).
        rewrite Ed'. reflexivity.
      * rewrite (delta_not_positive d H1 Ed). rewrite <- app_assoc. reflexivity.
    + unfold riskTxt. rewrite E. destruct (Qltb d 0) eqn:Ed.
      * rewrite toFixed_0 by (now rewrite Qabs_Qabs).
        assert (En : Qltb (Qabs d) 0 = false) by (apply Qltb_ge, Qabs_nonneg).
        rewrite En, Qabs_Qabs. reflexivity.
      * rewrite (toFixed_0 d Hbig), Ed. reflexivity.
Qed.

(** ** Rounding to binary64 *)

Lemma pow2_pos (e : Z) : (0 < pow2 e)%Q.
Proof. apply Qpower_0_lt. reflexivity. Qed.

Lemma pow2_add (a b : Z) : (pow2 (a + b) == pow2 a * pow2 b)%Q.
Proof. apply Qpower_plus. discriminate. Qed.

Lemma pow2_Z (n : Z) : 0 <= n -> (pow2 n == inject_Z (2 ^ n))%Q.
Proof. intros H. unfold pow2. now rewrite Zpower_Qpower. Qed.

Lemma pow2_le (a b : Z) : a <= b -> (pow2 a <= pow2 b)%Q.
Proof. intros H. apply Qpower_le_compat_l; [exact H | discriminate]. Qed.

Lemma pow2_lt_inv (a b : Z) : (pow2 a < pow2 b)%Q -> a < b.
Proof. intros H. apply (Qpower_lt_compat_l_inv 2); [exact H | reflexivity]. Qed.

(** [ilog2 q] is the integer part of the binary logarithm. *)
Lemma ilog2_spec (q : Q) :
  (0 < q)%Q -> (pow2 (ilog2 q) <= q < pow2 (ilog2 q + 1))%Q.
Proof.
  intros Hq. destruct q as [n d].
  assert (Hn : 0 < n) by (unfold Qlt in Hq; cbn in Hq; lia).
  set (ln := Z.log2 n). set (ld := Z.log2 (Z.pos d)).
  assert (Hln : 0 <= ln) by apply Z.log2_nonneg.
  assert (Hld : 0 <= ld) by apply Z.log2_nonneg.
  destruct (Z.log2_spec n Hn) as [Hn1 Hn2]. fold ln in Hn1, Hn2.
  destruct (Z.log2_spec (Z.pos d) eq_refl) as [Hd1 Hd2]. fold ld in Hd1, Hd2.
  set (N := inject_Z n). set (D := inject_Z (Z.pos d)).
  assert (HQ : (n # d == N / D)%Q) by apply Qmake_Qdiv.
  assert (HD : (0 < D)%Q) by reflexivity.
  assert (HN1 : (pow2 ln <= N)%Q) by (unfold N, D; rewrite pow2_Z by lia; now rewrite <- Zle_Qle).
  assert (HN2 : (N < pow2 (Z.succ ln))%Q) by (unfold N, D; rewrite pow2_Z by lia; now rewrite <- Zlt_Qlt).
  assert (HD1 : (pow2 ld <= D)%Q) by (unfold N, D; rewrite pow2_Z by lia; now rewrite <- Zle_Qle).
  assert (HD2 : (D < pow2 (Z.succ ld))%Q) by (unfold N, D; rewrite pow2_Z by lia; now rewrite <- Zlt_Qlt).
  set (k := ln - ld).
  assert (HA : (pow2 (k - 1) < n # d)%Q).
  { rewrite HQ. apply Qlt_shift_div_l; [exact HD|].
    apply Qlt_le_trans with (pow2 (k - 1) * pow2 (Z.succ ld))%Q.
    - rewrite !(Qmult_comm (pow2 (k - 1))).
      apply Qmult_lt_compat_r; [apply pow2_pos | exact HD2].
    - rewrite <- pow2_add. replace (k - 1 + Z.succ ld) with ln by (unfold k; lia).
      exact HN1. }
  assert (HB : (n # d < pow2 (k + 1))%Q).
  { rewrite HQ. apply Qlt_shift_div_r; [exact HD|].
    apply Qlt_le_trans with (pow2 (k + 1) * pow2 ld)%Q.
    - rewrite <- pow2_add. replace (k + 1 + ld) with (Z.succ ln) by (unfold k; lia).
      exact HN2.
    - rewrite !(Qmult_comm (pow2 (k + 1))).
      apply Qmult_le_compat_r; [exact HD1 | apply Qlt_le_weak, pow2_pos]. }
  unfold ilog2. cbn [Qnum Qden]. fold ln ld k.
  destruct (Qle_bool (pow2 k) (n # d)) eqn:E.
  - apply Qle_bool_iff in E. split; assumption.
  - replace (k - 1 + 1) with k by lia. split; [now apply Qlt_le_weak|].
    apply Qltb_lt. unfold Qltb. now rewrite E.
Qed.

Lemma ilog2_unique (q : Q) (j : Z) :
  (pow2 j <= q < pow2 (j + 1))%Q -> ilog2 q = j.
Proof.
  intros [Hlo Hhi].
  assert (Hq : (0 < q)%Q) by (eapply Qlt_le_trans; [apply pow2_pos | exact Hlo]).
  destruct (ilog2_spec q Hq) as [Hlo' Hhi'].
  assert (H1 : ilog2 q < j + 1).
  { apply pow2_lt_inv. eapply Qle_lt_trans; eassumption. }
  assert (H2 : j < ilog2 q + 1).
  { apply pow2_lt_inv. eapply Qle_lt_trans; eassumption. }
  lia.
Qed.

Lemma ilog2_lt (q : Q) (j : Z) : (0 < q)%Q -> (q < pow2 j)%Q -> ilog2 q < j.
Proof.
  intros Hq Hj. destruct (ilog2_spec q Hq) as [Hlo _].
  apply pow2_lt_inv. eapply Qle_lt_trans; eassumption.
Qed.

Lemma ilog2_ge (q : Q) (j : Z) : (pow2 j <= q)%Q -> j <= ilog2 q.
Proof.
  intros Hj.
  assert (Hq : (0 < q)%Q) by (eapply Qlt_le_trans; [apply pow2_pos | exact Hj]).
  destruct (ilog2_spec q Hq) as [_ Hhi].
  assert (j < ilog2 q + 1); [|lia].
  apply pow2_lt_inv. eapply Qle_lt_trans; eassumption.
Qed.

(** Rounding to the nearest integer against integer bounds and ties. *)
Lemma round_half_even_cases (q : Q) :
  let f := Qfloor q in
  (inject_Z f <= q < inject_Z f + 1)%Q
  /\ ((q - inject_Z f < 1 # 2)%Q /\ round_half_even q = f
      \/ ((1 # 2) < q - inject_Z f)%Q /\ round_half_even q = f + 1
      \/ (q - inject_Z f == 1 # 2)%Q
         /\ round_half_even q = (if Z.even f then f else f + 1)).
Proof.
  cbn zeta. split.
  - split; [apply Qfloor_le|]. pose proof (Qlt_floor q) as H.
    rewrite inject_Z_plus in H. exact H.
  - unfold round_half_even.
    destruct (Qltb (q - inject_Z (Qfloor q)) (1 # 2)) eqn:E1.
    + left. split; [now apply Qltb_lt | reflexivity].
    + apply Qltb_ge in E1.
      destruct (Qltb (1 # 2) (q - inject_Z (Qfloor q))) eqn:E2.
      * right. left. split; [now apply Qltb_lt | reflexivity].
      * apply Qltb_ge in E2. right. right. split; [lra | reflexivity].
Qed.

Lemma round_half_even_le (q : Q) (k : Z) :
  (q <= inject_Z k)%Q -> round_half_even q <= k.
Proof.
  intros H. destruct (round_half_even_cases q) as ([Hf1 Hf2] & Hc).
  set (f := Qfloor q) in *.
  assert (Hfk : f <= k) by (rewrite Zle_Qle; lra).
  destruct (Z.eq_dec f k) as [E | E].
  - assert (Hr : (q - inject_Z f <= 0)%Q) by (rewrite E; lra).
    destruct Hc as [[_ ->] | [[Hc _] | [Hc _]]]; [lia | lra | lra].
  - destruct Hc as [[_ ->] | [[_ ->] | [_ ->]]]; [lia | lia |].
    destruct (Z.even f); lia.
Qed.

Lemma round_half_even_ge (q : Q) (k : Z) :
  (inject_Z k <= q)%Q -> k <= round_half_even q.
Proof.
  intros H. destruct (round_half_even_cases q) as ([Hf1 Hf2] & Hc).
  set (f := Qfloor q) in *.
  assert (Hfk : k <= f).
  { assert (Hlt : (inject_Z k < inject_Z (f + 1))%Q)
      by (rewrite inject_Z_plus; change (inject_Z 1) with 1%Q; lra).
    rewrite <- Zlt_Qlt in Hlt. lia. }
  destruct Hc as [[_ ->] | [[_ ->] | [_ ->]]]; [lia | lia |].
  destruct (Z.even f); lia.
Qed.

(** At most half past an even integer rounds to it or below. *)
Lemma round_half_even_tie (q : Q) (k : Z) :
  Z.even k = true -> (q <= inject_Z k + (1 # 2))%Q -> round_half_even q <= k.
Proof.
  intros Hev H. destruct (round_half_even_cases q) as ([Hf1 Hf2] & Hc).
  set (f := Qfloor q) in *.
  assert (Hfk : f <= k).
  { assert (Hlt : (inject_Z f < inject_Z (k + 1))%Q)
      by (rewrite inject_Z_plus; change (inject_Z 1) with 1%Q; lra).
    rewrite <- Zlt_Qlt in Hlt. lia. }
  destruct (Z.eq_dec f k) as [E | E].
  - destruct Hc as [[_ ->] | [[Hc _] | [_ ->]]]; [lia | rewrite E in Hc; lra |].
    rewrite E, Hev. lia.
  - destruct Hc as [[_ ->] | [[_ ->] | [_ ->]]]; [lia | lia |].
    destruct (Z.even f); lia.
Qed.

(** More than half past an integer rounds above it. *)
Lemma round_half_even_above (q : Q) (k : Z) :
  (inject_Z k + (1 # 2) < q)%Q -> k + 1 <= round_half_even q.
Proof.
  intros H. destruct (round_half_even_cases q) as ([Hf1 Hf2] & Hc).
  set (f := Qfloor q) in *.
  assert (Hfk : k <= f).
  { assert (Hlt : (inject_Z k < inject_Z (f + 1))%Q)
      by (rewrite inject_Z_plus; change (inject_Z 1) with 1%Q; lra).
    rewrite <- Zlt_Qlt in Hlt. lia. }
  destruct (Z.eq_dec f k) as [E | E].
  - destruct Hc as [[Hc _] | [[_ ->] | [Hc _]]]; [rewrite E in Hc; lra | lia |].
    rewrite E in Hc. lra.
  - destruct Hc as [[_ ->] | [[_ ->] | [_ ->]]]; [lia | lia |].
    destruct (Z.even f); lia.
Qed.

Lemma round_half_even_near (q : Q) :
  (Qabs (inject_Z (round_half_even q) - q) <= 1 # 2)%Q.
Proof.
  destruct (round_half_even_cases q) as ([Hf1 Hf2] & Hc).
  set (f := Qfloor q) in *. apply Qabs_Qle_condition.
  destruct Hc as [[Hc ->] | [[Hc ->] | [Hc ->]]].
  - lra.
  - rewrite inject_Z_plus. change (inject_Z 1) with 1%Q. lra.
  - destruct (Z.even f); [lra|].
    rewrite inject_Z_plus. change (inject_Z 1) with 1%Q. lra.
Qed.

Lemma pow2_split (g e : Z) :
  e <= g -> (pow2 g == inject_Z (2 ^ (g - e)) * pow2 e)%Q.
Proof.
  intros H. rewrite <- pow2_Z by lia. rewrite <- pow2_add.
  now replace (g - e + e) with g by lia.
Qed.

Lemma pow2_half (e : Z) : (pow2 e * (1 # 2) == pow2 (e - 1))%Q.
Proof.
  replace (e - 1) with (e + -1) by lia. rewrite pow2_add. reflexivity.
Qed.

Lemma pow2_nonzero (e : Z) : ~ (pow2 e == 0)%Q.
Proof. pose proof (pow2_pos e). lra. Qed.

(** Rounding onto the grid of spacing [2^e] keeps to the side of every
    point of a coarser grid. *)
Lemma round_to_grid_le (e g K : Z) (q : Q) :
  e <= g -> (q <= inject_Z K * pow2 g)%Q ->
  (round_to_grid e q <= inject_Z K * pow2 g)%Q.
Proof.
  intros He H.
  assert (E : (inject_Z K * pow2 g == inject_Z (K * 2 ^ (g - e)) * pow2 e)%Q).
  { rewrite (pow2_split g e He), inject_Z_mult. ring. }
  rewrite E in *. unfold round_to_grid.
  apply Qmult_le_compat_r; [|apply Qlt_le_weak, pow2_pos].
  rewrite <- Zle_Qle. apply round_half_even_le.
  apply Qle_shift_div_r; [apply pow2_pos | exact H].
Qed.

Lemma round_to_grid_ge (e g K : Z) (q : Q) :
  e <= g -> (inject_Z K * pow2 g <= q)%Q ->
  (inject_Z K * pow2 g <= round_to_grid e q)%Q.
Proof.
  intros He H.
  assert (E : (inject_Z K * pow2 g == inject_Z (K * 2 ^ (g - e)) * pow2 e)%Q).
  { rewrite (pow2_split g e He), inject_Z_mult. ring. }
  rewrite E in *. unfold round_to_grid.
  apply Qmult_le_compat_r; [|apply Qlt_le_weak, pow2_pos].
  rewrite <- Zle_Qle. apply round_half_even_ge.
  apply Qle_shift_div_l; [apply pow2_pos | exact H].
Qed.

(** A value at most half a step past an even grid point rounds to that
    point or below; a value more than half a step past a grid point rounds
    to the next one or above. *)
Lemma round_to_grid_tie (e K : Z) (q : Q) :
  Z.even K = true -> (q <= (inject_Z K + (1 # 2)) * pow2 e)%Q ->
  (round_to_grid e q <= inject_Z K * pow2 e)%Q.
Proof.
  intros Hev H. unfold round_to_grid.
  apply Qmult_le_compat_r; [|apply Qlt_le_weak, pow2_pos].
  rewrite <- Zle_Qle. apply round_half_even_tie; [exact Hev|].
  apply Qle_shift_div_r; [apply pow2_pos | exact H].
Qed.

Lemma round_to_grid_above (e K : Z) (q : Q) :
  ((inject_Z K + (1 # 2)) * pow2 e < q)%Q ->
  (inject_Z (K + 1) * pow2 e <= round_to_grid e q)%Q.
Proof.
  intros H. unfold round_to_grid.
  apply Qmult_le_compat_r; [|apply Qlt_le_weak, pow2_pos].
  rewrite <- Zle_Qle. apply round_half_even_above.
  apply Qlt_shift_div_l; [apply pow2_pos | exact H].
Qed.

(** The rounded value is within half a step of the value. *)
Lemma round_to_grid_near (e : Z) (q : Q) :
  (Qabs (round_to_grid e q - q) <= pow2 (e - 1))%Q.
Proof.
  unfold round_to_grid. set (m := inject_Z (round_half_even (q / pow2 e))).
  assert (E : (m * pow2 e - q == (m - q / pow2 e) * pow2 e)%Q)
    by (field; apply pow2_nonzero).
  rewrite E, Qabs_Qmult, (Qabs_pos (pow2 e)) by apply Qlt_le_weak, pow2_pos.
  rewrite <- pow2_half, (Qmult_comm (pow2 e)).
  apply Qmult_le_compat_r; [apply round_half_even_near | apply Qlt_le_weak, pow2_pos].
Qed.

Lemma binary64_pos_finite (q : Q) :
  (round_to_grid (grid_exponent q) q < pow2 1024)%Q ->
  exists v, binary64_pos q = Fin v /\ (v == round_to_grid (grid_exponent q) q)%Q.
Proof.
  intros H. unfold binary64_pos.
  destruct (Qle_bool _ _) eqn:E.
  - apply Qle_bool_iff in E. rewrite Qred_correct in E. lra.
  - exists (Qred (round_to_grid (grid_exponent q) q)).
    split; [reflexivity | exact (Qred_correct _)].
Qed.

Lemma binary64_pos_value (q v : Q) :
  binary64_pos q = Fin v -> (v == round_to_grid (grid_exponent q) q)%Q.
Proof.
  unfold binary64_pos. destruct (Qle_bool _ _); [discriminate|].
  intros [= <-]. exact (Qred_correct _).
Qed.

Lemma grid_exponent_le (q : Q) (j : Z) :
  -1074 <= j -> (0 < q)%Q -> (q < pow2 (j + 1))%Q ->
  grid_exponent q <= Z.max (-1074) (j - 52).
Proof.
  intros Hj Hq H. pose proof (ilog2_lt q (j + 1) Hq H). unfold grid_exponent. lia.
Qed.

(** A positive value up to a power of two rounds to a finite number up to
    that power. *)
Lemma binary64_pos_le_pow2 (j : Z) (q : Q) :
  -1074 <= j <= 1023 -> (0 < q <= pow2 j)%Q ->
  exists v, binary64_pos q = Fin v /\ (0 <= v <= pow2 j)%Q.
Proof.
  intros Hj [Hq Hle].
  set (g := Z.max (-1074) (j - 52)).
  assert (He : grid_exponent q <= g).
  { apply grid_exponent_le; [lia | exact Hq |].
    eapply Qle_lt_trans; [exact Hle|].
    apply Qpower_lt_compat_l; [lia | reflexivity]. }
  assert (Hj1 : (pow2 j == inject_Z (2 ^ (j - g)) * pow2 g)%Q)
    by (apply pow2_split; lia).
  assert (Hup : (round_to_grid (grid_exponent q) q <= pow2 j)%Q).
  { rewrite Hj1. apply round_to_grid_le; [exact He | now rewrite <- Hj1]. }
  assert (Hlo : (0 <= round_to_grid (grid_exponent q) q)%Q).
  { assert (E0 : (0 == inject_Z 0 * pow2 (grid_exponent q))%Q) by (cbn; ring).
    rewrite E0 at 1. apply round_to_grid_ge; [lia|]. rewrite <- E0. lra. }
  destruct (binary64_pos_finite q) as (v & Hv & Ev).
  - eapply Qle_lt_trans; [exact Hup|]. apply Qpower_lt_compat_l; [lia | reflexivity].
  - exists v. split; [exact Hv|]. rewrite Ev. split; assumption.
Qed.

Lemma Qred_zero (q : Q) : Qeq_bool (Qred q) 0 = true <-> (q == 0)%Q.
Proof. rewrite Qeq_bool_iff, Qred_correct. reflexivity. Qed.

Section Threshold.
(** A binary64 number [K * 2^(j-52)] with an even significand [K], in the
    normal range: the values that round to it or below are those up to half
    a step above it. *)
Variables (j K : Z).
Hypothesis Hj : -1022 <= j <= 1022.
Hypothesis HK : 2 ^ 52 <= K < 2 ^ 53.
Hypothesis Heven : Z.even K = true.

Let bound : Q := (inject_Z K * pow2 (j - 52))%Q.
Let margin : Q := ((inject_Z K + (1 # 2)) * pow2 (j - 52))%Q.

Lemma threshold_bound_range : (pow2 j <= bound /\ margin < pow2 (j + 1))%Q.
Proof.
  unfold bound, margin.
  assert (E1 : (pow2 j == inject_Z (2 ^ 52) * pow2 (j - 52))%Q).
  { rewrite <- pow2_Z by lia. rewrite <- pow2_add.
    now replace (52 + (j - 52)) with j by lia. }
  assert (E2 : (pow2 (j + 1) == inject_Z (2 ^ 53) * pow2 (j - 52))%Q).
  { rewrite <- pow2_Z by lia. rewrite <- pow2_add.
    now replace (53 + (j - 52)) with (j + 1) by lia. }
  pose proof (pow2_pos (j - 52)) as Hp.
  split.
  - rewrite E1. apply Qmult_le_compat_r; [|lra]. rewrite <- Zle_Qle. lia.
  - rewrite E2. apply Qmult_lt_compat_r; [exact Hp|].
    assert (H : (inject_Z K <= inject_Z (2 ^ 53 - 1))%Q) by (rewrite <- Zle_Qle; lia).
    assert (E : (inject_Z (2 ^ 53 - 1) == inject_Z (2 ^ 53) - 1)%Q).
    { unfold Z.sub. rewrite inject_Z_plus. reflexivity. }
    lra.
Qed.

Lemma binary64_pos_within (q : Q) :
  (0 < q <= margin)%Q ->
  exists v, binary64_pos q = Fin v
            /\ (0 <= v <= bound)%Q /\ (Qabs (v - q) <= pow2 (j - 53))%Q.
Proof.
  intros [Hq Hle]. destruct threshold_bound_range as [Hb1 Hb2].
  assert (He : grid_exponent q <= j - 52).
  { pose proof (grid_exponent_le q j ltac:(lia) Hq ltac:(lra)). lia. }
  assert (Hup : (round_to_grid (grid_exponent q) q <= bound)%Q).
  { destruct (Qlt_le_dec q (pow2 j)) as [Hlt | Hge].
    - apply round_to_grid_le; [exact He | fold bound; lra].
    - assert (Hil : ilog2 q = j) by (apply ilog2_unique; split; lra).
      assert (Hg : grid_exponent q = j - 52) by (unfold grid_exponent; lia).
      rewrite Hg. apply round_to_grid_tie; [exact Heven | exact Hle]. }
  assert (Hlo : (0 <= round_to_grid (grid_exponent q) q)%Q).
  { assert (E0 : (0 == inject_Z 0 * pow2 (grid_exponent q))%Q) by (cbn; ring).
    rewrite E0 at 1. apply round_to_grid_ge; [lia|]. rewrite <- E0. lra. }
  destruct (binary64_pos_finite q) as (v & Hv & Ev).
  - assert (pow2 (j + 1) <= pow2 1024)%Q by (apply pow2_le; lia).
    assert (bound <= margin)%Q.
    { unfold bound, margin. pose proof (pow2_pos (j - 52)). nra. }
    lra.
  - exists v. split; [exact Hv|]. rewrite Ev. split; [split; assumption|].
    eapply Qle_trans; [apply round_to_grid_near|]. apply pow2_le. lia.
Qed.

Lemma binary64_pos_beyond (q v : Q) :
  (margin < q)%Q -> binary64_pos q = Fin v -> (bound < v)%Q.
Proof.
  intros Hgt Hv. apply binary64_pos_value in Hv. rewrite Hv.
  destruct threshold_bound_range as [Hb1 Hb2].
  pose proof (pow2_pos (j - 52)) as Hp.
  assert (Hbm : (bound <= margin)%Q) by (unfold bound, margin; nra).
  destruct (Qlt_le_dec q (pow2 (j + 1))) as [Hlt | Hge].
  - assert (Hil : ilog2 q = j) by (apply ilog2_unique; split; lra).
    assert (Hg : grid_exponent q = j - 52) by (unfold grid_exponent; lia).
    rewrite Hg. eapply Qlt_le_trans; [|apply round_to_grid_above; exact Hgt].
    rewrite inject_Z_plus. change (inject_Z 1) with 1%Q. unfold bound. nra.
  - pose proof (ilog2_ge q (j + 1) Hge) as Hil.
    assert (Hq : (0 < q)%Q) by (pose proof (pow2_pos (j + 1)); lra).
    destruct (ilog2_spec q Hq) as [Hlo _].
    assert (Hg : grid_exponent q = ilog2 q - 52) by (unfold grid_exponent; lia).
    assert (E : (pow2 (ilog2 q) == inject_Z (2 ^ 52) * pow2 (grid_exponent q))%Q).
    { rewrite Hg. rewrite <- pow2_Z by lia. rewrite <- pow2_add.
      now replace (52 + (ilog2 q - 52)) with (ilog2 q) by lia. }
    assert (H1 : (pow2 (ilog2 q) <= round_to_grid (grid_exponent q) q)%Q).
    { rewrite E. apply round_to_grid_ge; [lia|]. now rewrite <- E. }
    assert (H2 : (pow2 (j + 1) <= pow2 (ilog2 q))%Q) by (apply pow2_le; lia).
    lra.
Qed.

Lemma binary64_within (q : Q) :
  (Qabs q <= margin)%Q ->
  exists v, binary64 q = Fin v
            /\ (Qabs v <= bound)%Q /\ (Qabs (v - q) <= pow2 (j - 53))%Q.
Proof.
  intros H. apply Qabs_Qle_condition in H. unfold binary64.
  pose proof (Qred_correct q) as Er.
  pose proof (pow2_pos (j - 53)) as Hp.
  destruct threshold_bound_range as [Hb1 Hb2]. pose proof (pow2_pos j) as Hpj.
  destruct (Qeq_bool (Qred q) 0) eqn:E0.
  - apply Qred_zero in E0. exists 0%Q. split; [reflexivity|].
    split; apply Qabs_Qle_condition; lra.
  - destruct (Qltb (Qred q) 0) eqn:E1.
    + apply Qltb_lt in E1.
      destruct (binary64_pos_within (- Qred q)) as (v & -> & Hv & Hn); [lra|].
      exists (- v)%Q. split; [reflexivity|].
      apply Qabs_Qle_condition in Hn.
      split; apply Qabs_Qle_condition; lra.
    + apply Qltb_ge in E1.
      assert (Hne : ~ (Qred q == 0)%Q).
      { intros Hz. rewrite <- Qeq_bool_iff in Hz. congruence. }
      destruct (binary64_pos_within (Qred q)) as (v & -> & Hv & Hn); [lra|].
      exists v. split; [reflexivity|].
      apply Qabs_Qle_condition in Hn.
      split; apply Qabs_Qle_condition; lra.
Qed.

Lemma binary64_beyond (q v : Q) :
  (margin < Qabs q)%Q -> binary64 q = Fin v -> (bound < Qabs v)%Q.
Proof.
  intros H. unfold binary64.
  pose proof (Qred_correct q) as Er.
  destruct threshold_bound_range as [Hb1 Hb2]. pose proof (pow2_pos j) as Hpj.
  assert (Hbm : (bound <= margin)%Q).
  { unfold bound, margin. pose proof (pow2_pos (j - 52)). nra. }
  destruct (Qeq_bool (Qred q) 0) eqn:E0.
  - apply Qred_zero in E0. rewrite E0 in H. change (Qabs 0) with 0%Q in H. lra.
  - destruct (Qltb (Qred q) 0) eqn:E1.
    + apply Qltb_lt in E1.
      destruct (binary64_pos (- Qred q)) as [v' | |] eqn:Ev; try discriminate.
      cbn. intros [= <-]. rewrite Qabs_opp.
      eapply Qlt_le_trans; [|apply Qle_Qabs].
      apply (binary64_pos_beyond (- Qred q)); [|exact Ev].
      rewrite Er. rewrite <- Qabs_opp in H. rewrite Qabs_pos in H; lra.
    + apply Qltb_ge in E1. intros Ev.
      eapply Qlt_le_trans; [|apply Qle_Qabs].
      apply (binary64_pos_beyond (Qred q)); [|exact Ev].
      rewrite Er. rewrite Qabs_pos in H; lra.
Qed.

End Threshold.

(** A value of magnitude up to a power of two rounds to a finite number of
    magnitude up to that power, of the same sign. *)
Lemma binary64_le_pow2 (j : Z) (q : Q) :
  -1074 <= j <= 1023 -> (0 <= q <= pow2 j)%Q ->
  exists v, binary64 q = Fin v /\ (0 <= v <= pow2 j)%Q.
Proof.
  intros Hj [Hq Hle]. unfold binary64. pose proof (Qred_correct q) as Er.
  pose proof (pow2_pos j) as Hp.
  destruct (Qeq_bool (Qred q) 0) eqn:E0.
  - exists 0%Q. split; [reflexivity | lra].
  - destruct (Qltb (Qred q) 0) eqn:E1; [apply Qltb_lt in E1; lra|].
    assert (Hne : ~ (Qred q == 0)%Q).
    { intros Hz. rewrite <- Qeq_bool_iff in Hz. congruence. }
    apply binary64_pos_le_pow2; [exact Hj | lra].
Qed.

Lemma binary64_comp (q q' : Q) : (q == q')%Q -> binary64 q = binary64 q'.
Proof. intros H. unfold binary64. now rewrite (Qred_complete q q' H). Qed.

(** The rounded value is within a relative [2^-53] of the value, or within
    half a subnormal step. *)
Lemma binary64_pos_near (q v : Q) :
  (0 < q)%Q -> binary64_pos q = Fin v ->
  (Qabs (v - q) <= q * pow2 (-53) + pow2 (-1075))%Q.
Proof.
  intros Hq Hv. apply binary64_pos_value in Hv. rewrite Hv.
  eapply Qle_trans; [apply round_to_grid_near|].
  destruct (ilog2_spec q Hq) as [Hlo _].
  pose proof (pow2_pos (-53)) as H53. pose proof (pow2_pos (-1075)) as Hsub.
  pose proof (pow2_pos (ilog2 q)) as Hil.
  unfold grid_exponent. destruct (Z.max_spec (-1074) (ilog2 q - 52)) as [[_ ->] | [_ ->]].
  - replace (ilog2 q - 52 - 1) with (ilog2 q + -53) by lia. rewrite pow2_add.
    assert (pow2 (ilog2 q) * pow2 (-53) <= q * pow2 (-53))%Q
      by (apply Qmult_le_compat_r; lra).
    lra.
  - change (-1074 - 1) with (-1075).
    assert (0 <= q * pow2 (-53))%Q by (apply Qmult_le_0_compat; lra).
    lra.
Qed.

Lemma binary64_near (q v : Q) :
  binary64 q = Fin v ->
  (Qabs (v - q) <= Qabs q * pow2 (-53) + pow2 (-1075))%Q.
Proof.
  unfold binary64. pose proof (Qred_correct q) as Er.
  pose proof (pow2_pos (-53)) as H53. pose proof (pow2_pos (-1075)) as Hsub.
  destruct (Qeq_bool (Qred q) 0) eqn:E0.
  - apply Qred_zero in E0. intros [= <-]. rewrite E0.
    change (Qabs (0 - 0)) with 0%Q. change (Qabs 0) with 0%Q. lra.
  - assert (Hne : ~ (Qred q == 0)%Q).
    { intros Hz. rewrite <- Qeq_bool_iff in Hz. congruence. }
    destruct (Qltb (Qred q) 0) eqn:E1.
    + apply Qltb_lt in E1.
      destruct (binary64_pos (- Qred q)) as [v' | |] eqn:Ev; try discriminate.
      cbn [num_neg]. intros [= <-].
      assert (Hp : (0 < - Qred q)%Q) by lra.
      pose proof (binary64_pos_near _ _ Hp Ev) as Hn.
      assert (Ea : (Qabs q == - Qred q)%Q).
      { rewrite Er, <- Qabs_opp. apply Qabs_pos. lra. }
      rewrite Ea. apply Qabs_Qle_condition in Hn. apply Qabs_Qle_condition. lra.
    + apply Qltb_ge in E1. intros Ev.
      assert (Hp : (0 < Qred q)%Q) by lra.
      pose proof (binary64_pos_near _ _ Hp Ev) as Hn.
      assert (Ea : (Qabs q == Qred q)%Q) by (rewrite Er; apply Qabs_pos; lra).
      rewrite Ea. apply Qabs_Qle_condition in Hn. apply Qabs_Qle_condition. lra.
Qed.

(** The two bounds of [tryParseLatLon]: a magnitude up to the margin rounds
    to a number within the bound and within half a step of the value; a
    larger magnitude rounds beyond the bound. *)
Lemma binary64_latitude (q : Q) :
  ((Qabs q <= lat_margin)%Q ->
   exists v, binary64 q = Fin v
             /\ (-90 <= v <= 90)%Q /\ (Qabs (v - q) <= pow2 (-47))%Q)
  /\ ((lat_margin < Qabs q)%Q ->
      forall v, binary64 q = Fin v -> (v < -90 \/ 90 < v)%Q).
Proof.
  assert (Hj : -1022 <= 6 <= 1022) by lia.
  assert (HK : 2 ^ 52 <= 90 * 2 ^ 46 < 2 ^ 53) by lia.
  assert (Hev : Z.even (90 * 2 ^ 46) = true) by reflexivity.
  assert (Eb : (inject_Z (90 * 2 ^ 46) * pow2 (6 - 52) == 90)%Q) by reflexivity.
  assert (Em : ((inject_Z (90 * 2 ^ 46) + (1 # 2)) * pow2 (6 - 52) == lat_margin)%Q)
    by reflexivity.
  split.
  - intros H. rewrite <- Em in H.
    destruct (binary64_within 6 _ Hj HK Hev q H) as (v & Hv & Hb & Hn).
    exists v. split; [exact Hv|]. rewrite Eb in Hb.
    split; [apply Qabs_Qle_condition in Hb; exact Hb | exact Hn].
  - intros H v Hv. rewrite <- Em in H.
    pose proof (binary64_beyond 6 _ Hj HK q v H Hv) as Hb. rewrite Eb in Hb.
    destruct (Qlt_le_dec v 0) as [Hneg | Hpos].
    + left. rewrite <- Qabs_opp, Qabs_pos in Hb; lra.
    + right. rewrite Qabs_pos in Hb; lra.
Qed.

Lemma binary64_longitude (q : Q) :
  ((Qabs q <= lon_margin)%Q ->
   exists v, binary64 q = Fin v
             /\ (-180 <= v <= 180)%Q /\ (Qabs (v - q) <= pow2 (-46))%Q)
  /\ ((lon_margin < Qabs q)%Q ->
      forall v, binary64 q = Fin v -> (v < -180 \/ 180 < v)%Q).
Proof.
  assert (Hj : -1022 <= 7 <= 1022) by lia.
  assert (HK : 2 ^ 52 <= 180 * 2 ^ 45 < 2 ^ 53) by lia.
  assert (Hev : Z.even (180 * 2 ^ 45) = true) by reflexivity.
  assert (Eb : (inject_Z (180 * 2 ^ 45) * pow2 (7 - 52) == 180)%Q) by reflexivity.
  assert (Em : ((inject_Z (180 * 2 ^ 45) + (1 # 2)) * pow2 (7 - 52) == lon_margin)%Q)
    by reflexivity.
  split.
  - intros H. rewrite <- Em in H.
    destruct (binary64_within 7 _ Hj HK Hev q H) as (v & Hv & Hb & Hn).
    exists v. split; [exact Hv|]. rewrite Eb in Hb.
    split; [apply Qabs_Qle_condition in Hb; exact Hb | exact Hn].
  - intros H v Hv. rewrite <- Em in H.
    pose proof (binary64_beyond 7 _ Hj HK q v H Hv) as Hb. rewrite Eb in Hb.
    destruct (Qlt_le_dec v 0) as [Hneg | Hpos].
    + left. rewrite <- Qabs_opp, Qabs_pos in Hb; lra.
    + right. rewrite Qabs_pos in Hb; lra.
Qed.

(** ** Route cards *)

Lemma routeCards_lookup (rs : list Route) (md : option jsstring) (i : nat) (r : Route) :
  rs !! i = Some r ->
  routeCards rs md !! i
  = Some (routeCard (speedFor (match md with Some m => m | None => str "walk" end))
                    r (safetyScore (maxRisk rs) r)).
Proof.
  intros Hr. unfold routeCards.
  rewrite lookup_zip_with, Hr, safetyScores_lookup, Hr. reflexivity.
Qed.

Lemma routeCards_length (rs : list Route) (md : option jsstring) :
  length (routeCards rs md) = length rs.
Proof.
  unfold routeCards. rewrite length_zip_with, safetyScores_length. lia.
Qed.



(** C7, as the script has it. The title of a card is the route's own name
    when the service supplied a non-empty one, and otherwise follows
    [beta]: "Fastest Route" for 0, "Safest Route" from 1 up, "Balanced
    Route" for any other value. The description follows the same split and
    is the documented one for the mode walk, which is also the mode taken
    when the response names none. *)
Theorem card_title_and_description (rs : list Route) (md : option jsstring)
    (i : nat) (r : Route) :
  rs !! i = Some r ->
  exists c,
    routeCards rs md !! i = Some c
    /\ (forall n, name r = Some n -> n <> [] -> card_title c = n)
    /\ (name r = None \/ name r = Some [] ->
        ((beta r == 0)%Q -> card_title c = str "Fastest Route")
        /\ ((1 <= beta r)%Q -> card_title c = str "Safest Route")
        /\ (~ (beta r == 0)%Q -> (beta r < 1)%Q -> card_title c = str "Balanced Route"))
    /\ (md = Some (str "walk") \/ md = None ->
        card_subtitle c = documented_description (beta r) (str "walk")).
Proof.
  intros Hr. eexists. split; [apply routeCards_lookup, Hr|].
  cbn [card_title card_subtitle routeCard].
  split; [|split].
  - intros n Hn Hne. unfold cardTitle. rewrite Hn.
    destruct n; [contradiction|reflexivity].
  - intros Hname.
    assert (Ht : cardTitle r = nameForBeta (beta r)).
    { unfold cardTitle. destruct Hname as [-> | ->]; reflexivity. }
    rewrite Ht. unfold nameForBeta. repeat split.
    + intros H0. apply Qeq_bool_iff in H0. now rewrite H0.
    + intros H1. rewrite (Qeq_bool_false (beta r) 0) by lra.
      apply Qle_bool_iff in H1. now rewrite H1.
    + intros H0 H1. rewrite (Qeq_bool_false (beta r) 0) by exact H0.
      destruct (Qle_bool 1 (beta r)) eqn:E; [|reflexivity].
      apply Qle_bool_iff in E. lra.
  - intros _. unfold cardSubtitle, documented_description.
    destruct (Qeq_bool (beta r) 0); [reflexivity|].
    destruct (Qle_bool 1 (beta r)); reflexivity.
Qed.

(** The fallback of [speedFor] does cover a mode that is neither an own key
    of [MODE_SPEEDS] nor a property name of [Object.prototype]. *)
Lemma speedFor_unknown (md : jsstring) :
  md ∉ [str "walk"; str "bike"; str "drive"] ->
  md ∉ Object_prototype_keys ->
  speedFor md = VNumber (Fin (13 # 10)).
Proof.
  intros Hown Hproto. unfold speedFor, MODE_SPEEDS_get at 1.
  assert (Hnone : MODE_SPEEDS !! md = None).
  { unfold MODE_SPEEDS.
    rewrite !lookup_insert_ne, lookup_singleton_ne; [reflexivity|..];
      intros <-; apply Hown;
      repeat first [apply list_elem_of_here | apply list_elem_of_further]. }
  rewrite Hnone, bool_decide_eq_false_2 by exact Hproto.
  vm_compute. reflexivity.
Qed.

(** A missing [length_m] is rendered as a length of 0 metres. *)
Lemma routeCard_missing_length (speeds : jsval) (r r' : Route) (safety : Z) :
  length_m (stats r) = None ->
  length_m (stats r') = Some 0%Q ->
  card_eta (routeCard speeds r safety) = card_eta (routeCard speeds r' safety)
  /\ card_miles (routeCard speeds r safety) = card_miles (routeCard speeds r' safety).
Proof.
  intros H H'. unfold routeCard. cbn [card_eta card_miles]. now rewrite H, H'.
Qed.

(** C10, at the mode "toString". [MODE_SPEEDS["toString"]] is the function
    inherited from [Object.prototype]; it is truthy, so the walking speed is
    not substituted, the division yields NaN and every card shows "NaNm". *)
Theorem eta_for_inherited_key (rs : list Route) :
  speedFor (str "toString") = VObject
  /\ length (routeCards rs (Some (str "toString"))) = length rs
  /\ Forall (fun c => card_eta c = str "NaNm")
            (routeCards rs (Some (str "toString"))).
Proof.
  split; [vm_compute; reflexivity|]. split; [apply routeCards_length|].
  apply Forall_lookup. intros i c Hc.
  destruct (rs !! i) as [r|] eqn:Hr.
  - rewrite (routeCards_lookup _ _ _ _ Hr) in Hc. injection Hc as <-.
    assert (Hs : speedFor (str "toString") = VObject) by (vm_compute; reflexivity).
    rewrite Hs. reflexivity.
  - apply lookup_ge_None in Hr. apply lookup_lt_Some in Hc.
    rewrite routeCards_length in Hc. lia.
Qed.

(** ** Running the script: the monad *)

Lemma bind_Normal {A B} (m : M A) (k : A -> M B) w a w1 t1 :
  m w = (Normal a, w1, t1) ->
  bind m k w = (let '(r, w2, t2) := k a w1 in (r, w2, t1 ++ t2)).
Proof. intros H. unfold bind. now rewrite H. Qed.

Lemma bind_Threw {A B} (m : M A) (k : A -> M B) w e w1 t1 :
  m w = (Threw e, w1, t1) -> bind m k w = (Threw e, w1, t1).
Proof. intros H. unfold bind. now rewrite H. Qed.

Lemma bind_Returned {A B} (m : M A) (k : A -> M B) w w1 t1 :
  m w = (Returned, w1, t1) -> bind m k w = (Returned, w1, t1).
Proof. intros H. unfold bind. now rewrite H. Qed.

(** ** Fresh stamps *)

Lemma foldr_max_ge (l : list nat) (x : nat) :
  x ∈ l -> (x <= foldr Nat.max 0 l)%nat.
Proof.
  induction l as [|y l IH]; intros Hin; [inversion Hin|].
  apply elem_of_cons in Hin as [-> | Hin]; simpl; [lia|].
  specialize (IH Hin). lia.
Qed.

Lemma fresh_above (objs : gmap nat Layer) (id : nat) :
  id ∈ dom objs -> (id < fresh objs)%nat.
Proof.
  intros Hin. unfold fresh, set_fold. simpl.
  apply Nat.lt_succ_r, foldr_max_ge. now apply elem_of_elements.
Qed.

Lemma fresh_not_in (objs : gmap nat Layer) : fresh objs ∉ dom objs.
Proof. intros Hin. apply fresh_above in Hin. lia. Qed.

Lemma fresh_lookup (objs : gmap nat Layer) : objs !! fresh objs = None.
Proof. apply not_elem_of_dom, fresh_not_in. Qed.

(** ** The overlay lifecycle *)

Lemma forEach_remove (ids : list nat) (w : World) :
  forEach ids remove w
  = (Normal tt, set_on_map (fun s => s ∖ list_to_set ids) w, EvRemoveLayer <$> ids).
Proof.
  revert w. induction ids as [|id ids IH]; intros w.
  - destruct w. unfold forEach, ret, set_on_map. cbn. do 2 f_equal. f_equal.
    now rewrite difference_empty_L.
  - cbn [forEach]. rewrite (bind_Normal _ _ w tt (set_on_map (fun s => s ∖ {[id]}) w) [EvRemoveLayer id])
      by reflexivity.
    rewrite IH. cbn. unfold set_on_map. cbn. do 2 f_equal. f_equal.
    now rewrite difference_difference_l_L.
Qed.

Lemma clearRoutes_run (w : World) :
  clearRoutes w
  = (Normal tt,
     set_routeLayers [] (set_on_map (fun s => s ∖ list_to_set (routeLayers w)) w),
     EvRemoveLayer <$> routeLayers w).
Proof.
  unfold clearRoutes. unfold bind at 1. cbn [get].
  rewrite (bind_Normal _ _ w tt _ _ (forEach_remove (routeLayers w) w)).
  cbn. now rewrite app_nil_r.
Qed.

Lemma drawRoute_run (r : Route) (w : World) :
  drawRoute r w
  = (Normal (fresh (objects w)),
     set_routeLayers (routeLayers w ++ [fresh (objects w)])
       (set_on_map (fun s => {[ fresh (objects w) ]} ∪ s)
          (set_objects (insert (fresh (objects w)) (RouteLayer (geojson r) (color r))) w)),
     [EvAddLayer (fresh (objects w))]).
Proof. reflexivity. Qed.

(** What drawing the overlays of [rs] does: one fresh layer per route, in
    order, each put on the map and recorded in [routeLayers]. *)
Lemma mapM_drawRoute (rs : list Route) (w : World) :
  exists ids w',
    mapM drawRoute rs w = (Normal ids, w', EvAddLayer <$> ids)
    /\ Forall2 (fun id r => objects w' !! id = Some (RouteLayer (geojson r) (color r))) ids rs
    /\ NoDup ids
    /\ (forall id, id ∈ ids -> id ∉ dom (objects w))
    /\ (forall id, id ∈ dom (objects w) -> objects w' !! id = objects w !! id)
    /\ dom (objects w') = list_to_set ids ∪ dom (objects w)
    /\ on_map w' = list_to_set ids ∪ on_map w
    /\ routeLayers w' = routeLayers w ++ ids
    /\ view w' = view w
    /\ originMarker w' = originMarker w
    /\ destMarker w' = destMarker w
    /\ route_choices w' = route_choices w
    /\ route_sheet w' = route_sheet w.
Proof.
  revert w. induction rs as [|r rs IH]; intros w.
  - exists [], w. cbn. repeat split; try reflexivity; try constructor.
    + intros id Hin. inversion Hin.
    + now rewrite union_empty_l_L.
    + now rewrite union_empty_l_L.
    + now rewrite app_nil_r.
  - set (id := fresh (objects w)).
    set (w1 := set_routeLayers (routeLayers w ++ [id])
                 (set_on_map (fun s => {[ id ]} ∪ s)
                    (set_objects (insert id (RouteLayer (geojson r) (color r))) w))).
    destruct (IH w1) as (ids & w' & Hrun & Hobj & Hnd & Hfresh & Hkeep & Hdom
                         & Hon & Hrl & Hv & Hom & Hdm & Hrc & Hrs).
    assert (Hdom1 : dom (objects w1) = {[ id ]} ∪ dom (objects w)).
    { unfold w1. cbn. apply dom_insert_L. }
    assert (Hid1 : id ∈ dom (objects w1))
      by (rewrite Hdom1; now apply elem_of_union_l, elem_of_singleton).
    assert (Hnotin : id ∉ ids) by (intros Hin; exact (Hfresh id Hin Hid1)).
    exists (id :: ids), w'.
    split.
    { cbn [mapM]. rewrite (bind_Normal _ _ w id w1 [EvAddLayer id] (drawRoute_run r w)).
      rewrite (bind_Normal _ _ w1 ids w' _ Hrun). unfold ret. cbn.
      now rewrite app_nil_r. }
    split.
    { constructor; [|exact Hobj].
      rewrite (Hkeep id Hid1). unfold w1. cbn. apply lookup_insert_eq. }
    split; [now constructor|].
    split.
    { intros x Hx. apply elem_of_cons in Hx as [-> | Hx].
      - apply fresh_not_in.
      - specialize (Hfresh x Hx). rewrite Hdom1 in Hfresh.
        intros Hin. now apply Hfresh, elem_of_union_r. }
    split.
    { intros x Hx. rewrite Hkeep by (rewrite Hdom1; now apply elem_of_union_r).
      unfold w1. cbn. apply lookup_insert_ne. intros <-.
      exact (fresh_not_in _ Hx). }
    split.
    { rewrite Hdom, Hdom1, list_to_set_cons. apply set_eq. intros y.
      rewrite !elem_of_union. tauto. }
    split.
    { rewrite Hon, list_to_set_cons. unfold w1. cbn. apply set_eq. intros y.
      rewrite !elem_of_union. tauto. }
    split; [rewrite Hrl; unfold w1; cbn; now rewrite <- app_assoc|].
    unfold w1 in Hv, Hom, Hdm, Hrc, Hrs. cbn in Hv, Hom, Hdm, Hrc, Hrs.
    repeat split; assumption.
Qed.

(** One call of [drawMultiRoutes]: it completes; its log is the removal of
    every recorded layer, then the addition of the new ones, then events
    of the viewport and the card box. *)
Lemma drawMultiRoutes_run (data : RouteResultSet) (w : World) :
  exists ids w' rest,
    drawMultiRoutes data w
    = (Normal tt, w',
       (EvRemoveLayer <$> routeLayers w) ++ (EvAddLayer <$> ids) ++ rest)
    /\ Forall page_event rest
    /\ Forall2 (fun id r => objects w' !! id = Some (RouteLayer (geojson r) (color r)))
               ids (routes data)
    /\ NoDup ids
    /\ (forall id, id ∈ ids -> id ∉ dom (objects w))
    /\ (forall id, id ∈ dom (objects w) -> objects w' !! id = objects w !! id)
    /\ dom (objects w') = list_to_set ids ∪ dom (objects w)
    /\ on_map w' = list_to_set ids ∪ (on_map w ∖ list_to_set (routeLayers w))
    /\ routeLayers w' = ids
    /\ originMarker w' = originMarker w
    /\ destMarker w' = destMarker w
    /\ route_sheet w' = route_sheet w.
Proof.
  set (w0 := set_routeLayers [] (set_on_map (fun s => s ∖ list_to_set (routeLayers w)) w)).
  destruct (mapM_drawRoute (routes data) w0)
    as (ids & w1 & Hrun & Hobj & Hnd & Hfresh & Hkeep & Hdom & Hon & Hrl & Hv & Hom & Hdm & Hrc & Hrs).
  (* the viewport step *)
  set (fit := match ids with
              | [] => ret tt
              | _ => w <- get ;; show (FitBounds (group_points w ids) (40, 40))
              end).
  assert (Hfit : exists w2 t2, fit w1 = (Normal tt, w2, t2)
                  /\ Forall page_event t2
                  /\ objects w2 = objects w1 /\ on_map w2 = on_map w1
                  /\ routeLayers w2 = routeLayers w1
                  /\ originMarker w2 = originMarker w1 /\ destMarker w2 = destMarker w1
                  /\ route_choices w2 = route_choices w1 /\ route_sheet w2 = route_sheet w1).
  { unfold fit. destruct ids as [|i0 ids'].
    - exists w1, []. repeat split; constructor.
    - eexists _, _. split; [reflexivity|]. cbn.
      repeat split; try reflexivity. repeat constructor. }
  destruct Hfit as (w2 & t2 & Hfit & Ht2 & Ho2 & Hon2 & Hrl2 & Hom2 & Hdm2 & Hrc2 & Hrs2).
  (* the cards *)
  assert (Hren : exists w3 t3,
             renderRouteChoicesTemplate (routes data) (mode data) w2 = (Normal tt, w3, t3)
             /\ Forall page_event t3
             /\ objects w3 = objects w2 /\ on_map w3 = on_map w2
             /\ routeLayers w3 = routeLayers w2
             /\ originMarker w3 = originMarker w2 /\ destMarker w3 = destMarker w2
             /\ route_sheet w3 = route_sheet w2).
  { unfold renderRouteChoicesTemplate, bind, get. cbn.
    destruct (route_choices w2).
    - eexists _, _. split; [reflexivity|]. cbn.
      repeat split; try reflexivity. repeat constructor.
    - exists w2, []. repeat split; constructor. }
  destruct Hren as (w3 & t3 & Hren & Ht3 & Ho3 & Hon3 & Hrl3 & Hom3 & Hdm3 & Hrs3).
  exists ids, w3, (t2 ++ t3).
  split.
  { unfold drawMultiRoutes.
    rewrite (bind_Normal _ _ w tt w0 _ (clearRoutes_run w)).
    rewrite (bind_Normal _ _ w0 ids w1 _ Hrun).
    fold fit. rewrite (bind_Normal _ _ w1 tt w2 _ Hfit), Hren. reflexivity. }
  split; [apply Forall_app; split; assumption|].
  rewrite Ho3, Ho2, Hon3, Hon2, Hrl3, Hrl2, Hom3, Hom2, Hdm3, Hdm2, Hrs3, Hrs2.
  unfold w0 in *. cbn in *.
  repeat split; assumption.
Qed.

Lemma elem_of_live_routes (w : World) (id : nat) :
  id ∈ live_routes w <-> id ∈ on_map w /\ is_route_layer w id = true.
Proof. unfold live_routes. rewrite elem_of_filter. tauto. Qed.

Lemma is_route_layer_dom (w : World) (id : nat) :
  is_route_layer w id = true -> id ∈ dom (objects w).
Proof.
  unfold is_route_layer. intros H. apply elem_of_dom.
  destruct (objects w !! id); [eauto|discriminate].
Qed.

Lemma marker_not_route (w : World) (m : option nat) (id : nat) :
  marker_ok w m -> m = Some id -> is_route_layer w id = false.
Proof.
  intros Hm Hid. destruct (Hm id Hid) as (_ & ll & t & p & Hl).
  unfold is_route_layer. now rewrite Hl.
Qed.

(** The page the script starts from is well formed. *)
Lemma wf_initial (choices : option (list Card)) (sheet : option jsstring) :
  wf_world (initial choices sheet).
Proof.
  split; cbn.
  - rewrite dom_singleton_L. reflexivity.
  - intros id Hin. inversion Hin.
  - intros id Hin. apply elem_of_live_routes in Hin as [Hin Hr]. cbn in Hin.
    apply elem_of_singleton in Hin as ->. discriminate Hr.
  - intros id Hid. discriminate.
  - intros id Hid. discriminate.
  - intros id Hid. discriminate.
Qed.

(** [drawMultiRoutes] keeps the page well formed. *)
Lemma drawMultiRoutes_wf (data : RouteResultSet) (w : World) :
  wf_world w -> wf_world (snd (fst (drawMultiRoutes data w))).
Proof.
  intros [Hmap Hroutes Htracked Ho Hd Hdist].
  destruct (drawMultiRoutes_run data w)
    as (ids & w' & rest & Hrun & Hrest & Hobj & Hnd & Hfresh & Hkeep & Hdom
        & Hon & Hrl & Hom & Hdm & Hrs).
  rewrite Hrun. cbn [fst snd].
  assert (Hids : forall id, id ∈ ids -> is_route_layer w' id = true).
  { intros id Hin. apply list_elem_of_lookup in Hin as [k Hk].
    destruct (Forall2_lookup_l _ _ _ _ _ Hobj Hk) as (r & _ & Hr).
    unfold is_route_layer. now rewrite Hr. }
  assert (Hold : forall id, id ∈ dom (objects w) -> is_route_layer w' id = is_route_layer w id).
  { intros id Hin. unfold is_route_layer. now rewrite Hkeep. }
  assert (Hmk : forall m, marker_ok w m -> marker_ok w' m).
  { intros m Hm id Hid. destruct (Hm id Hid) as (Hin & ll & t & p & Hl).
    assert (Hdomid : id ∈ dom (objects w)) by (apply elem_of_dom; eauto).
    split.
    - rewrite Hon. apply elem_of_union_r, elem_of_difference. split; [exact Hin|].
      rewrite elem_of_list_to_set. intros Hr. apply Hroutes in Hr.
      rewrite (marker_not_route w m id Hm Hid) in Hr. discriminate.
    - exists ll, t, p. now rewrite Hkeep. }
  split.
  - rewrite Hon, Hdom. intros id Hin.
    apply elem_of_union in Hin as [Hin | Hin]; [now apply elem_of_union_l|].
    apply elem_of_difference in Hin as [Hin _]. apply elem_of_union_r, Hmap, Hin.
  - rewrite Hrl. exact Hids.
  - rewrite Hrl. intros id Hin. apply elem_of_live_routes in Hin as [Hin Hr].
    rewrite Hon in Hin. apply elem_of_union in Hin as [Hin | Hin]; [exact Hin|].
    apply elem_of_difference in Hin as [Hin Hnot]. exfalso. apply Hnot.
    apply Htracked, elem_of_live_routes. split; [exact Hin|].
    rewrite <- Hold; [exact Hr|]. apply Hmap, Hin.
  - rewrite Hom. apply Hmk, Ho.
  - rewrite Hdm. apply Hmk, Hd.
  - rewrite Hom, Hdm. exact Hdist.
Qed.

(** *** Replaying a log *)

Lemma replay_app (on : gset nat) (p q : list event) :
  replay on (p ++ q) = replay (replay on p) q.
Proof. unfold replay. apply foldl_app. Qed.

Lemma replay_removes (on : gset nat) (ids : list nat) :
  replay on (EvRemoveLayer <$> ids) = on ∖ list_to_set ids.
Proof.
  revert on. induction ids as [|id ids IH]; intros on; cbn.
  - now rewrite difference_empty_L.
  - unfold replay in IH. rewrite IH. now rewrite difference_difference_l_L.
Qed.

Lemma replay_adds (on : gset nat) (ids : list nat) :
  replay on (EvAddLayer <$> ids) = list_to_set ids ∪ on.
Proof.
  revert on. induction ids as [|id ids IH]; intros on; cbn.
  - now rewrite union_empty_l_L.
  - unfold replay in IH. rewrite IH.
    rewrite (union_comm_L {[id]} (list_to_set ids)), <- union_assoc_L. reflexivity.
Qed.

Lemma replay_other (on : gset nat) (log : list event) :
  Forall (fun e => ~ layer_event e) log -> replay on log = on.
Proof.
  revert on. induction log as [|e log IH]; intros on Hall; [reflexivity|].
  inversion Hall as [|? ? He Hrest]; subst. cbn.
  unfold replay in IH. rewrite IH by exact Hrest.
  destruct e; cbn in *; try reflexivity; exfalso; apply He; exact I.
Qed.

Lemma page_not_layer (log : list event) :
  Forall page_event log -> Forall (fun e => ~ layer_event e) log.
Proof.
  intros H. eapply Forall_impl; [exact H|].
  intros e He Hl. destruct e; cbn in *; contradiction.
Qed.

(** A layer is on the map after a log only if it was there before or the
    log adds it. *)
Lemma replay_elem (on : gset nat) (log : list event) (x : nat) :
  x ∈ replay on log -> x ∈ on \/ EvAddLayer x ∈ log.
Proof.
  revert on. induction log as [|e log IH]; intros on Hin; [now left|].
  cbn in Hin. apply IH in Hin as [Hin | Hin].
  - destruct e; cbn in Hin; try (now left).
    + apply elem_of_union in Hin as [Hin | Hin]; [|now left].
      apply elem_of_singleton in Hin as ->. right. apply list_elem_of_here.
    + apply elem_of_difference in Hin as [Hin _]. now left.
  - right. now apply list_elem_of_further.
Qed.

(** C1. Two calls of [drawMultiRoutes] in succession, from any well-formed
    page: both complete; afterwards the live route overlays are exactly the
    layers recorded by the second call, one per route of the second result
    set and in its order, and no layer of the first call is on the map. The
    log of the second call removes every layer of the first call before it
    adds any of its own, and at no point of that log are a layer of the
    first call and a layer of the second on the map together. *)
Theorem redraw_replaces_overlays (d1 d2 : RouteResultSet) (w0 : World) :
  wf_world w0 ->
  exists w1 t1 w2 t2,
    drawMultiRoutes d1 w0 = (Normal tt, w1, t1)
    /\ drawMultiRoutes d2 w1 = (Normal tt, w2, t2)
    /\ live_routes w2 = list_to_set (routeLayers w2)
    /\ NoDup (routeLayers w2)
    /\ Forall2 (overlay_of w2) (routeLayers w2) (routes d2)
    /\ (forall id, id ∈ routeLayers w1 -> id ∉ on_map w2)
    /\ (exists rest,
           t2 = (EvRemoveLayer <$> routeLayers w1)
                ++ (EvAddLayer <$> routeLayers w2) ++ rest
           /\ Forall (fun e => ~ layer_event e) rest)
    /\ (forall p q a b,
           t2 = p ++ q -> a ∈ routeLayers w1 -> b ∈ routeLayers w2 ->
           ~ (a ∈ replay (on_map w1) p /\ b ∈ replay (on_map w1) p))
    /\ replay (on_map w1) t2 = on_map w2.
Proof.
  intros Hwf0.
  pose proof (drawMultiRoutes_wf d1 w0 Hwf0) as Hwf1.
  destruct (drawMultiRoutes_run d1 w0)
    as (ids1 & w1 & rest1 & Hrun1 & _ & Hobj1 & _ & _ & _ & Hdom1 & _ & Hrl1 & _).
  rewrite Hrun1 in Hwf1. cbn [fst snd] in Hwf1.
  destruct Hwf1 as [Hmap1 Hroutes1 Htracked1 _ _ _].
  destruct (drawMultiRoutes_run d2 w1)
    as (ids2 & w2 & rest2 & Hrun2 & Hrest2 & Hobj2 & Hnd2 & Hfresh2 & Hkeep2 & Hdom2
        & Hon2 & Hrl2 & _).
  exists w1. eexists. exists w2. eexists. split; [exact Hrun1|]. split; [exact Hrun2|].
  rewrite Hrl2.
  (* a layer of the first call exists, so it is none of the second *)
  assert (Hold1 : forall a, a ∈ routeLayers w1 -> a ∈ dom (objects w1)).
  { intros a Ha. apply is_route_layer_dom, Hroutes1, Ha. }
  assert (Hdisj : forall a, a ∈ routeLayers w1 -> a ∉ ids2).
  { intros a Ha Hin. exact (Hfresh2 a Hin (Hold1 a Ha)). }
  assert (Hnew : forall b, b ∈ ids2 -> b ∉ on_map w1).
  { intros b Hb Hin. exact (Hfresh2 b Hb (Hmap1 b Hin)). }
  assert (Hgone : forall id, id ∈ routeLayers w1 -> id ∉ on_map w2).
  { intros id Hid. rewrite Hon2. intros Hin.
    apply elem_of_union in Hin as [Hin | Hin].
    - apply elem_of_list_to_set in Hin. exact (Hdisj id Hid Hin).
    - apply elem_of_difference in Hin as [_ Hnot]. apply Hnot.
      now apply elem_of_list_to_set. }
  split.
  { apply set_eq. intros id. rewrite elem_of_live_routes, elem_of_list_to_set. split.
    - intros [Hin Hr]. rewrite Hon2 in Hin.
      apply elem_of_union in Hin as [Hin | Hin]; [now apply elem_of_list_to_set in Hin|].
      apply elem_of_difference in Hin as [Hin Hnot]. exfalso. apply Hnot.
      apply Htracked1, elem_of_live_routes. split; [exact Hin|].
      unfold is_route_layer in *. rewrite <- Hkeep2; [exact Hr|]. apply Hmap1, Hin.
    - intros Hin. split.
      + rewrite Hon2. apply elem_of_union_l. now apply elem_of_list_to_set.
      + apply list_elem_of_lookup in Hin as [k Hk].
        destruct (Forall2_lookup_l _ _ _ _ _ Hobj2 Hk) as (r & _ & Hr).
        unfold is_route_layer. now rewrite Hr. }
  split; [exact Hnd2|].
  split.
  { apply Forall2_same_length_lookup. split; [eapply Forall2_length, Hobj2|].
    intros k id r Hid Hr. split.
    - rewrite Hon2. apply elem_of_union_l, elem_of_list_to_set.
      eapply list_elem_of_lookup_2, Hid.
    - exact (Forall2_lookup_lr _ _ _ _ _ _ Hobj2 Hid Hr). }
  split; [exact Hgone|].
  apply page_not_layer in Hrest2.
  split; [exists rest2; split; [reflexivity | exact Hrest2]|].
  split.
  { intros p q a b Hpq Ha Hb [Hain Hbin].
    apply replay_elem in Hbin as [Hbin | Hbin]; [exact (Hnew b Hb Hbin)|].
    (* [p] holds an addition, so it reaches past the removals *)
    symmetry in Hpq. apply app_eq_app in Hpq as [l [[Hp Hq] | [Hp Hq]]].
    - (* the removals are a prefix of [p], [p] = removals ++ [l] *)
      subst p. rewrite replay_app, replay_removes in Hain.
      apply replay_elem in Hain as [Hain | Hain].
      + apply elem_of_difference in Hain as [_ Hnot]. apply Hnot.
        now apply elem_of_list_to_set.
      + assert (Hl : EvAddLayer a ∈ (EvAddLayer <$> ids2) ++ rest2).
        { rewrite Hq. apply elem_of_app. now left. }
        apply elem_of_app in Hl as [Hl | Hl].
        * apply list_elem_of_fmap in Hl as (x & Hx & Hin). injection Hx as <-.
          exact (Hdisj a Ha Hin).
        * rewrite Forall_forall in Hrest2. apply (Hrest2 _ Hl). exact I.
    - (* [p] is a prefix of the removals: it adds nothing *)
      assert (Hin : EvAddLayer b ∈ EvRemoveLayer <$> routeLayers w1).
      { rewrite Hp. apply elem_of_app. now left. }
      apply list_elem_of_fmap in Hin as (x & Hx & _). discriminate Hx. }
  rewrite !replay_app, replay_removes, replay_adds, (replay_other _ _ Hrest2).
  now rewrite Hon2.
Qed.

(** ** Coordinate text *)

Lemma span_app (p : N -> bool) (a b : jsstring) :
  Forall (fun c => p c = true) a ->
  match b with [] => True | c :: _ => p c = false end ->
  span p (a ++ b) = (a, b).
Proof.
  intros Ha Hb. induction Ha as [|c a Hc _ IH]; simpl.
  - destruct b as [|c b]; [reflexivity|]. simpl. now rewrite Hb.
  - now rewrite Hc, IH.
Qed.

Lemma span_all (p : N -> bool) (a : jsstring) :
  Forall (fun c => p c = true) a -> span p a = (a, []).
Proof.
  intros Ha. rewrite <- (app_nil_r a) at 1. now apply span_app.
Qed.

Lemma digit_char_spec (d : Z) :
  0 <= d <= 9 ->
  isDigit (digit_char d) = true
  /\ isSign (digit_char d) = false
  /\ isSeparator (digit_char d) = false
  /\ isWhiteSpace (digit_char d) = false
  /\ isDot (digit_char d) = false
  /\ digitVal (digit_char d) = d.
Proof.
  intros H.
  assert (Hd : d = 0 \/ d = 1 \/ d = 2 \/ d = 3 \/ d = 4 \/ d = 5 \/ d = 6
               \/ d = 7 \/ d = 8 \/ d = 9) by lia.
  repeat (destruct Hd as [-> | Hd]; [repeat split; reflexivity|]).
  subst d. repeat split; reflexivity.
Qed.

Lemma digit_chars (ds : list Z) :
  Forall (fun d => 0 <= d <= 9) ds ->
  Forall (fun c => isDigit c = true) (digit_char <$> ds).
Proof.
  intros H. apply Forall_fmap. eapply Forall_impl; [exact H|].
  intros d Hd. apply (digit_char_spec d Hd).
Qed.

Lemma whitespace_bounds (c : N) :
  isWhiteSpace c = true -> (9 <= c <= 13 \/ c = 32 \/ 160 <= c)%N.
Proof.
  unfold isWhiteSpace. intros H.
  repeat (apply orb_prop in H as [H | H]);
    try (apply andb_prop in H as [H1 H2]; apply N.leb_le in H1, H2);
    try apply N.eqb_eq in H; lia.
Qed.

Lemma separator_char_spec (c : N) :
  c = 44%N \/ isWhiteSpace c = true ->
  isSeparator c = true /\ isDigit c = false /\ isSign c = false /\ isDot c = false.
Proof.
  intros [-> | H]; [repeat split; reflexivity|].
  pose proof (whitespace_bounds c H) as Hb.
  unfold isSeparator, isDigit, isSign, isDot. rewrite H.
  repeat split.
  - apply orb_true_r.
  - destruct (N.leb_spec 48 c), (N.leb_spec c 57); try reflexivity. lia.
  - destruct (N.eqb_spec c 43), (N.eqb_spec c 45); try reflexivity; lia.
  - destruct (N.eqb_spec c 46); [lia | reflexivity].
Qed.

Lemma digitsVal_acc (ds : list Z) (acc : Z) :
  Forall (fun d => 0 <= d <= 9) ds ->
  fold_left (fun a c => 10 * a + digitVal c) (digit_char <$> ds) acc
  = acc * 10 ^ Z.of_nat (length ds) + decimal ds.
Proof.
  intros H. revert acc. induction H as [|d ds Hd _ IH]; intros acc.
  - cbn. lia.
  - cbn [fmap list_fmap fold_left decimal length].
    destruct (digit_char_spec d Hd) as (_ & _ & _ & _ & _ & ->).
    rewrite IH, Nat2Z.inj_succ, Z.pow_succ_r by lia. ring.
Qed.

(** Reading a well-formed digit string gives the number it denotes. *)
Lemma digitsVal_decimal (ds : list Z) :
  Forall (fun d => 0 <= d <= 9) ds -> digitsVal (digit_char <$> ds) = decimal ds.
Proof. intros H. unfold digitsVal. rewrite digitsVal_acc by exact H. lia. Qed.

Lemma re_digits1_digits (ds : list Z) (rest : jsstring) :
  is_digits ds ->
  match rest with [] => True | c :: _ => isDigit c = false end ->
  re_digits1 ((digit_char <$> ds) ++ rest) = Some (digit_char <$> ds, rest).
Proof.
  intros [Hne Hds] Hrest. unfold re_digits1.
  rewrite span_app by (auto using digit_chars).
  destruct ds; [contradiction|reflexivity].
Qed.

Lemma re_sign_numeral (s : Sign) (ds : list Z) (rest : jsstring) :
  is_digits ds ->
  re_sign (sign_text s ++ (digit_char <$> ds) ++ rest)
  = (sign_text s, (digit_char <$> ds) ++ rest).
Proof.
  intros [Hne Hds]. destruct s; [|reflexivity..].
  destruct ds as [|d ds]; [contradiction|]. cbn.
  inversion Hds; subst.
  destruct (digit_char_spec d) as (_ & -> & _); [assumption|reflexivity].
Qed.

Lemma re_number_numeral (n : Numeral) (rest : jsstring) :
  wf_numeral n -> stops rest ->
  re_number (numeral_text n ++ rest) = Some (numeral_text n, rest).
Proof.
  destruct n as [sg ip fp]. unfold wf_numeral, numeral_text. cbn [sign int_part frac_part].
  intros [Hip Hfp] Hrest.
  unfold re_number. rewrite <- !app_assoc, (re_sign_numeral sg ip _ Hip).
  destruct fp as [f|].
  - rewrite (re_digits1_digits ip _ Hip) by reflexivity.
    cbn [app re_fraction]. change (isDot 46) with true. cbn iota.
    rewrite (re_digits1_digits f rest Hfp) by (destruct rest; [exact I | apply Hrest]).
    reflexivity.
  - cbn [app]. rewrite (re_digits1_digits ip _ Hip)
      by (destruct rest; [exact I | apply Hrest]).
    destruct rest as [|c rest]; [reflexivity|]. cbn [re_fraction].
    destruct Hrest as [_ ->]. reflexivity.
Qed.

Lemma numeral_text_head (n : Numeral) :
  wf_numeral n ->
  exists c r, numeral_text n = c :: r
              /\ isWhiteSpace c = false /\ isSeparator c = false.
Proof.
  destruct n as [sg ip fp]. unfold wf_numeral, numeral_text. cbn [sign int_part frac_part].
  intros [[Hne Hds] _]. destruct sg.
  - destruct ip as [|d ip]; [contradiction|]. inversion Hds; subst.
    eexists _, _. split; [reflexivity|].
    destruct (digit_char_spec d) as (_ & _ & ? & ? & _); auto.
  - eexists _, _. split; [reflexivity|]. split; reflexivity.
  - eexists _, _. split; [reflexivity|]. split; reflexivity.
Qed.

Lemma numeral_text_last (n : Numeral) :
  wf_numeral n ->
  exists a c, numeral_text n = a ++ [c] /\ isWhiteSpace c = false.
Proof.
  assert (Hlast : forall ds, is_digits ds ->
            exists a c, digit_char <$> ds = a ++ [c] /\ isWhiteSpace c = false).
  { intros ds [Hne Hds].
    destruct (exists_last Hne) as (a & d & ->).
    apply Forall_app in Hds as [_ Hd]. inversion Hd; subst.
    exists (digit_char <$> a), (digit_char d). rewrite fmap_app. split; [reflexivity|].
    destruct (digit_char_spec d) as (_ & _ & _ & ? & _); auto. }
  destruct n as [sg ip fp]. unfold wf_numeral, numeral_text. cbn [sign int_part frac_part].
  intros [Hip Hfp]. destruct fp as [f|].
  - destruct (Hlast f Hfp) as (a & c & -> & Hc).
    exists (sign_text sg ++ (digit_char <$> ip) ++ 46%N :: a), c.
    split; [|exact Hc]. now rewrite <- !app_assoc.
  - destruct (Hlast ip Hip) as (a & c & -> & Hc).
    exists (sign_text sg ++ a), c. split; [|exact Hc].
    now rewrite app_nil_r, <- app_assoc.
Qed.

Lemma dropWhile_head (p : N -> bool) (c : N) (r : jsstring) :
  p c = false -> dropWhile p (c :: r) = c :: r.
Proof. intros H. cbn. now rewrite H. Qed.

(** Text that neither starts nor ends in white space is its own trim. *)
Lemma trim_id (c c' : N) (r a : jsstring) :
  c :: r = a ++ [c'] ->
  isWhiteSpace c = false -> isWhiteSpace c' = false ->
  trim (c :: r) = c :: r.
Proof.
  intros Heq Hc Hc'. unfold trim. rewrite (dropWhile_head _ _ _ Hc), Heq.
  rewrite rev_unit, (dropWhile_head _ _ _ Hc'). cbn [rev].
  now rewrite rev_involutive.
Qed.

Lemma re_separator1_sep (sep rest : jsstring) :
  is_separator sep ->
  match rest with [] => True | c :: _ => isSeparator c = false end ->
  re_separator1 (sep ++ rest) = Some rest.
Proof.
  intros [Hne Hsep] Hrest. unfold re_separator1.
  rewrite span_app; [destruct sep; [contradiction|reflexivity]| |exact Hrest].
  eapply Forall_impl; [exact Hsep|]. intros c Hc. apply (separator_char_spec c Hc).
Qed.

(** The pattern matches [<lat><separator><lon>] and captures the two
    fields. *)
Lemma match_latlon_text (la lo : Numeral) (sep : jsstring) :
  wf_numeral la -> wf_numeral lo -> is_separator sep ->
  match_latlon (numeral_text la ++ sep ++ numeral_text lo)
  = Some (numeral_text la, numeral_text lo).
Proof.
  intros Hla Hlo Hsep. unfold match_latlon.
  destruct (numeral_text_head lo Hlo) as (c & r & Hhead & _ & Hc).
  rewrite re_number_numeral; [|exact Hla|].
  - rewrite re_separator1_sep; [|exact Hsep|rewrite Hhead; exact Hc].
    rewrite <- (app_nil_r (numeral_text lo)) at 1.
    rewrite re_number_numeral; [reflexivity|exact Hlo|exact I].
  - destruct Hsep as [Hne Hsep]. destruct sep as [|s sep]; [contradiction|].
    inversion Hsep; subst. cbn.
    destruct (separator_char_spec s) as (_ & ? & _ & ?); auto.
Qed.

(** [parseFloat] reads a numeral as the binary64 number nearest to the
    number it denotes. *)
Lemma parseFloat_numeral (n : Numeral) :
  wf_numeral n ->
  parseFloat (numeral_text n) = binary64 (numeral_value n).
Proof.
  intros Hwf.
  destruct (numeral_text_head n Hwf) as (c & r & Hhead & Hws & _).
  unfold parseFloat. rewrite Hhead, (dropWhile_head _ _ _ Hws), <- Hhead.
  destruct n as [sg ip fp]. destruct Hwf as [Hip Hfp].
  unfold numeral_text, numeral_value. cbn [sign int_part frac_part] in *.
  rewrite (re_sign_numeral sg ip _ Hip).
  assert (Hsg : isMinus (sign_text sg) = match sg with Minus => true | _ => false end)
    by (destruct sg; reflexivity).
  destruct Hip as [Hne Hds].
  assert (Hlen : forall f : list Z, length (digit_char <$> f) = length f)
    by (intros; apply length_fmap).
  remember (digit_char <$> ip) as I eqn:EI.
  destruct fp as [f|].
  - destruct Hfp as [Hfne Hfs].
    rewrite span_app by (subst I; auto using digit_chars). cbn iota beta.
    change (isDot 46) with true. cbn iota.
    rewrite span_all by (auto using digit_chars). cbn [fst].
    destruct I as [|x I']; [symmetry in EI; apply fmap_nil_inv in EI; contradiction|].
    cbn iota beta zeta. apply binary64_comp.
    rewrite EI, Hsg, !digitsVal_decimal, Hlen by assumption.
    unfold pow10. destruct sg; reflexivity.
  - rewrite app_nil_r, span_all by (subst I; auto using digit_chars).
    destruct I as [|x I']; [symmetry in EI; apply fmap_nil_inv in EI; contradiction|].
    cbn iota beta zeta. apply binary64_comp.
    rewrite EI, Hsg, digitsVal_decimal by assumption.
    change (digitsVal []) with 0. change (pow10 (length [])) with 1.
    destruct sg; unfold Qdiv; ring.
Qed.

(** What [tryParseLatLon] makes of a text [<lat><separator><lon>]: the two
    rounded values when both are finite and in range, null otherwise. *)
Lemma tryParseLatLon_text (la lo : Numeral) (sep : jsstring) :
  wf_numeral la -> wf_numeral lo -> is_separator sep ->
  tryParseLatLon (numeral_text la ++ sep ++ numeral_text lo)
  = match binary64 (numeral_value la), binary64 (numeral_value lo) with
    | Fin vla, Fin vlo =>
        if Qltb vla (-90) || Qltb 90 vla || Qltb vlo (-180) || Qltb 180 vlo
        then None else Some {| lat := vla; lon := vlo |}
    | _, _ => None
    end.
Proof.
  intros Hla Hlo Hsep.
  destruct (numeral_text_head la Hla) as (c & r & Hhead & Hws & _).
  destruct (numeral_text_last lo Hlo) as (a & c' & Hlast & Hws').
  unfold tryParseLatLon.
  assert (Htext : numeral_text la ++ sep ++ numeral_text lo = c :: r ++ sep ++ numeral_text lo)
    by now rewrite Hhead.
  rewrite Htext at 1. cbn [str_falsy].
  assert (Htrim : trim (numeral_text la ++ sep ++ numeral_text lo)
                  = numeral_text la ++ sep ++ numeral_text lo).
  { rewrite Htext. apply (trim_id c c' _ (c :: r ++ sep ++ a)); [|exact Hws|exact Hws'].
    rewrite Hlast. cbn. now rewrite <- !app_assoc. }
  rewrite Htrim, (match_latlon_text la lo sep Hla Hlo Hsep).
  now rewrite (parseFloat_numeral la Hla), (parseFloat_numeral lo Hlo).
Qed.

(** The range test of [tryParseLatLon] on the rounded values of a pair of
    numbers: both pass when the magnitudes are within the margins, one
    fails otherwise. *)
Lemma range_test_rounded (la lo : Q) :
  (rounds_in_range la lo ->
   exists vla vlo,
     binary64 la = Fin vla /\ binary64 lo = Fin vlo
     /\ Qltb vla (-90) || Qltb 90 vla || Qltb vlo (-180) || Qltb 180 vlo = false
     /\ in_range vla vlo
     /\ (Qabs (vla - la) <= pow2 (-47))%Q /\ (Qabs (vlo - lo) <= pow2 (-46))%Q)
  /\ (~ rounds_in_range la lo ->
      match binary64 la, binary64 lo with
      | Fin vla, Fin vlo =>
          Qltb vla (-90) || Qltb 90 vla || Qltb vlo (-180) || Qltb 180 vlo = true
      | _, _ => True
      end).
Proof.
  destruct (binary64_latitude la) as [Hla_in Hla_out].
  destruct (binary64_longitude lo) as [Hlo_in Hlo_out].
  split.
  - intros [Hla Hlo].
    destruct (Hla_in Hla) as (vla & Ela & Hbla & Hnla).
    destruct (Hlo_in Hlo) as (vlo & Elo & Hblo & Hnlo).
    exists vla, vlo. split; [exact Ela|]. split; [exact Elo|].
    split; [|split; [split; assumption | split; assumption]].
    rewrite !orb_false_iff, !Qltb_ge.
    destruct Hbla, Hblo. repeat split; assumption.
  - intros Hout.
    destruct (binary64 la) as [vla| |] eqn:Ela; [|exact I|exact I].
    destruct (binary64 lo) as [vlo| |] eqn:Elo; [|exact I|exact I].
    rewrite !orb_true_iff, !Qltb_lt.
    destruct (Qlt_le_dec lat_margin (Qabs la)) as [H | H].
    + destruct (Hla_out H vla eq_refl) as [L | L];
        [left; left; left | left; left; right]; exact L.
    + destruct (Qlt_le_dec lon_margin (Qabs lo)) as [H' | H'].
      * destruct (Hlo_out H' vlo eq_refl) as [L | L]; [left; right | right]; exact L.
      * exfalso. apply Hout. split; assumption.
Qed.

(** ** The form submission *)

(** [setMarker] creates the marker the first time and moves it afterwards;
    either way it is on the map at [ll] with [title] in its popup, and no
    other layer changes. *)
Lemma setMarker_run (ll : LatLon) (title : jsstring) (existing : option nat) (w : World) :
  marker_ok w existing ->
  exists m w',
    setMarker ll title existing w
    = (Normal m, w',
       [match existing with None => EvAddLayer m | Some _ => EvMoveMarker m ll end])
    /\ (exists t, objects w' !! m = Some (Marker ll t (Some title)))
    /\ (forall j, j <> m -> objects w' !! j = objects w !! j)
    /\ on_map w' = {[ m ]} ∪ on_map w
    /\ dom (objects w') = {[ m ]} ∪ dom (objects w)
    /\ match existing with Some x => m = x | None => m ∉ dom (objects w) end
    /\ view w' = view w
    /\ originMarker w' = originMarker w
    /\ destMarker w' = destMarker w
    /\ routeLayers w' = routeLayers w
    /\ route_choices w' = route_choices w
    /\ route_sheet w' = route_sheet w.
Proof.
  intros Hok. destruct existing as [m|].
  - destruct (Hok m eq_refl) as (Hin & l0 & t0 & p0 & Hl).
    eexists m, _. split; [reflexivity|]. cbn.
    split; [|split; [|split; [|split]]].
    + exists t0. rewrite !lookup_alter_eq, Hl. reflexivity.
    + intros j Hj. now rewrite !lookup_alter_ne by congruence.
    + apply set_eq. intros x. rewrite elem_of_union, elem_of_singleton.
      split; [now right | intros [-> | H]; assumption].
    + rewrite !dom_alter_L. apply set_eq. intros x.
      rewrite elem_of_union, elem_of_singleton.
      split; [now right | intros [-> | H]; [|assumption]].
      apply elem_of_dom. eauto.
    + repeat split; reflexivity.
  - eexists (fresh (objects w)), _. split; [reflexivity|]. cbn.
    split; [|split; [|split; [|split]]].
    + exists title. rewrite lookup_alter_eq, lookup_insert_eq. reflexivity.
    + intros j Hj. rewrite lookup_alter_ne, lookup_insert_ne by congruence. reflexivity.
    + reflexivity.
    + rewrite dom_alter_L, dom_insert_L. reflexivity.
    + split; [apply fresh_not_in|]. repeat split; reflexivity.
Qed.

Lemma get_run {A} (k : World -> M A) (w : World) :
  bind get k w = k w w.
Proof.
  unfold bind, get. destruct (k w w) as [[r w2] t2]. reflexivity.
Qed.

Lemma modify_run {A} (f : World -> World) (k : unit -> M A) (w : World) :
  bind (modify f) k w = k tt (f w).
Proof.
  unfold bind, modify. destruct (k tt (f w)) as [[r w2] t2]. reflexivity.
Qed.

Lemma fitToMarkers_both (w : World) (mo md : nat) (po pd : LatLon) to td qo qd :
  originMarker w = Some mo -> destMarker w = Some md ->
  objects w !! mo = Some (Marker po to qo) ->
  objects w !! md = Some (Marker pd td qd) ->
  fitToMarkers w
  = (Normal tt, set_view (FitBounds [po; pd] (40, 40)) w,
     [EvView (FitBounds [po; pd] (40, 40))]).
Proof.
  intros Ho Hd Hlo Hld. unfold fitToMarkers. rewrite get_run, Ho, Hd.
  unfold getLatLng. rewrite Hlo, Hld. reflexivity.
Qed.

(** Step 3 of the listener, from a well-formed page: both markers end up on
    the map at the resolved points, the viewport is fit to the two points,
    and no route overlay is touched. *)
Lemma placeMarkers_run (o d : Place) (w : World) :
  wf_world w ->
  exists mo md w',
    placeMarkers o d w
    = (Normal tt, w',
       [ match originMarker w with
         | None => EvAddLayer mo
         | Some _ => EvMoveMarker mo (place o)
         end;
         match destMarker w with
         | None => EvAddLayer md
         | Some _ => EvMoveMarker md (place d)
         end;
         EvView (FitBounds [place o; place d] (40, 40)) ])
    /\ originMarker w' = Some mo
    /\ destMarker w' = Some md
    /\ marker_at w' (Some mo) (place o) (str "Origin: " ++ display o)
    /\ marker_at w' (Some md) (place d) (str "Destination: " ++ display d)
    /\ view w' = FitBounds [place o; place d] (40, 40)
    /\ routeLayers w' = routeLayers w
    /\ live_routes w' = live_routes w
    /\ (forall id, id ∈ routeLayers w -> objects w' !! id = objects w !! id)
    /\ on_map w ⊆ on_map w'
    /\ route_choices w' = route_choices w
    /\ route_sheet w' = route_sheet w
    /\ wf_world w'.
Proof.
  intros [Hmap Hroutes Htracked Ho Hd Hdist].
  destruct (setMarker_run (place o) (str "Origin: " ++ display o) (originMarker w) w Ho)
    as (mo & w1 & Hrun1 & [t1 Hobj1] & Hkeep1 & Hon1 & Hdom1 & Hex1
        & Hv1 & Hom1 & Hdm1 & Hrl1 & Hrc1 & Hrs1).
  set (w2 := set_originMarker (Some mo) w1).
  (* the destination marker, if there is one, is not the origin marker *)
  assert (Hne : forall id, destMarker w = Some id -> id <> mo).
  { intros id Hid ->. destruct (Hd mo Hid) as (_ & l & t & p & Hl).
    destruct (originMarker w) as [x|] eqn:Hx.
    - subst x. exact (Hdist mo eq_refl Hid).
    - apply Hex1, elem_of_dom. eauto. }
  assert (Hok2 : marker_ok w2 (destMarker w2)).
  { intros id Hid. unfold w2 in *. cbn in *. rewrite Hdm1 in Hid.
    destruct (Hd id Hid) as (Hin & l & t & p & Hl). split.
    - rewrite Hon1. now apply elem_of_union_r.
    - exists l, t, p. rewrite Hkeep1 by (apply Hne, Hid). exact Hl. }
  destruct (setMarker_run (place d) (str "Destination: " ++ display d) (destMarker w2) w2 Hok2)
    as (md & w3 & Hrun2 & [t2 Hobj2] & Hkeep2 & Hon2 & Hdom2 & Hex2
        & Hv2 & Hom2 & Hdm2 & Hrl2 & Hrc2 & Hrs2).
  unfold w2 in Hkeep2, Hon2, Hdom2, Hex2, Hv2, Hom2, Hdm2, Hrl2, Hrc2, Hrs2.
  cbn in Hkeep2, Hon2, Hdom2, Hex2, Hv2, Hom2, Hdm2, Hrl2, Hrc2, Hrs2.
  assert (Hmomd : md <> mo).
  { destruct (destMarker w) as [x|] eqn:Hx; rewrite Hdm1 in Hex2.
    - subst x. now apply Hne.
    - intros ->. apply Hex2. rewrite Hdom1. now apply elem_of_union_l, elem_of_singleton. }
  set (w4 := set_destMarker (Some md) w3).
  set (w5 := set_view (FitBounds [place o; place d] (40, 40)) w4).
  assert (Hobjo : objects w3 !! mo = Some (Marker (place o) t1 (Some (str "Origin: " ++ display o)))).
  { rewrite Hkeep2 by congruence. exact Hobj1. }
  exists mo, md, w5.
  split.
  { unfold placeMarkers. rewrite get_run.
    rewrite (bind_Normal _ _ w mo w1 _ Hrun1), modify_run, get_run. fold w2.
    rewrite (bind_Normal _ _ w2 md w3 _ Hrun2), modify_run. fold w4.
    rewrite (fitToMarkers_both w4 mo md (place o) (place d) _ _ _ _
               ltac:(unfold w4; cbn; exact Hom2) eq_refl Hobjo Hobj2).
    fold w5. unfold w2. cbn. rewrite Hdm1. reflexivity. }
  assert (Hon5 : on_map w5 = {[ md ]} ∪ ({[ mo ]} ∪ on_map w)) by (cbn; now rewrite Hon2, Hon1).
  assert (Hkeep5 : forall j, j <> mo -> j <> md -> objects w5 !! j = objects w !! j).
  { intros j H1 H2. cbn. now rewrite Hkeep2, Hkeep1. }
  assert (Hroute5 : forall id, is_route_layer w5 id = true ->
                      id <> mo /\ id <> md).
  { intros id Hr. unfold is_route_layer in Hr. cbn in Hr.
    split; intros ->; [rewrite Hobjo in Hr | rewrite Hobj2 in Hr]; discriminate. }
  assert (Hroute : forall id, is_route_layer w id = true -> id <> mo /\ id <> md).
  { intros id Hr.
    assert (Hin : id ∈ dom (objects w)) by now apply is_route_layer_dom.
    split; intros ->.
    - destruct (originMarker w) as [x|] eqn:Hx.
      + subst x. rewrite (marker_not_route w _ mo Ho eq_refl) in Hr. discriminate.
      + exact (Hex1 Hin).
    - destruct (destMarker w) as [x|] eqn:Hx; rewrite Hdm1 in Hex2.
      + subst x. rewrite (marker_not_route w _ md Hd eq_refl) in Hr. discriminate.
      + apply Hex2. rewrite Hdom1. now apply elem_of_union_r. }
  assert (Hsame : forall id, is_route_layer w5 id = true <-> is_route_layer w id = true).
  { intros id. split; intros Hr.
    - destruct (Hroute5 id Hr) as [H1 H2]. unfold is_route_layer in *.
      now rewrite <- Hkeep5.
    - destruct (Hroute id Hr) as [H1 H2]. unfold is_route_layer in *.
      now rewrite Hkeep5. }
  assert (Hlive : live_routes w5 = live_routes w).
  { apply set_eq. intros id. rewrite !elem_of_live_routes, Hsame, Hon5. split.
    - intros [Hin Hr]. split; [|exact Hr]. destruct (Hroute id Hr) as [H1 H2].
      rewrite !elem_of_union, !elem_of_singleton in Hin. tauto.
    - intros [Hin Hr]. split; [|exact Hr]. rewrite !elem_of_union. tauto. }
  split; [cbn; exact Hom2|]. split; [reflexivity|].
  split.
  { exists mo, t1. split; [reflexivity|]. split; [|exact Hobjo].
    rewrite Hon5, !elem_of_union, !elem_of_singleton. tauto. }
  split.
  { exists md, t2. split; [reflexivity|]. split; [|exact Hobj2].
    rewrite Hon5, !elem_of_union, !elem_of_singleton. tauto. }
  split; [reflexivity|].
  split; [cbn; now rewrite Hrl2, Hrl1|].
  split; [exact Hlive|].
  split.
  { intros id Hid. destruct (Hroute id (Hroutes id Hid)) as [H1 H2]. now apply Hkeep5. }
  split; [rewrite Hon5; intros x Hx; rewrite !elem_of_union; tauto|].
  split; [cbn; now rewrite Hrc2, Hrc1|].
  split; [cbn; now rewrite Hrs2, Hrs1|].
  split.
  - rewrite Hon5. cbn. rewrite Hdom2, Hdom1. intros x.
    rewrite !elem_of_union. intros [H | [H | H]]; auto.
  - cbn. rewrite Hrl2, Hrl1. intros id Hid. apply Hsame, Hroutes, Hid.
  - rewrite Hlive. cbn. now rewrite Hrl2, Hrl1.
  - intros id Hid. cbn in Hid. rewrite Hom2 in Hid. injection Hid as <-. split.
    + rewrite Hon5, !elem_of_union, !elem_of_singleton. tauto.
    + eauto.
  - intros id Hid. cbn in Hid. injection Hid as <-. split.
    + rewrite Hon5, !elem_of_union, !elem_of_singleton. tauto.
    + eauto.
  - intros id Hid. cbn in Hid |- *. rewrite Hom2 in Hid. injection Hid as <-. congruence.
Qed.

(** The resolution of one end point leaves the page alone; it logs a
    geocoding request exactly when the text did not parse, and then either
    yields a place, or leaves the listener after an alert, or throws. *)
Lemma resolve_run (msg q : jsstring) (parsed : option LatLon) (w : World) :
  exists r t,
    resolve msg q parsed w = (r, w, geo_log q parsed ++ t)
    /\ ((exists pl, r = Normal pl /\ t = [] /\ resolves_to q parsed pl)
        \/ ((r = Returned \/ exists m, r = Threw m)
            /\ Forall notice_event t /\ parsed = None
            /\ forall pl, ~ resolves_to q parsed pl)).
Proof.
  unfold resolve, resolves_to. destruct parsed as [p|].
  - eexists _, []. split; [reflexivity|]. left. eauto.
  - unfold geocode, bind, emit, alert, emit, ret, throw, return_. cbn.
    destruct (geocode_reply net q) as [[|r0 rest]| |m] eqn:Hreply; cbn.
    + eexists _, _. split; [reflexivity|]. right.
      split; [now left|]. split; [repeat constructor|]. split; [reflexivity|].
      intros pl (r0 & rest & Hr & _). discriminate.
    + eexists _, []. split; [reflexivity|]. left. eauto 10.
    + eexists _, []. split; [reflexivity|]. right.
      split; [right; eauto|]. split; [constructor|]. split; [reflexivity|].
      intros pl (r0 & rest & Hr & _). discriminate.
    + eexists _, []. split; [reflexivity|]. right.
      split; [right; eauto|]. split; [constructor|]. split; [reflexivity|].
      intros pl (r0 & rest & Hr & _). discriminate.
Qed.

Lemma onError_run (message : jsstring) (w : World) :
  onError message w
  = (Normal tt, w,
     [EvConsoleError message; EvAlert (str_or message (str "Search/route failed."))]).
Proof. reflexivity. Qed.

(** A marker that is on the map stays on it, where it is, through
    [drawMultiRoutes]. *)
Lemma drawMultiRoutes_marker (data : RouteResultSet) (w : World) m ll title :
  wf_world w -> marker_at w m ll title ->
  marker_at (snd (fst (drawMultiRoutes data w))) m ll title.
Proof.
  intros [Hmap Hroutes _ _ _ _] (id & t & -> & Hin & Hl).
  destruct (drawMultiRoutes_run data w)
    as (ids & w' & rest & Hrun & _ & _ & _ & _ & Hkeep & _ & Hon & _).
  rewrite Hrun. cbn [fst snd]. exists id, t. split; [reflexivity|].
  split.
  - rewrite Hon. apply elem_of_union_r, elem_of_difference. split; [exact Hin|].
    rewrite elem_of_list_to_set. intros Hr. apply Hroutes in Hr.
    unfold is_route_layer in Hr. rewrite Hl in Hr. discriminate.
  - rewrite Hkeep; [exact Hl|]. apply elem_of_dom. eauto.
Qed.

Lemma fetchRoutesMulti_run (orig dest : LatLon) (md : jsstring) (w : World) :
  fetchRoutesMulti orig dest md w
  = (match route_reply net orig dest md with
     | Success data => Normal data
     | HttpError => Threw (str "Route computation failed")
     | Rejected m => Threw m
     end, w, [EvRouteRequest orig dest md]).
Proof.
  unfold fetchRoutesMulti, bind, emit.
  destruct (route_reply net orig dest md); reflexivity.
Qed.

Lemma show_route_sheet_run (w : World) :
  show_route_sheet w
  = match route_sheet w with
    | None => (Threw (str "Cannot read properties of null (reading 'style')"), w, [])
    | Some _ => (Normal tt, set_route_sheet (Some (str "block")) w, [])
    end.
Proof.
  unfold show_route_sheet. rewrite get_run. destruct (route_sheet w); reflexivity.
Qed.

(** Step 4 of the listener: the request is logged first; a reply that is
    no success throws at once and leaves the page as it is. *)
Lemma requestAndDraw_run (o d : Place) (md : jsstring) (w : World) :
  wf_world w ->
  exists r w' t,
    requestAndDraw o d md w = (r, w', EvRouteRequest (place o) (place d) md :: t)
    /\ Forall drawing_event t
    /\ (r = Normal tt \/ exists m, r = Threw m)
    /\ originMarker w' = originMarker w
    /\ destMarker w' = destMarker w
    /\ (forall m ll title, marker_at w m ll title -> marker_at w' m ll title)
    /\ wf_world w'
    /\ match route_reply net (place o) (place d) md with
       | Success _ => True
       | HttpError => r = Threw (str "Route computation failed") /\ w' = w /\ t = []
       | Rejected m => r = Threw m /\ w' = w /\ t = []
       end.
Proof.
  intros Hwf. unfold requestAndDraw.
  pose proof (fetchRoutesMulti_run (place o) (place d) md w) as Hfetch.
  destruct (route_reply net (place o) (place d) md) as [data| |m].
  - rewrite (bind_Normal _ _ w data w _ Hfetch).
    pose proof (drawMultiRoutes_marker data w) as Hmk.
    pose proof (drawMultiRoutes_wf data w Hwf) as Hwf1.
    destruct (drawMultiRoutes_run data w)
      as (ids & w1 & rest & Hrun & Hrest & _ & _ & _ & _ & _ & _ & _ & Hom & Hdm & Hrs).
    rewrite Hrun in Hmk, Hwf1. cbn [fst snd] in Hmk, Hwf1.
    rewrite (bind_Normal _ _ w tt w1 _ Hrun).
    assert (Hlog : Forall drawing_event
              ((EvRemoveLayer <$> routeLayers w) ++ (EvAddLayer <$> ids) ++ rest)).
    { rewrite !Forall_app. repeat split.
      - apply Forall_fmap, Forall_forall. intros; exact I.
      - apply Forall_fmap, Forall_forall. intros; exact I.
      - eapply Forall_impl; [exact Hrest|]. intros e He. destruct e; cbn in *; tauto. }
    pose proof (show_route_sheet_run w1) as Hsheet.
    destruct (route_sheet w1).
    + rewrite (bind_Normal _ _ w1 tt _ _ Hsheet). unfold emit.
      eexists _, _, _. split; [reflexivity|].
      split.
      { apply Forall_app. split; [exact Hlog|]. repeat constructor. }
      split; [now left|]. cbn. split; [exact Hom|]. split; [exact Hdm|].
      split; [|split; [destruct Hwf1; split; assumption | exact I]].
      intros m0 ll title Hm. destruct (Hmk m0 ll title Hwf Hm) as (id & t & ? & ? & ?).
      exists id, t. auto.
    + rewrite (bind_Threw _ _ w1 _ _ _ Hsheet).
      eexists _, _, _. split; [reflexivity|].
      split; [now rewrite app_nil_r|].
      split; [right; eauto|]. split; [exact Hom|]. split; [exact Hdm|].
      split; [|split; [exact Hwf1 | exact I]].
      intros m0 ll title Hm. exact (Hmk m0 ll title Hwf Hm).
  - rewrite (bind_Threw _ _ w _ w _ Hfetch).
    eexists _, _, _. split; [reflexivity|]. split; [constructor|].
    split; [right; eauto|]. split; [reflexivity|]. split; [reflexivity|].
    split; [auto|]. split; [exact Hwf|]. auto.
  - rewrite (bind_Threw _ _ w _ w _ Hfetch).
    eexists _, _, _. split; [reflexivity|]. split; [constructor|].
    split; [right; eauto|]. split; [reflexivity|]. split; [reflexivity|].
    split; [auto|]. split; [exact Hwf|]. auto.
Qed.

(** The end of the listener: a thrown error is logged and shown, a
    [return] completes the listener; either way the listener completes. *)
Lemma finish_run (body : M unit) (w : World) r w1 t :
  body w = (r, w1, t) ->
  exists post,
    listener (try_catch body onError) w = (Normal tt, w1, t ++ post)
    /\ match r with
       | Threw m => post = [EvConsoleError m;
                            EvAlert (str_or m (str "Search/route failed."))]
       | _ => post = []
       end.
Proof.
  intros H. unfold listener, try_catch. rewrite H.
  destruct r as [[]|m|].
  - exists []. now rewrite app_nil_r.
  - rewrite onError_run. eexists. split; reflexivity.
  - exists []. now rewrite app_nil_r.
Qed.

(** Every run of the listener from a well-formed page, by how far it
    gets: an input is missing; the origin does not resolve; the destination
    does not resolve; or both resolve, the markers are placed, the viewport
    is fit and the route request is issued. *)
Lemma submit_run (ov dv : jsstring) (ms : option jsstring) (w : World) :
  wf_world w ->
  let originQ := trim ov in
  let destQ := trim dv in
  let md := match ms with Some v => v | None => str "walk" end in
  let po := tryParseLatLon originQ in
  let pd := tryParseLatLon destQ in
  exists w' t,
    submit ov dv ms w = (Normal tt, w', t)
    /\ wf_world w'
    /\ (((originQ = [] \/ destQ = []) /\ w' = w
         /\ t = [EvAlert (str "Please enter both origin and destination.")])
        \/ (originQ <> [] /\ destQ <> [] /\ w' = w /\ po = None
            /\ (forall pl, ~ resolves_to originQ po pl)
            /\ exists post, t = EvGeocodeRequest originQ :: post
                            /\ Forall notice_event post)
        \/ (originQ <> [] /\ destQ <> [] /\ w' = w /\ pd = None
            /\ (exists o, resolves_to originQ po o)
            /\ (forall pl, ~ resolves_to destQ pd pl)
            /\ exists post, t = geo_log originQ po ++ EvGeocodeRequest destQ :: post
                            /\ Forall notice_event post)
        \/ (originQ <> [] /\ destQ <> []
            /\ exists o d mo mdm w1 post,
                 resolves_to originQ po o /\ resolves_to destQ pd d
                 /\ t = geo_log originQ po ++ geo_log destQ pd
                        ++ [ match originMarker w with
                             | None => EvAddLayer mo
                             | Some _ => EvMoveMarker mo (place o)
                             end;
                             match destMarker w with
                             | None => EvAddLayer mdm
                             | Some _ => EvMoveMarker mdm (place d)
                             end;
                             EvView (FitBounds [place o; place d] (40, 40));
                             EvRouteRequest (place o) (place d) md ] ++ post
                 /\ Forall (fun e => drawing_event e \/ notice_event e) post
                 /\ routeLayers w1 = routeLayers w
                 /\ live_routes w1 = live_routes w
                 /\ (forall id, id ∈ routeLayers w -> objects w1 !! id = objects w !! id)
                 /\ on_map w ⊆ on_map w1
                 /\ originMarker w' = Some mo
                 /\ destMarker w' = Some mdm
                 /\ (exists title, marker_at w' (Some mo) (place o) title)
                 /\ (exists title, marker_at w' (Some mdm) (place d) title)
                 /\ match route_reply net (place o) (place d) md with
                    | Success _ => True
                    | HttpError =>
                        w' = w1
                        /\ post = [EvConsoleError (str "Route computation failed");
                                   EvAlert (str "Route computation failed")]
                    | Rejected m =>
                        w' = w1
                        /\ post = [EvConsoleError m;
                                   EvAlert (str_or m (str "Search/route failed."))]
                    end)).
Proof.
  intros Hwf. unfold submit. cbv zeta.
  generalize (tryParseLatLon (trim ov)) as po, (tryParseLatLon (trim dv)) as pd.
  generalize (trim ov) as originQ, (trim dv) as destQ,
             (match ms with Some v => v | None => str "walk" end) as md.
  intros originQ destQ md po pd.
  destruct originQ as [|co ro].
  { exists w. eexists. split; [reflexivity|]. split; [exact Hwf|]. left. auto. }
  destruct destQ as [|cd rd].
  { exists w. eexists. split; [reflexivity|]. split; [exact Hwf|]. left. auto. }
  cbn [str_falsy orb].
  assert (Hno : co :: ro <> []) by discriminate.
  assert (Hnd : cd :: rd <> []) by discriminate.
  revert Hno Hnd.
  generalize (co :: ro) as originQ, (cd :: rd) as destQ.
  intros originQ destQ Hno Hnd.
  unfold resolveOrigin, resolveDest.
  set (body := (o <- resolve (str "Origin not found.") originQ po ;;
                d <- resolve (str "Destination not found.") destQ pd ;;
                placeMarkers o d ;; requestAndDraw o d md)).
  (* the origin *)
  destruct (resolve_run (str "Origin not found.") originQ po w)
    as (r1 & t1 & Hrun1 & [(o & -> & -> & Hres1) | (Hstop1 & Hnot1 & Hpo & Hnone1)]).
  2:{ assert (Hbody : exists r, body w = (r, w, geo_log originQ po ++ t1)
                                 /\ forall a, r <> Normal a).
      { destruct Hstop1 as [-> | [m ->]].
        - eexists. split; [apply (bind_Returned _ _ w w _ Hrun1)|discriminate].
        - eexists. split; [apply (bind_Threw _ _ w m w _ Hrun1)|discriminate]. }
      destruct Hbody as (r & Hbody & Hr).
      destruct (finish_run body w r w _ Hbody) as (post & Hfin & Hpost).
      exists w. eexists. split; [exact Hfin|]. split; [exact Hwf|]. right. left.
      repeat (split; [assumption || reflexivity|]).
      rewrite Hpo. cbn. eexists. split; [reflexivity|].
      apply Forall_app. split; [exact Hnot1|].
      destruct r; subst post; repeat constructor. }
  rewrite app_nil_r in Hrun1.
  (* the destination *)
  destruct (resolve_run (str "Destination not found.") destQ pd w)
    as (r2 & t2 & Hrun2 & [(d & -> & -> & Hres2) | (Hstop2 & Hnot2 & Hpd & Hnone2)]).
  2:{ assert (Hbody : exists r, body w = (r, w, geo_log originQ po ++ geo_log destQ pd ++ t2)
                                 /\ forall a, r <> Normal a).
      { unfold body. rewrite (bind_Normal _ _ w o w _ Hrun1).
        destruct Hstop2 as [-> | [m ->]].
        - rewrite (bind_Returned _ _ w w _ Hrun2). eexists. split; [reflexivity|discriminate].
        - rewrite (bind_Threw _ _ w m w _ Hrun2). eexists. split; [reflexivity|discriminate]. }
      destruct Hbody as (r & Hbody & Hr).
      destruct (finish_run body w r w _ Hbody) as (post & Hfin & Hpost).
      exists w. eexists. split; [exact Hfin|]. split; [exact Hwf|]. right. right. left.
      repeat (split; [assumption || reflexivity || eauto|]).
      subst pd. cbn [geo_log]. eexists. split.
      - rewrite <- !app_assoc. cbn. reflexivity.
      - apply Forall_app. split; [exact Hnot2|].
        destruct r; subst post; repeat constructor. }
  rewrite app_nil_r in Hrun2.
  (* the markers *)
  destruct (placeMarkers_run o d w Hwf)
    as (mo & mdm & w1 & Hrun3 & Hom1 & Hdm1 & Hmo1 & Hmd1 & Hv1 & Hrl1 & Hlive1
        & Hkeep1 & Hon1 & Hrc1 & Hrs1 & Hwf1).
  (* the request *)
  destruct (requestAndDraw_run o d md w1 Hwf1)
    as (r4 & w4 & t4 & Hrun4 & Hlog4 & Hr4 & Hom4 & Hdm4 & Hmk4 & Hwf4 & Hreply).
  assert (Hbody : body w
            = (r4, w4,
               geo_log originQ po ++ geo_log destQ pd
               ++ [ match originMarker w with
                    | None => EvAddLayer mo
                    | Some _ => EvMoveMarker mo (place o)
                    end;
                    match destMarker w with
                    | None => EvAddLayer mdm
                    | Some _ => EvMoveMarker mdm (place d)
                    end;
                    EvView (FitBounds [place o; place d] (40, 40));
                    EvRouteRequest (place o) (place d) md ] ++ t4)).
  { unfold body. rewrite (bind_Normal _ _ w o w _ Hrun1), (bind_Normal _ _ w d w _ Hrun2).
    rewrite (bind_Normal _ _ w tt w1 _ Hrun3), Hrun4. reflexivity. }
  destruct (finish_run body w r4 w4 _ Hbody) as (post & Hfin & Hpost).
  exists w4. eexists. split; [exact Hfin|]. split; [exact Hwf4|]. right. right. right.
  split; [exact Hno|]. split; [exact Hnd|].
  exists o, d, mo, mdm, w1, (t4 ++ post).
  split; [exact Hres1|]. split; [exact Hres2|].
  split; [now rewrite <- !app_assoc|].
  split.
  { apply Forall_app. split.
    - eapply Forall_impl; [exact Hlog4|]. now left.
    - destruct r4; subst post; repeat constructor; now right. }
  split; [exact Hrl1|]. split; [exact Hlive1|]. split; [exact Hkeep1|].
  split; [exact Hon1|].
  split; [now rewrite Hom4|]. split; [now rewrite Hdm4|].
  split; [eexists; apply Hmk4, Hmo1|]. split; [eexists; apply Hmk4, Hmd1|].
  destruct (route_reply net (place o) (place d) md) as [data| |m].
  - exact I.
  - destruct Hreply as (-> & -> & ->). subst post. auto.
  - destruct Hreply as (-> & -> & ->). subst post. auto.
Qed.

(** The listener keeps the page well formed: with [wf_initial] and
    [drawMultiRoutes_wf], every page the script reaches is well formed. *)
Lemma submit_wf (ov dv : jsstring) (ms : option jsstring) (w : World) :
  wf_world w -> wf_world (snd (fst (submit ov dv ms w))).
Proof.
  intros Hwf. destruct (submit_run ov dv ms w Hwf) as (w' & t & Hrun & Hwf' & _).
  now rewrite Hrun.
Qed.

(** ** The listener and the two services *)

Lemma lookup_only {A} (P : A -> Prop) (pre post : list A) (x y : A) (k : nat) :
  Forall (fun e => ~ P e) pre -> Forall (fun e => ~ P e) post -> P y ->
  (pre ++ x :: post) !! k = Some y ->
  k = length pre /\ y = x.
Proof.
  intros Hpre Hpost Hy Hk.
  destruct (Nat.lt_trichotomy k (length pre)) as [Hlt | [-> | Hgt]].
  - rewrite lookup_app_l in Hk by exact Hlt.
    rewrite Forall_lookup in Hpre. exfalso. exact (Hpre k y Hk Hy).
  - rewrite lookup_app_r, Nat.sub_diag in Hk by lia. cbn in Hk.
    injection Hk as ->. auto.
  - rewrite lookup_app_r in Hk by lia.
    destruct (k - length pre)%nat as [|j] eqn:Ej; [lia|]. cbn in Hk.
    rewrite Forall_lookup in Hpost. exfalso. exact (Hpost j y Hk Hy).
Qed.

Lemma geo_log_no_route (q : jsstring) (parsed : option LatLon) :
  Forall (fun e => ~ route_request e) (geo_log q parsed).
Proof. destruct parsed; repeat constructor; intros []. Qed.

Lemma notice_no_route (log : list event) :
  Forall notice_event log -> Forall (fun e => ~ route_request e) log.
Proof.
  intros H. eapply Forall_impl; [exact H|].
  intros e He Hr. destruct e; cbn in *; contradiction.
Qed.

(** C8. In a run of the submit listener from a well-formed page, a route
    request for the points [o] and [d] is preceded, in this order and with
    nothing in between, by the placing of the origin marker (created or
    moved to [o]), the placing of the destination marker (created or moved
    to [d]) and the fitting of the viewport to the two points; when the
    run ends both markers are on the map at [o] and [d]. If the routing
    service answers that request with a non-success status, the run removes
    no layer: [routeLayers] and the live route overlays are those of before
    the run, each recorded layer keeps its object, every layer that was on
    the map still is, and the failure is shown in an alert. *)
Theorem markers_before_route_request (ov dv : jsstring) (ms : option jsstring) (w : World) :
  wf_world w ->
  exists w' t,
    submit ov dv ms w = (Normal tt, w', t)
    /\ forall k o d md,
        t !! k = Some (EvRouteRequest o d md) ->
        (exists mo mdm eo ed,
            (3 <= k)%nat
            /\ t !! (k - 3)%nat = Some eo
            /\ (eo = EvAddLayer mo \/ eo = EvMoveMarker mo o)
            /\ t !! (k - 2)%nat = Some ed
            /\ (ed = EvAddLayer mdm \/ ed = EvMoveMarker mdm d)
            /\ t !! (k - 1)%nat = Some (EvView (FitBounds [o; d] (40, 40)))
            /\ originMarker w' = Some mo
            /\ destMarker w' = Some mdm
            /\ (exists title, marker_at w' (Some mo) o title)
            /\ (exists title, marker_at w' (Some mdm) d title))
        /\ (route_reply net o d md = HttpError ->
            Forall (fun e => forall id, e <> EvRemoveLayer id) t
            /\ routeLayers w' = routeLayers w
            /\ live_routes w' = live_routes w
            /\ (forall id, id ∈ routeLayers w -> objects w' !! id = objects w !! id)
            /\ on_map w ⊆ on_map w'
            /\ EvAlert (str "Route computation failed") ∈ t).
Proof.
  intros Hwf.
  destruct (submit_run ov dv ms w Hwf) as (w' & t & Hrun & _ & Hcases).
  exists w', t. split; [exact Hrun|].
  intros k o d md Hk.
  destruct Hcases as [(_ & _ & ->) | [(_ & _ & _ & _ & _ & post & -> & Hpost)
                     | [(_ & _ & _ & _ & _ & _ & post & -> & Hpost) | Hboth]]].
  - destruct k; discriminate Hk.
  - exfalso. destruct k as [|k]; [discriminate Hk|]. cbn in Hk.
    apply notice_no_route in Hpost. rewrite Forall_lookup in Hpost.
    exact (Hpost k _ Hk I).
  - exfalso.
    assert (Hall : Forall (fun e => ~ route_request e)
                     (geo_log (trim ov) (tryParseLatLon (trim ov))
                      ++ EvGeocodeRequest (trim dv) :: post)).
    { apply Forall_app. split; [apply geo_log_no_route|].
      constructor; [intros []|now apply notice_no_route]. }
    rewrite Forall_lookup in Hall. exact (Hall k _ Hk I).
  - destruct Hboth as (_ & _ & o' & d' & mo & mdm & w1 & post & _ & _ & Ht & Hpost
                       & Hrl & Hlive & Hkeep & Hon & Hom & Hdm & Hmo & Hmd & Hreply).
    set (g := geo_log (trim ov) (tryParseLatLon (trim ov))
              ++ geo_log (trim dv) (tryParseLatLon (trim dv))) in *.
    set (eo := match originMarker w with
               | None => EvAddLayer mo
               | Some _ => EvMoveMarker mo (place o')
               end) in *.
    set (ed := match destMarker w with
               | None => EvAddLayer mdm
               | Some _ => EvMoveMarker mdm (place d')
               end) in *.
    set (mode := match ms with Some v => v | None => str "walk" end) in *.
    set (v := EvView (FitBounds [place o'; place d'] (40, 40))) in *.
    assert (Ht' : t = (g ++ [eo; ed; v]) ++ EvRouteRequest (place o') (place d') mode :: post).
    { rewrite Ht. unfold g. rewrite <- !app_assoc. reflexivity. }
    assert (Hg : Forall (fun e => ~ route_request e) g).
    { apply Forall_app. split; apply geo_log_no_route. }
    assert (Heo : ~ route_request eo) by (unfold eo; destruct (originMarker w); intros []).
    assert (Hed : ~ route_request ed) by (unfold ed; destruct (destMarker w); intros []).
    assert (Hpre : Forall (fun e => ~ route_request e) (g ++ [eo; ed; v])).
    { apply Forall_app. split; [exact Hg|]. repeat constructor; auto. }
    assert (Hpost' : Forall (fun e => ~ route_request e) post).
    { eapply Forall_impl; [exact Hpost|]. intros e [He | He] Hr; destruct e; cbn in *; contradiction. }
    rewrite Ht' in Hk.
    destruct (lookup_only route_request _ _ _ (EvRouteRequest o d md) _ Hpre Hpost' I Hk)
      as [-> Heq].
    injection Heq as -> -> ->.
    rewrite length_app. cbn [length].
    replace (length g + 3 - 3)%nat with (length g + 0)%nat by lia.
    replace (length g + 3 - 2)%nat with (length g + 1)%nat by lia.
    replace (length g + 3 - 1)%nat with (length g + 2)%nat by lia.
    assert (Hlook : forall i, t !! (length g + i)%nat
                              = ([eo; ed; v; EvRouteRequest (place o') (place d') mode] ++ post) !! i).
    { intros i. rewrite Ht', <- app_assoc, lookup_app_r by lia.
      replace (length g + i - length g)%nat with i by lia. reflexivity. }
    split.
    + exists mo, mdm, eo, ed. split; [lia|].
      rewrite !Hlook. cbn.
      split; [reflexivity|]. split; [unfold eo; destruct (originMarker w); auto|].
      split; [reflexivity|]. split; [unfold ed; destruct (destMarker w); auto|].
      split; [reflexivity|]. auto.
    + intros Hfail. rewrite Hfail in Hreply. destruct Hreply as [-> ->].
      split.
      { rewrite Ht. rewrite !Forall_app. repeat split.
        - unfold g. destruct (tryParseLatLon (trim ov)); repeat constructor; discriminate.
        - unfold g. destruct (tryParseLatLon (trim dv)); repeat constructor; discriminate.
        - repeat constructor; try discriminate;
            [unfold eo; destruct (originMarker w) | unfold ed; destruct (destMarker w)];
            discriminate.
        - repeat constructor; discriminate. }
      split; [exact Hrl|]. split; [exact Hlive|]. split; [exact Hkeep|].
      split; [exact Hon|].
      rewrite Ht. rewrite !elem_of_app. right. right. right.
      apply list_elem_of_further, list_elem_of_here.
Qed.

(** The listener asks the geocoding service only about text that
    [tryParseLatLon] rejected. *)
Lemma geocode_only_unparsed (ov dv : jsstring) (ms : option jsstring) (w : World) (q : jsstring) :
  wf_world w ->
  EvGeocodeRequest q ∈ snd (submit ov dv ms w) ->
  tryParseLatLon q = None.
Proof.
  intros Hwf.
  destruct (submit_run ov dv ms w Hwf) as (w' & t & Hrun & _ & Hcases).
  rewrite Hrun. cbn [snd].
  assert (Hgeo : forall q' parsed, parsed = tryParseLatLon q' ->
            EvGeocodeRequest q ∈ geo_log q' parsed -> tryParseLatLon q = None).
  { intros q' parsed Hp Hin. destruct parsed; cbn in Hin; [inversion Hin|].
    apply list_elem_of_singleton in Hin. injection Hin as ->. now symmetry. }
  assert (Hnotice : forall post, Forall notice_event post -> EvGeocodeRequest q ∉ post).
  { intros post Hpost Hin. rewrite Forall_forall in Hpost. exact (Hpost _ Hin). }
  destruct Hcases as [(_ & _ & ->) | [(_ & _ & _ & Hpo & _ & post & -> & Hpost)
                     | [(_ & _ & _ & Hpd & _ & _ & post & -> & Hpost) | Hboth]]].
  - intros Hin. apply list_elem_of_singleton in Hin. discriminate.
  - intros Hin. apply elem_of_cons in Hin as [Hin | Hin].
    + injection Hin as ->. exact Hpo.
    + exfalso. exact (Hnotice post Hpost Hin).
  - intros Hin. apply elem_of_app in Hin as [Hin | Hin]; [now apply (Hgeo _ _ eq_refl Hin)|].
    apply elem_of_cons in Hin as [Hin | Hin].
    + injection Hin as ->. exact Hpd.
    + exfalso. exact (Hnotice post Hpost Hin).
  - destruct Hboth as (_ & _ & o & d & mo & mdm & w1 & post & _ & _ & -> & Hpost & _).
    intros Hin.
    apply elem_of_app in Hin as [Hin | Hin]; [now apply (Hgeo _ _ eq_refl Hin)|].
    apply elem_of_app in Hin as [Hin | Hin]; [now apply (Hgeo _ _ eq_refl Hin)|].
    exfalso. apply elem_of_app in Hin as [Hin | Hin].
    + repeat (apply elem_of_cons in Hin as [Hin | Hin];
              [destruct (originMarker w), (destMarker w); discriminate Hin|]).
      inversion Hin.
    + rewrite Forall_forall in Hpost. destruct (Hpost _ Hin) as [H | H]; exact H.
Qed.

(** A coordinate text is its own trim and is not empty. *)
Lemma coordinate_text_trim (la lo : Numeral) (sep : jsstring) :
  wf_numeral la -> wf_numeral lo ->
  trim (numeral_text la ++ sep ++ numeral_text lo)
  = numeral_text la ++ sep ++ numeral_text lo
  /\ numeral_text la ++ sep ++ numeral_text lo <> [].
Proof.
  intros Hla Hlo.
  destruct (numeral_text_head la Hla) as (c & r & Hhead & Hws & _).
  destruct (numeral_text_last lo Hlo) as (a & c' & Hlast & Hws').
  rewrite Hhead. cbn [app]. split; [|discriminate].
  apply (trim_id c c' _ (c :: r ++ sep ++ a)); [|exact Hws|exact Hws'].
  rewrite Hlast. cbn. now rewrite <- !app_assoc.
Qed.

(** C5. For a text [<lat><separator><lon>] whose fields are decimal
    numerals (optional sign, digits, optional fraction) and whose separator
    is a run of commas and white space, [tryParseLatLon] tests the binary64
    numbers nearest to the two numerals, not the numerals. Numerals within
    [-90, 90] and [-180, 180] are within the margins [lat_margin] and
    [lon_margin]. When the magnitudes are within the margins,
    [tryParseLatLon] returns the two nearest binary64 numbers, which lie
    within [-90, 90] and [-180, 180] and within [2^-47] and [2^-46] of the
    numerals, and no run of the listener with this text in either field
    sends it to the geocoding service. Otherwise [tryParseLatLon] returns
    null, and the listener geocodes the text: as its first action when the
    text is the origin (and a destination was entered), and once the origin
    has resolved when it is the destination. *)
Theorem tryParseLatLon_coordinate_text (la lo : Numeral) (sep : jsstring) :
  wf_numeral la -> wf_numeral lo -> is_separator sep ->
  (in_range (numeral_value la) (numeral_value lo) ->
   rounds_in_range (numeral_value la) (numeral_value lo))
  /\ (rounds_in_range (numeral_value la) (numeral_value lo) ->
      (exists p,
          tryParseLatLon (numeral_text la ++ sep ++ numeral_text lo) = Some p
          /\ binary64 (numeral_value la) = Fin (lat p)
          /\ binary64 (numeral_value lo) = Fin (lon p)
          /\ in_range (lat p) (lon p)
          /\ (Qabs (lat p - numeral_value la) <= pow2 (-47))%Q
          /\ (Qabs (lon p - numeral_value lo) <= pow2 (-46))%Q)
      /\ forall other ms w,
          wf_world w ->
          (EvGeocodeRequest (numeral_text la ++ sep ++ numeral_text lo)
             ∉ snd (submit (numeral_text la ++ sep ++ numeral_text lo) other ms w))
          /\ (EvGeocodeRequest (numeral_text la ++ sep ++ numeral_text lo)
                ∉ snd (submit other (numeral_text la ++ sep ++ numeral_text lo) ms w)))
  /\ (~ rounds_in_range (numeral_value la) (numeral_value lo) ->
      tryParseLatLon (numeral_text la ++ sep ++ numeral_text lo) = None
      /\ forall other ms w,
          wf_world w -> trim other <> [] ->
          snd (submit (numeral_text la ++ sep ++ numeral_text lo) other ms w) !! 0%nat
          = Some (EvGeocodeRequest (numeral_text la ++ sep ++ numeral_text lo))
          /\ ((exists o, resolves_to (trim other) (tryParseLatLon (trim other)) o) ->
              EvGeocodeRequest (numeral_text la ++ sep ++ numeral_text lo)
                ∈ snd (submit other (numeral_text la ++ sep ++ numeral_text lo) ms w))).
Proof.
  intros Hla Hlo Hsep.
  pose proof (tryParseLatLon_text la lo sep Hla Hlo Hsep) as Hparse.
  destruct (coordinate_text_trim la lo sep Hla Hlo) as [Htrim Hne].
  destruct (range_test_rounded (numeral_value la) (numeral_value lo)) as [Hin Hout].
  set (text := numeral_text la ++ sep ++ numeral_text lo) in *.
  split; [|split].
  - intros [[Hl1 Hl2] [Hl3 Hl4]].
    pose proof (pow2_pos (-47)). pose proof (pow2_pos (-46)).
    unfold rounds_in_range, lat_margin, lon_margin.
    split; apply Qabs_Qle_condition; lra.
  - intros Hr. destruct (Hin Hr) as (vla & vlo & Ela & Elo & Htest & Hrange & Hnla & Hnlo).
    rewrite Ela, Elo, Htest in Hparse.
    split.
    + exists {| lat := vla; lon := vlo |}. cbn [lat lon].
      split; [exact Hparse|]. split; [exact Ela|]. split; [exact Elo|].
      split; [exact Hrange|]. split; assumption.
    + intros other ms w Hwf. split; intros Hgeo;
        apply (geocode_only_unparsed _ _ _ _ _ Hwf) in Hgeo; congruence.
  - intros Hr. specialize (Hout Hr).
    assert (Hnone : tryParseLatLon text = None).
    { rewrite Hparse.
      destruct (binary64 (numeral_value la)) as [vla| |]; try reflexivity.
      destruct (binary64 (numeral_value lo)) as [vlo| |]; try reflexivity.
      now rewrite Hout. }
    split; [exact Hnone|].
    intros other ms w Hwf Hother. split.
    + destruct (submit_run text other ms w Hwf) as (w' & t & Hrun & _ & Hcases).
      rewrite Hrun. cbn [snd]. rewrite Htrim, Hnone in Hcases.
      destruct Hcases as [([H | H] & _) | [(_ & _ & _ & _ & _ & post & -> & _)
                         | [(_ & _ & _ & _ & _ & _ & post & -> & _) | Hboth]]];
        try contradiction; try reflexivity.
      destruct Hboth as (_ & _ & o & d & mo & mdm & w1 & post & _ & _ & -> & _).
      reflexivity.
    + intros Hres.
      destruct (submit_run other text ms w Hwf) as (w' & t & Hrun & _ & Hcases).
      rewrite Hrun. cbn [snd]. rewrite Htrim, Hnone in Hcases.
      destruct Hcases as [([H | H] & _) | [(_ & _ & _ & _ & Hno & _)
                         | [(_ & _ & _ & _ & _ & _ & post & -> & _) | Hboth]]];
        try contradiction.
      * destruct Hres as [o Ho]. exfalso. exact (Hno o Ho).
      * apply elem_of_app. right. apply list_elem_of_here.
      * destruct Hboth as (_ & _ & o & d & mo & mdm & w1 & post & _ & _ & -> & _).
        apply elem_of_app. right. apply elem_of_app. left. apply list_elem_of_here.
Qed.

(** * Further properties of the script *)

(** ** Coordinate parsing, from the result back to the text *)

Lemma dropWhile_split (p : N -> bool) (s : jsstring) :
  exists pre, s = pre ++ dropWhile p s.
Proof.
  induction s as [|c r [pre IH]]; [now exists []|]. cbn.
  destruct (p c); [|now exists []].
  exists (c :: pre). cbn. now f_equal.
Qed.

Lemma dropWhile_stops (p : N -> bool) (s : jsstring) (c : N) (r : jsstring) :
  dropWhile p s = c :: r -> p c = false.
Proof.
  induction s as [|x s IH]; cbn; [discriminate|].
  destruct (p x) eqn:E; [exact IH|]. intros H. injection H as -> _. exact E.
Qed.

Lemma dropWhile_all (p : N -> bool) (s : jsstring) :
  Forall (fun c => p c = true) s -> dropWhile p s = [].
Proof.
  induction 1 as [|c s Hc _ IH]; [reflexivity|]. cbn. now rewrite Hc.
Qed.

(** Trimming a trimmed text changes nothing. *)
Lemma trim_idempotent (s : jsstring) : trim (trim s) = trim s.
Proof.
  assert (Ht : trim s = rev (dropWhile isWhiteSpace (rev (dropWhile isWhiteSpace s))))
    by reflexivity.
  rewrite Ht. clear Ht.
  set (a := dropWhile isWhiteSpace s).
  destruct (dropWhile isWhiteSpace (rev a)) as [|c r] eqn:Eb; [reflexivity|].
  pose proof (dropWhile_stops _ _ _ _ Eb) as Hc.
  destruct (dropWhile_split isWhiteSpace (rev a)) as [pre Hpre].
  rewrite Eb in Hpre.
  assert (Ha : a = rev (c :: r) ++ rev pre).
  { rewrite <- rev_app_distr, <- Hpre. now rewrite rev_involutive. }
  destruct (rev (c :: r)) as [|c0 r0] eqn:Er.
  { apply (f_equal (@length N)) in Er. rewrite length_rev in Er. discriminate. }
  assert (Hc0 : isWhiteSpace c0 = false).
  { apply (dropWhile_stops isWhiteSpace s c0 (r0 ++ rev pre)). exact Ha. }
  apply (trim_id c0 c r0 (rev r)); [|exact Hc0|exact Hc].
  rewrite <- Er. reflexivity.
Qed.

(** X1. [tryParseLatLon] does its own trimming: the white space around a text
    does not change what it returns. *)
Theorem tryParseLatLon_ignores_outer_space (text : jsstring) :
  tryParseLatLon (trim text) = tryParseLatLon text.
Proof.
  unfold tryParseLatLon. rewrite trim_idempotent.
  destruct text as [|c r]; [reflexivity|]. cbn [str_falsy].
  destruct (trim (c :: r)) as [|c' r']; reflexivity.
Qed.

Lemma span_spec (p : N -> bool) (s a b : jsstring) :
  span p s = (a, b) ->
  s = a ++ b /\ Forall (fun c => p c = true) a
  /\ match b with [] => True | c :: _ => p c = false end.
Proof.
  revert a b. induction s as [|c r IH]; intros a b; cbn.
  - intros H. injection H as <- <-. repeat split. constructor.
  - destruct (p c) eqn:E.
    + destruct (span p r) as [a' b'] eqn:Es. intros H. injection H as <- <-.
      destruct (IH a' b' eq_refl) as (-> & Ha & Hb).
      repeat split; [now constructor | exact Hb].
    + intros H. injection H as <- <-. repeat split; [constructor | exact E].
Qed.

Lemma isDigit_digit_char (c : N) :
  isDigit c = true -> exists d, 0 <= d <= 9 /\ c = digit_char d.
Proof.
  unfold isDigit, digit_char. intros H.
  apply andb_true_iff in H as [H1 H2].
  apply N.leb_le in H1, H2. exists (Z.of_N c - 48). split; [lia|].
  replace (48 + (Z.of_N c - 48)) with (Z.of_N c) by lia. now rewrite N2Z.id.
Qed.

Lemma digit_chars_inv (a : jsstring) :
  Forall (fun c => isDigit c = true) a ->
  exists ds, a = digit_char <$> ds /\ Forall (fun d => 0 <= d <= 9) ds.
Proof.
  induction 1 as [|c a Hc _ (ds & -> & Hds)]; [now exists []|].
  destruct (isDigit_digit_char c Hc) as (d & Hd & ->).
  exists (d :: ds). split; [reflexivity | now constructor].
Qed.

Lemma re_digits1_inv (s d r : jsstring) :
  re_digits1 s = Some (d, r) ->
  s = d ++ r /\ exists ds, is_digits ds /\ d = digit_char <$> ds.
Proof.
  unfold re_digits1. destruct (span isDigit s) as [a b] eqn:Es.
  destruct (span_spec _ _ _ _ Es) as (-> & Ha & _).
  destruct a as [|c a]; [discriminate|]. intros H. injection H as <- <-.
  split; [reflexivity|].
  destruct (digit_chars_inv _ Ha) as (ds & Hds & Hall).
  exists ds. split; [|exact Hds]. split; [|exact Hall].
  intros ->. discriminate.
Qed.

(** What the pattern of a number matches is the text of a numeral. *)
Lemma re_number_inv (s m r : jsstring) :
  re_number s = Some (m, r) ->
  exists n, wf_numeral n /\ m = numeral_text n /\ s = m ++ r.
Proof.
  unfold re_number.
  assert (Hsign : exists sg, fst (re_sign s) = sign_text sg
                             /\ s = sign_text sg ++ snd (re_sign s)).
  { unfold re_sign. destruct s as [|c s']; [now exists NoSign|].
    destruct (isSign c) eqn:E; [|now exists NoSign].
    unfold isSign in E. apply orb_true_iff in E as [E | E]; apply N.eqb_eq in E; subst c.
    - now exists Plus.
    - now exists Minus. }
  destruct Hsign as (sg & Hsg & Hs). destruct (re_sign s) as [sgt r0].
  cbn [fst snd] in Hsg, Hs. subst sgt.
  destruct (re_digits1 r0) as [[d r1]|] eqn:Ed; [|discriminate].
  destruct (re_digits1_inv _ _ _ Ed) as (-> & ds & Hds & ->).
  assert (Hfrac : exists fp, match fp with Some f => is_digits f | None => True end
                    /\ fst (re_fraction r1)
                       = match fp with Some f => 46%N :: (digit_char <$> f) | None => [] end
                    /\ r1 = fst (re_fraction r1) ++ snd (re_fraction r1)).
  { unfold re_fraction. destruct r1 as [|c r1']; [now exists None|].
    destruct (isDot c) eqn:E; [|now exists None].
    apply N.eqb_eq in E. subst c.
    destruct (re_digits1 r1') as [[f r2]|] eqn:Ef; [|now exists None].
    destruct (re_digits1_inv _ _ _ Ef) as (-> & fs & Hfs & ->).
    exists (Some fs). split; [exact Hfs|]. split; reflexivity. }
  destruct Hfrac as (fp & Hfp & Hf & Hr1). destruct (re_fraction r1) as [f r2].
  cbn [fst snd] in Hf, Hr1. intros H. injection H as <- <-.
  exists {| sign := sg; int_part := ds; frac_part := fp |}.
  split; [split; assumption|]. unfold numeral_text. cbn [sign int_part frac_part].
  split; [now rewrite Hf|]. rewrite Hs, Hr1. now rewrite <- !app_assoc.
Qed.

Lemma re_separator1_inv (s r : jsstring) :
  re_separator1 s = Some r -> exists sep, is_separator sep /\ s = sep ++ r.
Proof.
  unfold re_separator1. destruct (span isSeparator s) as [a b] eqn:Es.
  destruct (span_spec _ _ _ _ Es) as (-> & Ha & _).
  destruct a as [|c a]; [discriminate|]. intros H. injection H as <-.
  exists (c :: a). split; [|reflexivity]. split; [discriminate|].
  eapply Forall_impl; [exact Ha|]. intros x Hx. unfold isSeparator in Hx.
  apply orb_true_iff in Hx as [Hx | Hx]; [left; now apply N.eqb_eq | now right].
Qed.

(** X2. Whatever [tryParseLatLon] accepts is a coordinate text: when it
    returns a point, the trimmed text is a numeral, a run of commas and
    white space and a second numeral; the point is the pair of binary64
    numbers nearest to the two numerals; it lies within [-90, 90] and
    [-180, 180], and the numerals are within [2^-47] and [2^-46] of it. *)
Theorem tryParseLatLon_accepts_only_coordinates (text : jsstring) (p : LatLon) :
  tryParseLatLon text = Some p ->
  exists la lo sep,
    wf_numeral la /\ wf_numeral lo /\ is_separator sep
    /\ trim text = numeral_text la ++ sep ++ numeral_text lo
    /\ binary64 (numeral_value la) = Fin (lat p)
    /\ binary64 (numeral_value lo) = Fin (lon p)
    /\ in_range (lat p) (lon p)
    /\ (Qabs (lat p - numeral_value la) <= pow2 (-47))%Q
    /\ (Qabs (lon p - numeral_value lo) <= pow2 (-46))%Q.
Proof.
  unfold tryParseLatLon. destruct (str_falsy text); [discriminate|].
  destruct (match_latlon (trim text)) as [[m1 m3]|] eqn:Em; [|discriminate].
  unfold match_latlon in Em.
  destruct (re_number (trim text)) as [[m1' r]|] eqn:E1; [|discriminate].
  destruct (re_separator1 r) as [r'|] eqn:E2; [|discriminate].
  destruct (re_number r') as [[m3' [|x rest]]|] eqn:E3; try discriminate.
  injection Em as -> ->.
  destruct (re_number_inv _ _ _ E1) as (la & Hla & -> & Htext).
  destruct (re_separator1_inv _ _ E2) as (sep & Hsep & ->).
  destruct (re_number_inv _ _ _ E3) as (lo & Hlo & -> & ->).
  rewrite app_nil_r in Htext.
  rewrite (parseFloat_numeral la Hla), (parseFloat_numeral lo Hlo).
  destruct (range_test_rounded (numeral_value la) (numeral_value lo)) as [Hin Hout].
  destruct (binary64 (numeral_value la)) as [vla| |] eqn:Ela; try discriminate.
  destruct (binary64 (numeral_value lo)) as [vlo| |] eqn:Elo; try discriminate.
  destruct (Qltb vla (-90) || Qltb 90 vla || Qltb vlo (-180) || Qltb 180 vlo) eqn:R;
    [discriminate|].
  intros H. injection H as <-. cbn [lat lon].
  assert (Hr : rounds_in_range (numeral_value la) (numeral_value lo)).
  { unfold rounds_in_range.
    destruct (Qlt_le_dec lat_margin (Qabs (numeral_value la))) as [H1 | H1];
      [|destruct (Qlt_le_dec lon_margin (Qabs (numeral_value lo))) as [H2 | H2];
        [|split; assumption]];
      exfalso; (assert (Hno : ~ rounds_in_range (numeral_value la) (numeral_value lo))
                 by (unfold rounds_in_range; intros [? ?]; lra));
      specialize (Hout Hno); congruence. }
  destruct (Hin Hr) as (vla' & vlo' & Ela' & Elo' & _ & Hrange & Hnla & Hnlo).
  injection Ela' as <-. injection Elo' as <-.
  exists la, lo, sep.
  split; [exact Hla|]. split; [exact Hlo|]. split; [exact Hsep|].
  split; [exact Htext|]. split; [exact Ela|]. split; [exact Elo|].
  split; [exact Hrange|]. split; assumption.
Qed.

(** ** The riskiest route of a set *)

Lemma fold_Qmax_le (xs : list Q) (a b : Q) :
  (a <= b)%Q -> (forall x, x ∈ xs -> (x <= b)%Q) -> (fold_left Qmax xs a <= b)%Q.
Proof.
  revert a. induction xs as [|y xs IH]; intros a Ha Hall; simpl; [exact Ha|].
  apply IH.
  - apply Q.max_lub; [exact Ha|]. apply Hall, list_elem_of_here.
  - intros x Hx. apply Hall. now apply list_elem_of_further.
Qed.

(** X3. Scores are relative to the set: the route whose mean risk is the
    largest of its set scores 0 as soon as that risk reaches [1e-9], and its
    card shows "0/100" with the badge "Caution". A set of one route is the
    plainest case. *)
Theorem riskiest_route_scores_zero (rs : list Route) (md : option jsstring)
    (i : nat) (r : Route) :
  rs !! i = Some r ->
  (1 # 1000000000 <= or0 (mean_risk (stats r)))%Q ->
  (forall r', r' ∈ rs -> (or0 (mean_risk (stats r')) <= or0 (mean_risk (stats r)))%Q) ->
  safetyScores rs !! i = Some 0
  /\ exists c,
       routeCards rs md !! i = Some c
       /\ card_safety c = str "0/100"
       /\ text (card_badge c) = str "Caution".
Proof.
  intros Hi Hfloor Hmax.
  set (x := or0 (mean_risk (stats r))) in *.
  assert (Hin : r ∈ rs) by (eapply list_elem_of_lookup_2; exact Hi).
  assert (Hm : (maxRisk rs == x)%Q).
  { apply Qle_antisym; [|apply (maxRisk_ge rs r Hin)].
    apply fold_Qmax_le; [exact Hfloor|].
    intros y Hy. apply list_elem_of_fmap in Hy as (r' & -> & Hr'). now apply Hmax. }
  assert (Hx : (0 < x)%Q) by (eapply Qlt_le_trans; [|exact Hfloor]; reflexivity).
  assert (Hscore : safetyScore (maxRisk rs) r = 0).
  { unfold safetyScore. fold x.
    assert (Hrel : (x / maxRisk rs == 1)%Q).
    { rewrite Hm. field. intros E. rewrite E in Hx. discriminate. }
    assert (Hmin : (Qmin 1 (x / maxRisk rs) == 1)%Q).
    { rewrite Hrel. apply Q.min_l. apply Qle_refl. }
    rewrite (round_half_up_eq _ 0); [reflexivity|].
    rewrite Hmin. reflexivity. }
  split.
  - rewrite safetyScores_lookup, Hi. cbn. now rewrite Hscore.
  - eexists. split; [apply (routeCards_lookup rs md i r Hi)|].
    rewrite Hscore. cbn [card_safety card_badge routeCard]. split; [|reflexivity].
    rewrite (Number_toString_nat 0) by lia. reflexivity.
Qed.

(** ** Distances in miles *)

Lemma uint_digits_isDigit (d : Decimal.uint) :
  Forall (fun c => isDigit c = true) (uint_digits d).
Proof. induction d; cbn [uint_digits]; constructor; auto. Qed.

Lemma digits_isDigit (n : Z) : Forall (fun c => isDigit c = true) (digits n).
Proof. apply uint_digits_isDigit. Qed.

Lemma digits_nonempty (n : Z) : digits n <> [].
Proof.
  unfold digits. destruct (Z.to_N n) as [|p]; [discriminate|]. cbn [N.to_uint].
  pose proof (DecimalPos.Unsigned.to_uint_nonnil p) as H.
  destruct (Pos.to_uint p); [contradiction|..]; discriminate.
Qed.

Lemma uint_digits_acc (d : Decimal.uint) (acc : positive) :
  fold_left (fun a c => 10 * a + digitVal c) (uint_digits d) (Z.pos acc)
  = Z.pos (Pos.of_uint_acc d acc).
Proof.
  revert acc. induction d; intros acc; cbn [uint_digits fold_left Pos.of_uint_acc];
    [reflexivity|..]; rewrite <- IHd; f_equal; unfold digitVal; lia.
Qed.

Lemma digitsVal_uint (d : Decimal.uint) :
  digitsVal (uint_digits d) = Z.of_N (N.of_uint d).
Proof.
  unfold digitsVal, N.of_uint.
  induction d; cbn [uint_digits fold_left Pos.of_uint]; [reflexivity|exact IHd|..];
    cbn [Z.of_N]; rewrite <- uint_digits_acc; reflexivity.
Qed.

(** The decimal digits of a natural number read back as that number. *)
Lemma digitsVal_digits (n : Z) : 0 <= n -> digitsVal (digits n) = n.
Proof.
  intros Hn. unfold digits.
  rewrite digitsVal_uint, DecimalN.Unsigned.of_to. now apply Z2N.id.
Qed.

Lemma digitsVal_zeros (k : nat) (m : jsstring) :
  digitsVal (repeat 48%N k ++ m) = digitsVal m.
Proof.
  unfold digitsVal. rewrite fold_left_app. f_equal.
  induction k as [|k IH]; [reflexivity|]. exact IH.
Qed.

(** The shape of [toFixed] with at least one fraction digit, on a value that
    is not negative: integer digits, a point and [f] more digits, which
    together read as the value scaled by [10^f] and rounded. *)
Lemma toFixed_digits_shape (f : nat) (x : Q) :
  (0 <= x)%Q ->
  exists ip fp,
    toFixed_digits (S f) x = ip ++ 46%N :: fp
    /\ ip <> [] /\ length fp = S f
    /\ Forall (fun c => isDigit c = true) (ip ++ fp)
    /\ digitsVal (ip ++ fp) = round_half_up (x * inject_Z (pow10 (S f))).
Proof.
  intros Hx. unfold toFixed_digits.
  set (n := round_half_up (x * inject_Z (pow10 (S f)))).
  assert (Hn : 0 <= n).
  { apply round_half_up_nonneg. apply Qmult_le_0_compat; [exact Hx|].
    change 0%Q with (inject_Z 0). rewrite <- Zle_Qle. unfold pow10. lia. }
  set (m := if (length (digits n) <=? S f)%nat
            then repeat 48%N (S f + 1 - length (digits n)) ++ digits n
            else digits n).
  assert (Hlen : (S f < length m)%nat).
  { unfold m. destruct (length (digits n) <=? S f)%nat eqn:E.
    - apply Nat.leb_le in E. rewrite length_app, repeat_length. lia.
    - apply Nat.leb_gt in E. exact E. }
  assert (Hdig : Forall (fun c => isDigit c = true) m).
  { unfold m. destruct (length (digits n) <=? S f)%nat; [|apply digits_isDigit].
    apply Forall_app. split; [|apply digits_isDigit].
    apply Forall_forall. intros c Hc. apply list_elem_of_In, repeat_spec in Hc. now subst c. }
  assert (Hval : digitsVal m = n).
  { unfold m. destruct (length (digits n) <=? S f)%nat;
      [rewrite digitsVal_zeros|]; now apply digitsVal_digits. }
  exists (take (length m - S f) m), (drop (length m - S f) m).
  split; [reflexivity|]. split.
  { intros E. apply (f_equal (@length N)) in E. rewrite length_take in E. cbn in E. lia. }
  split; [rewrite length_drop; lia|].
  rewrite take_drop. split; assumption.
Qed.

(** The literal [1609.344] as the script holds it. *)
Lemma mile_m_value : mile_m = Fin (1769492441091539 # 1099511627776).
Proof. vm_compute. reflexivity. Qed.

(** X4. [fmtMiles] divides by the binary64 number nearest to 1609.344 and
    rounds the quotient to binary64; for a length from 0 to 1e21 metres
    that quotient is within a relative [2^-53] of the exact one. It is
    written with one digit after the point: the digits read as tenths of a
    mile, the quotient rounded to the nearest tenth (half a tenth going
    up), so what is shown is within 0.05 miles of the quotient. *)
Theorem fmtMiles_one_decimal (meters : Q) :
  (0 <= meters)%Q -> (meters <= inject_Z (10 ^ 21))%Q ->
  exists mile miles ip d,
    mile_m = Fin mile
    /\ (Qabs (mile - (1609344 # 1000)) <= pow2 (-43))%Q
    /\ num_round (num_div (Fin meters) mile_m) = Fin miles
    /\ (Qabs (miles - meters / mile) <= meters / mile * pow2 (-53) + pow2 (-1075))%Q
    /\ fmtMiles (Fin meters) = ip ++ 46%N :: d :: str " mi"
    /\ ip <> []
    /\ Forall (fun c => isDigit c = true) (ip ++ [d])
    /\ (inject_Z (digitsVal (ip ++ [d])) / 10 - (1 # 20) <= miles)%Q
    /\ (miles < inject_Z (digitsVal (ip ++ [d])) / 10 + (1 # 20))%Q.
Proof.
  intros Hm Hbig.
  set (mile := (1769492441091539 # 1099511627776)%Q).
  assert (Hmile : (0 < mile)%Q) by reflexivity.
  set (q := (meters / mile)%Q).
  assert (Hq : (0 <= q)%Q).
  { unfold q, Qdiv. apply Qmult_le_0_compat; [exact Hm|].
    apply Qinv_le_0_compat. discriminate. }
  assert (Hq60 : (q <= pow2 60)%Q).
  { unfold q. apply Qle_shift_div_r; [exact Hmile|].
    assert (inject_Z (10 ^ 21) <= pow2 60 * mile)%Q by (vm_compute; discriminate).
    lra. }
  destruct (binary64_le_pow2 60 q ltac:(lia) (conj Hq Hq60)) as (miles & Hmiles & Hlo & Hhi).
  pose proof (binary64_near q miles Hmiles) as Hnear.
  rewrite (Qabs_pos q Hq) in Hnear.
  assert (Hdiv : num_round (num_div (Fin meters) mile_m) = Fin miles).
  { rewrite mile_m_value. exact Hmiles. }
  assert (Hrun : fmtMiles (Fin meters) = toFixed 1 (Fin miles) ++ str " mi").
  { unfold fmtMiles. now rewrite Hdiv. }
  exists mile, miles.
  assert (Habs : (Qabs miles == miles)%Q) by now apply Qabs_pos.
  assert (Hsign : Qltb miles 0 = false) by now apply Qltb_ge.
  assert (Hfix : Qle_bool (inject_Z (10 ^ 21)) (Qabs miles) = false).
  { destruct (Qle_bool (inject_Z (10 ^ 21)) (Qabs miles)) eqn:E; [|reflexivity].
    apply Qle_bool_iff in E. rewrite Habs in E.
    assert (pow2 60 < inject_Z (10 ^ 21))%Q by reflexivity. lra. }
  destruct (toFixed_digits_shape 0 (Qabs miles) (Qabs_nonneg miles))
    as (ip & fp & Hshape & Hip & Hfp & Hdig & Hval).
  destruct fp as [|d [|? ?]]; [discriminate Hfp | | discriminate Hfp].
  exists ip, d.
  split; [exact mile_m_value|].
  split; [vm_compute; discriminate|].
  split; [exact Hdiv|]. split; [exact Hnear|].
  split.
  { rewrite Hrun. unfold toFixed. rewrite Hsign, Hfix, Hshape, app_nil_l.
    now rewrite <- app_assoc. }
  split; [exact Hip|]. split; [exact Hdig|].
  rewrite Hval.
  assert (Hr : round_half_up (Qabs miles * inject_Z (pow10 1))
               = Qfloor (miles * 10 + (1 # 2))).
  { unfold round_half_up. apply Qfloor_comp. rewrite Habs. reflexivity. }
  rewrite Hr.
  pose proof (Qfloor_le (miles * 10 + (1 # 2))) as Hfl.
  pose proof (Qlt_floor (miles * 10 + (1 # 2))) as Hfh.
  rewrite inject_Z_plus in Hfh. change (inject_Z 1) with 1%Q in Hfh.
  set (n := inject_Z (Qfloor (miles * 10 + (1 # 2)))) in *.
  clearbody n. clear - Hfl Hfh.
  assert (E : (n / 10 == n * (1 # 10))%Q) by field.
  rewrite E. split; lra.
Qed.

(** The double nearest to 241.4016 is shown as 0.1 miles: the quotient
    rounds to the double just below 0.15. *)
Example fmtMiles_rounds_the_quotient :
  binary64 (2414016 # 10000) = Fin (8493563717239387 # 35184372088832)
  /\ fmtMiles (Fin (8493563717239387 # 35184372088832)) = str "0.1 mi".
Proof. split; vm_compute; reflexivity. Qed.

(** ** Clearing and drawing, at the edges *)

(** X5. [clearRoutes] takes every recorded layer off the map and forgets
    it: on a well-formed page no route overlay is left, every other layer
    stays where it is, and a second call has nothing to do. *)
Theorem clearRoutes_clears (w : World) :
  wf_world w ->
  exists w',
    clearRoutes w = (Normal tt, w', EvRemoveLayer <$> routeLayers w)
    /\ routeLayers w' = []
    /\ live_routes w' = ∅
    /\ objects w' = objects w
    /\ (forall id, id ∈ on_map w' <-> id ∈ on_map w /\ id ∉ routeLayers w)
    /\ clearRoutes w' = (Normal tt, w', []).
Proof.
  intros [_ _ Htracked _ _ _].
  set (w' := set_routeLayers [] (set_on_map (fun s => s ∖ list_to_set (routeLayers w)) w)).
  exists w'. split; [apply clearRoutes_run|].
  split; [reflexivity|]. split.
  { apply set_eq. intros id. rewrite elem_of_live_routes.
    change (on_map w') with (on_map w ∖ list_to_set (routeLayers w)).
    change (is_route_layer w' id) with (is_route_layer w id).
    rewrite elem_of_difference. split; [|intros H; inversion H].
    intros [[Hin Hnot] Hr]. exfalso. apply Hnot, Htracked.
    apply elem_of_live_routes. split; assumption. }
  split; [reflexivity|]. split.
  { intros id. change (on_map w') with (on_map w ∖ list_to_set (routeLayers w)).
    rewrite elem_of_difference, elem_of_list_to_set. reflexivity. }
  rewrite clearRoutes_run. unfold w', set_routeLayers, set_on_map. cbn.
  now rewrite difference_empty_L.
Qed.

Lemma group_points_routes (w : World) (ids : list nat) (rs : list Route) :
  Forall2 (fun id r => objects w !! id = Some (RouteLayer (geojson r) (color r))) ids rs ->
  group_points w ids = concat (geojson <$> rs).
Proof.
  unfold group_points. induction 1 as [|id r ids rs Hid _ IH]; [reflexivity|].
  cbn [fmap list_fmap concat]. rewrite Hid. f_equal. exact IH.
Qed.

(** One call of [drawMultiRoutes], with what it leaves on the page: the
    viewport and the card box. *)
Lemma drawMultiRoutes_page (data : RouteResultSet) (w : World) :
  exists ids w',
    drawMultiRoutes data w
    = (Normal tt, w',
       (EvRemoveLayer <$> routeLayers w) ++ (EvAddLayer <$> ids)
       ++ match routes data with
          | [] => []
          | _ => [EvView (FitBounds (concat (geojson <$> routes data)) (40, 40))]
          end
       ++ match route_choices w with
          | Some _ => [EvRenderCards (routeCards (routes data) (mode data))]
          | None => []
          end)
    /\ routeLayers w' = ids
    /\ Forall2 (fun id r => objects w' !! id = Some (RouteLayer (geojson r) (color r)))
               ids (routes data)
    /\ on_map w' = list_to_set ids ∪ (on_map w ∖ list_to_set (routeLayers w))
    /\ view w' = match routes data with
                 | [] => view w
                 | _ => FitBounds (concat (geojson <$> routes data)) (40, 40)
                 end
    /\ route_choices w' = match route_choices w with
                          | Some _ => Some (routeCards (routes data) (mode data))
                          | None => None
                          end.
Proof.
  set (w0 := set_routeLayers [] (set_on_map (fun s => s ∖ list_to_set (routeLayers w)) w)).
  destruct (mapM_drawRoute (routes data) w0)
    as (ids & w1 & Hrun & Hobj & _ & _ & _ & _ & Hon & Hrl & Hv & _ & _ & Hrc & _).
  pose proof (group_points_routes w1 ids (routes data) Hobj) as Hpts.
  pose proof (Forall2_length _ _ _ Hobj) as Hlen.
  unfold w0 in Hon, Hrl, Hv, Hrc. cbn in Hon, Hrl, Hv, Hrc.
  unfold drawMultiRoutes.
  rewrite (bind_Normal _ _ w tt w0 _ (clearRoutes_run w)).
  rewrite (bind_Normal _ _ w0 ids w1 _ Hrun).
  unfold renderRouteChoicesTemplate.
  destruct ids as [|i0 ids'], (routes data) as [|r0 rs'] eqn:Hrs; try discriminate.
  - rewrite (bind_Normal _ _ w1 tt w1 [] eq_refl), get_run, Hrc.
    destruct (route_choices w).
    + eexists [], _. split; [reflexivity|]. cbn. repeat split; assumption.
    + eexists [], _. split; [reflexivity|]. cbn. repeat split; assumption.
  - rewrite (bind_Normal _ _ w1 tt (set_view (FitBounds (group_points w1 (i0 :: ids')) (40, 40)) w1)
               [EvView (FitBounds (group_points w1 (i0 :: ids')) (40, 40))] eq_refl).
    rewrite get_run. cbn [route_choices set_view]. rewrite Hrc, Hpts.
    destruct (route_choices w).
    + eexists (i0 :: ids'), _. split; [reflexivity|]. cbn. repeat split; assumption.
    + eexists (i0 :: ids'), _. split; [reflexivity|]. cbn. repeat split; assumption.
Qed.

(** X6. After [drawMultiRoutes], on a page that has the card box, the box
    holds one card per route and the map one overlay per route, in the
    order of the reply: the overlay at a position has the geometry and the
    colour of the route there, the card its title, and the card's rail has
    the colour of the overlay whenever the route names a colour. When
    there is a route to draw, the viewport is fit to the points of all of
    them. *)
Theorem cards_follow_overlays (data : RouteResultSet) (w : World) (old : list Card) :
  route_choices w = Some old ->
  exists w' log cards,
    drawMultiRoutes data w = (Normal tt, w', log)
    /\ route_choices w' = Some cards
    /\ length cards = length (routes data)
    /\ length (routeLayers w') = length (routes data)
    /\ (forall i r, routes data !! i = Some r ->
          exists id c,
            routeLayers w' !! i = Some id
            /\ id ∈ on_map w'
            /\ objects w' !! id = Some (RouteLayer (geojson r) (color r))
            /\ cards !! i = Some c
            /\ card_title c = cardTitle r
            /\ (color r <> [] -> card_rail c = color r))
    /\ (routes data <> [] ->
        view w' = FitBounds (concat (geojson <$> routes data)) (40, 40)).
Proof.
  intros Hbox.
  destruct (drawMultiRoutes_page data w) as (ids & w' & Hrun & Hrl & Hobj & Hon & Hv & Hrc).
  rewrite Hbox in Hrc.
  eexists w', _, _. split; [exact Hrun|]. split; [exact Hrc|].
  split; [apply routeCards_length|].
  split; [rewrite Hrl; exact (Forall2_length _ _ _ Hobj)|].
  split.
  - intros i r Hi.
    destruct (Forall2_lookup_r _ _ _ _ _ Hobj Hi) as (id & Hid & Hlayer).
    eexists id, _. split; [now rewrite Hrl|]. split.
    { rewrite Hon. apply elem_of_union_l, elem_of_list_to_set.
      eapply list_elem_of_lookup_2. exact Hid. }
    split; [exact Hlayer|]. split; [apply (routeCards_lookup _ _ _ _ Hi)|].
    cbn [card_title card_rail routeCard]. split; [reflexivity|].
    intros Hc. unfold str_or. destruct (color r); [contradiction|reflexivity].
  - intros Hne. destruct (routes data); [contradiction|exact Hv].
Qed.

(** X7. A reply without routes: [drawMultiRoutes] removes the overlays of
    before, draws none, leaves the viewport where it is and empties the
    card box. *)
Theorem drawMultiRoutes_no_routes (data : RouteResultSet) (w : World) :
  wf_world w -> routes data = [] ->
  exists w',
    drawMultiRoutes data w
    = (Normal tt, w',
       (EvRemoveLayer <$> routeLayers w)
       ++ match route_choices w with Some _ => [EvRenderCards []] | None => [] end)
    /\ routeLayers w' = []
    /\ live_routes w' = ∅
    /\ view w' = view w
    /\ route_choices w' = match route_choices w with Some _ => Some [] | None => None end.
Proof.
  intros Hwf Hnone.
  pose proof (drawMultiRoutes_wf data w Hwf) as Hwf'.
  destruct (drawMultiRoutes_page data w) as (ids & w' & Hrun & Hrl & Hobj & Hon & Hv & Hrc).
  rewrite Hrun in Hwf'. cbn [fst snd] in Hwf'.
  rewrite Hnone in Hrun, Hobj, Hv, Hrc.
  assert (Hids : ids = []) by (now apply Forall2_nil_inv_r in Hobj).
  rewrite Hids in Hrun, Hrl.
  change (routeCards [] (mode data)) with (@nil Card) in Hrun, Hrc.
  exists w'. split; [exact Hrun|]. split; [exact Hrl|].
  split; [|split; assumption].
  apply set_eq. intros id. split; [|intros H; inversion H].
  intros Hin. apply (wf_tracked w' Hwf') in Hin. rewrite Hrl in Hin. exact Hin.
Qed.

(** X8. A page without the card box: [drawMultiRoutes] draws the overlays
    all the same and renders no card. *)
Theorem drawMultiRoutes_without_card_box (data : RouteResultSet) (w : World) :
  route_choices w = None ->
  exists w' log,
    drawMultiRoutes data w = (Normal tt, w', log)
    /\ route_choices w' = None
    /\ Forall (fun e => forall cards, e <> EvRenderCards cards) log
    /\ Forall2 (overlay_of w') (routeLayers w') (routes data).
Proof.
  intros Hbox.
  destruct (drawMultiRoutes_page data w) as (ids & w' & Hrun & Hrl & Hobj & Hon & Hv & Hrc).
  rewrite Hbox in Hrun, Hrc.
  eexists w', _. split; [exact Hrun|]. split; [exact Hrc|]. split.
  - rewrite !Forall_app. repeat split.
    + apply Forall_fmap, Forall_forall. intros; discriminate.
    + apply Forall_fmap, Forall_forall. intros; discriminate.
    + destruct (routes data); repeat constructor; intros; discriminate.
    + constructor.
  - rewrite Hrl. apply Forall2_same_length_lookup. split; [exact (Forall2_length _ _ _ Hobj)|].
    intros i id r Hid Hr. split.
    + rewrite Hon. apply elem_of_union_l, elem_of_list_to_set.
      eapply list_elem_of_lookup_2. exact Hid.
    + exact (Forall2_lookup_lr _ _ _ _ _ _ Hobj Hid Hr).
Qed.

(** ** The submit listener, case by case *)

Lemma trim_blank (s : jsstring) :
  Forall (fun c => isWhiteSpace c = true) s -> trim s = [].
Proof. intros H. unfold trim. now rewrite (dropWhile_all _ _ H). Qed.

(** X9. A field that is empty or holds white space only: the listener
    asks for both inputs and does nothing else; no request is sent and the
    page stays as it is. *)
Theorem submit_blank_input (ov dv : jsstring) (ms : option jsstring) (w : World) :
  Forall (fun c => isWhiteSpace c = true) ov
  \/ Forall (fun c => isWhiteSpace c = true) dv ->
  submit ov dv ms w
  = (Normal tt, w, [EvAlert (str "Please enter both origin and destination.")]).
Proof.
  intros H. unfold submit.
  assert (Hb : str_falsy (trim ov) || str_falsy (trim dv) = true).
  { destruct H as [H | H]; rewrite (trim_blank _ H); [reflexivity | apply orb_true_r]. }
  rewrite Hb. reflexivity.
Qed.

(** The listener past its first test. *)
Lemma submit_nonblank (ov dv : jsstring) (ms : option jsstring) (w : World) :
  trim ov <> [] -> trim dv <> [] ->
  submit ov dv ms w
  = listener
      (try_catch
         (o <- resolveOrigin (trim ov) (tryParseLatLon (trim ov)) ;;
          d <- resolveDest (trim dv) (tryParseLatLon (trim dv)) ;;
          placeMarkers o d ;;
          requestAndDraw o d (match ms with Some value => value | None => str "walk" end))
         onError) w.
Proof.
  intros Ho Hd. unfold submit.
  destruct (trim ov); [contradiction|]. destruct (trim dv); [contradiction|].
  reflexivity.
Qed.

Lemma resolve_resolved (msg q : jsstring) (parsed : option LatLon) (pl : Place) (w : World) :
  resolves_to q parsed pl -> resolve msg q parsed w = (Normal pl, w, geo_log q parsed).
Proof.
  unfold resolves_to, resolve. destruct parsed as [p|].
  - intros ->. reflexivity.
  - intros (r0 & rest & Hreply & ->). unfold geocode, bind, emit. rewrite Hreply. reflexivity.
Qed.

(** What geocoding a text that did not parse comes to when no place is
    found or the request fails. *)
Lemma resolve_unresolved (msg q : jsstring) (w : World) :
  resolve msg q None w
  = match geocode_reply net q with
    | Success [] => (Returned, w, [EvGeocodeRequest q; EvAlert msg])
    | Success (r0 :: _) =>
        (Normal {| place := {| lat := match_lat r0; lon := match_lon r0 |};
                   display := display_name r0 |}, w, [EvGeocodeRequest q])
    | HttpError => (Threw (str "Geocode failed"), w, [EvGeocodeRequest q])
    | Rejected m => (Threw m, w, [EvGeocodeRequest q])
    end.
Proof.
  unfold resolve, geocode, bind, emit, alert, emit, return_, throw, ret.
  destruct (geocode_reply net q) as [[|r0 rest]| |m]; reflexivity.
Qed.

(** X10. An origin that is no coordinate text and that the geocoder does
    not know: the listener geocodes it, reports "Origin not found." and
    stops there. The destination is not looked up, no marker is placed, no
    route is requested. *)
Theorem submit_origin_not_found (ov dv : jsstring) (ms : option jsstring) (w : World) :
  trim ov <> [] -> trim dv <> [] ->
  tryParseLatLon (trim ov) = None ->
  geocode_reply net (trim ov) = Success [] ->
  submit ov dv ms w
  = (Normal tt, w, [EvGeocodeRequest (trim ov); EvAlert (str "Origin not found.")]).
Proof.
  intros Ho Hd Hparse Hreply. rewrite (submit_nonblank ov dv ms w Ho Hd), Hparse.
  unfold listener, try_catch, resolveOrigin.
  rewrite (bind_Returned _ _ w w [EvGeocodeRequest (trim ov); EvAlert (str "Origin not found.")]);
    [reflexivity|].
  rewrite resolve_unresolved, Hreply. reflexivity.
Qed.

(** X11. A destination that is no coordinate text and that the geocoder
    does not know, after an origin that resolved: the listener reports
    "Destination not found." and stops. The origin was resolved, yet no
    marker is placed for it and the page stays as it is. *)
Theorem submit_destination_not_found (ov dv : jsstring) (ms : option jsstring) (w : World)
    (o : Place) :
  trim ov <> [] -> trim dv <> [] ->
  resolves_to (trim ov) (tryParseLatLon (trim ov)) o ->
  tryParseLatLon (trim dv) = None ->
  geocode_reply net (trim dv) = Success [] ->
  submit ov dv ms w
  = (Normal tt, w,
     geo_log (trim ov) (tryParseLatLon (trim ov))
     ++ [EvGeocodeRequest (trim dv); EvAlert (str "Destination not found.")]).
Proof.
  intros Ho Hd Hres Hparse Hreply. rewrite (submit_nonblank ov dv ms w Ho Hd), Hparse.
  unfold listener, try_catch, resolveOrigin, resolveDest.
  rewrite (bind_Normal _ _ w o w _ (resolve_resolved _ _ _ o w Hres)).
  rewrite (bind_Returned _ _ w w [EvGeocodeRequest (trim dv); EvAlert (str "Destination not found.")]);
    [reflexivity|].
  rewrite resolve_unresolved, Hreply. reflexivity.
Qed.

(** X12. A geocoding request for the origin that fails: a reply with a
    status that is no success is reported as "Geocode failed", a rejected
    request by its own message, or by "Search/route failed." when it has
    none; the error goes to the console as well, and the page stays as it
    is. *)
Theorem submit_geocoder_failure (ov dv : jsstring) (ms : option jsstring) (w : World)
    (message : jsstring) :
  trim ov <> [] -> trim dv <> [] ->
  tryParseLatLon (trim ov) = None ->
  (geocode_reply net (trim ov) = HttpError /\ message = str "Geocode failed")
  \/ geocode_reply net (trim ov) = Rejected message ->
  submit ov dv ms w
  = (Normal tt, w,
     [EvGeocodeRequest (trim ov); EvConsoleError message;
      EvAlert (if str_falsy message then str "Search/route failed." else message)]).
Proof.
  intros Ho Hd Hparse Hreply. rewrite (submit_nonblank ov dv ms w Ho Hd), Hparse.
  unfold listener, try_catch, resolveOrigin.
  rewrite (bind_Threw _ _ w message w [EvGeocodeRequest (trim ov)]).
  - rewrite onError_run. reflexivity.
  - rewrite resolve_unresolved. destruct Hreply as [[-> ->] | ->]; reflexivity.
Qed.

(** ** The submit listener, once both end points are resolved *)

(** The run from step 3 on decides the rest of the listener. *)
Lemma submit_resolved (ov dv : jsstring) (ms : option jsstring) (w : World)
    (o d : Place) (r : outcome unit) (w' : World) (t : list event) :
  trim ov <> [] -> trim dv <> [] ->
  resolves_to (trim ov) (tryParseLatLon (trim ov)) o ->
  resolves_to (trim dv) (tryParseLatLon (trim dv)) d ->
  (placeMarkers o d ;;
   requestAndDraw o d (match ms with Some value => value | None => str "walk" end)) w
  = (r, w', t) ->
  submit ov dv ms w
  = (Normal tt, w',
     geo_log (trim ov) (tryParseLatLon (trim ov))
     ++ geo_log (trim dv) (tryParseLatLon (trim dv))
     ++ t
     ++ match r with
        | Threw m => [EvConsoleError m; EvAlert (str_or m (str "Search/route failed."))]
        | _ => []
        end).
Proof.
  intros Ho Hd Hro Hrd Hrun. rewrite (submit_nonblank ov dv ms w Ho Hd).
  set (md := match ms with Some value => value | None => str "walk" end) in *.
  set (body := (o <- resolveOrigin (trim ov) (tryParseLatLon (trim ov)) ;;
                d <- resolveDest (trim dv) (tryParseLatLon (trim dv)) ;;
                placeMarkers o d ;; requestAndDraw o d md)).
  assert (Hbody : body w
            = (r, w', geo_log (trim ov) (tryParseLatLon (trim ov))
                      ++ geo_log (trim dv) (tryParseLatLon (trim dv)) ++ t)).
  { unfold body, resolveOrigin, resolveDest.
    rewrite (bind_Normal _ _ w o w _ (resolve_resolved _ _ _ o w Hro)).
    rewrite (bind_Normal _ _ w d w _ (resolve_resolved _ _ _ d w Hrd)).
    rewrite Hrun. reflexivity. }
  destruct (finish_run body w r w' _ Hbody) as (post & Hfin & Hpost).
  rewrite Hfin. rewrite <- !app_assoc.
  destruct r as [[]|m|]; subst post; reflexivity.
Qed.

(** Step 4 of the listener when the routing service answers with routes:
    they are drawn, then the sheet is shown and the update announced, or,
    on a page without the sheet, the assignment throws. *)
Lemma requestAndDraw_success (o d : Place) (md : jsstring) (w : World) (data : RouteResultSet) :
  route_reply net (place o) (place d) md = Success data ->
  exists w1 log,
    drawMultiRoutes data w = (Normal tt, w1, log)
    /\ requestAndDraw o d md w
       = match route_sheet w with
         | Some _ =>
             (Normal tt, set_route_sheet (Some (str "block")) w1,
              EvRouteRequest (place o) (place d) md
              :: log ++ [EvDispatch (str "routes:updated")])
         | None =>
             (Threw (str "Cannot read properties of null (reading 'style')"), w1,
              EvRouteRequest (place o) (place d) md :: log)
         end.
Proof.
  intros Hreply.
  destruct (drawMultiRoutes_run data w)
    as (ids & w1 & rest & Hrun & _ & _ & _ & _ & _ & _ & _ & _ & _ & _ & Hrs).
  eexists w1, _. split; [exact Hrun|].
  unfold requestAndDraw.
  pose proof (fetchRoutesMulti_run (place o) (place d) md w) as Hfetch.
  rewrite Hreply in Hfetch.
  rewrite (bind_Normal _ _ w data w _ Hfetch), (bind_Normal _ _ w tt w1 _ Hrun).
  pose proof (show_route_sheet_run w1) as Hsheet. rewrite Hrs in Hsheet.
  destruct (route_sheet w).
  - rewrite (bind_Normal _ _ w1 tt _ _ Hsheet). unfold emit. cbn -[str].
    rewrite ?app_nil_r. reflexivity.
  - rewrite (bind_Threw _ _ w1 _ _ _ Hsheet). cbn -[str].
    rewrite ?app_nil_r. reflexivity.
Qed.

Lemma live_routes_drawn (data : RouteResultSet) (w w' : World) (log : list event) :
  wf_world w ->
  drawMultiRoutes data w = (Normal tt, w', log) ->
  wf_world w'
  /\ Forall2 (overlay_of w') (routeLayers w') (routes data)
  /\ live_routes w' = list_to_set (routeLayers w').
Proof.
  intros Hwf Hrun.
  pose proof (drawMultiRoutes_wf data w Hwf) as Hwf'.
  destruct (drawMultiRoutes_page data w) as (ids & w2 & Hrun2 & Hrl & Hobj & Hon & _ & _).
  rewrite Hrun in Hwf', Hrun2. cbn [fst snd] in Hwf'. injection Hrun2 as <- _.
  assert (Hov : Forall2 (overlay_of w') (routeLayers w') (routes data)).
  { rewrite Hrl. apply Forall2_same_length_lookup. split; [exact (Forall2_length _ _ _ Hobj)|].
    intros i id r Hid Hr. split.
    - rewrite Hon. apply elem_of_union_l, elem_of_list_to_set.
      eapply list_elem_of_lookup_2. exact Hid.
    - exact (Forall2_lookup_lr _ _ _ _ _ _ Hobj Hid Hr). }
  split; [exact Hwf'|]. split; [exact Hov|].
  apply set_eq. intros id. split; [apply (wf_tracked w' Hwf')|].
  rewrite elem_of_list_to_set. intros Hin.
  apply list_elem_of_lookup in Hin as [k Hk].
  destruct (Forall2_lookup_l _ _ _ _ _ Hov Hk) as (r & _ & Hon' & Hl).
  apply elem_of_live_routes. split; [exact Hon'|].
  unfold is_route_layer. now rewrite Hl.
Qed.

(** X13. A submission that goes through, on a page that has the route
    sheet: both end points resolve and the routing service answers with
    routes. The listener completes without a message to the user; the map
    then shows exactly one overlay per route of the reply, the card box
    (when the page has one) holds their cards, both markers are on the map
    at the resolved points, the sheet is displayed, and the last thing the
    run does is to announce "routes:updated". The routing service was
    asked for the resolved points and for the mode of the selector, or for
    walk on a page without a selector. The viewport ends up fit to the
    points of the routes, or to the two markers when the reply has no
    route. *)
Theorem submit_draws_routes (ov dv : jsstring) (ms : option jsstring) (w : World)
    (o d : Place) (data : RouteResultSet) (sheet : jsstring) :
  wf_world w ->
  trim ov <> [] -> trim dv <> [] ->
  resolves_to (trim ov) (tryParseLatLon (trim ov)) o ->
  resolves_to (trim dv) (tryParseLatLon (trim dv)) d ->
  route_reply net (place o) (place d)
              (match ms with Some value => value | None => str "walk" end)
  = Success data ->
  route_sheet w = Some sheet ->
  exists w' pre,
    submit ov dv ms w = (Normal tt, w', pre ++ [EvDispatch (str "routes:updated")])
    /\ Forall (fun e => ~ notice_event e) pre
    /\ EvRouteRequest (place o) (place d)
                      (match ms with Some value => value | None => str "walk" end) ∈ pre
    /\ Forall2 (overlay_of w') (routeLayers w') (routes data)
    /\ live_routes w' = list_to_set (routeLayers w')
    /\ route_choices w' = match route_choices w with
                          | Some _ => Some (routeCards (routes data) (mode data))
                          | None => None
                          end
    /\ marker_at w' (originMarker w') (place o) (str "Origin: " ++ display o)
    /\ marker_at w' (destMarker w') (place d) (str "Destination: " ++ display d)
    /\ view w' = match routes data with
                 | [] => FitBounds [place o; place d] (40, 40)
                 | _ => FitBounds (concat (geojson <$> routes data)) (40, 40)
                 end
    /\ route_sheet w' = Some (str "block").
Proof.
  intros Hwf Ho Hd Hro Hrd Hreply Hsheet.
  set (md := match ms with Some value => value | None => str "walk" end) in *.
  destruct (placeMarkers_run o d w Hwf)
    as (mo & mdm & w1 & Hrun1 & Hom1 & Hdm1 & Hmo1 & Hmd1 & Hv1 & _ & _ & _ & _
        & Hrc1 & Hrs1 & Hwf1).
  destruct (requestAndDraw_success o d md w1 data Hreply) as (w2 & log & Hdraw & Hrun2).
  rewrite Hrs1, Hsheet in Hrun2.
  destruct (live_routes_drawn data w1 w2 log Hwf1 Hdraw) as (Hwf2 & Hov & Hlive).
  destruct (drawMultiRoutes_page data w1) as (ids & w2' & Hpage & _ & _ & _ & Hv2 & Hrc2).
  destruct (drawMultiRoutes_run data w1)
    as (ids' & w2'' & rest & Hrun' & Hrest & _ & _ & _ & _ & _ & _ & _ & Hom2 & Hdm2 & _).
  rewrite Hdraw in Hpage, Hrun'. injection Hpage as <- _. injection Hrun' as <- Hlog.
  pose proof (drawMultiRoutes_marker data w1) as Hmk.
  rewrite Hdraw in Hmk. cbn [fst snd] in Hmk.
  assert (Hsub : (placeMarkers o d ;; requestAndDraw o d md) w
                 = (Normal tt, set_route_sheet (Some (str "block")) w2,
                    [ match originMarker w with
                      | None => EvAddLayer mo
                      | Some _ => EvMoveMarker mo (place o)
                      end;
                      match destMarker w with
                      | None => EvAddLayer mdm
                      | Some _ => EvMoveMarker mdm (place d)
                      end;
                      EvView (FitBounds [place o; place d] (40, 40)) ]
                    ++ EvRouteRequest (place o) (place d) md
                       :: log ++ [EvDispatch (str "routes:updated")])).
  { rewrite (bind_Normal _ _ w tt w1 _ Hrun1), Hrun2. reflexivity. }
  rewrite (submit_resolved ov dv ms w o d _ _ _ Ho Hd Hro Hrd Hsub).
  eexists _, (geo_log (trim ov) (tryParseLatLon (trim ov))
              ++ geo_log (trim dv) (tryParseLatLon (trim dv))
              ++ [ match originMarker w with
                   | None => EvAddLayer mo
                   | Some _ => EvMoveMarker mo (place o)
                   end;
                   match destMarker w with
                   | None => EvAddLayer mdm
                   | Some _ => EvMoveMarker mdm (place d)
                   end;
                   EvView (FitBounds [place o; place d] (40, 40));
                   EvRouteRequest (place o) (place d) md ] ++ log).
  split.
  { f_equal. rewrite app_nil_r, <- !app_assoc. cbn. reflexivity. }
  split.
  { rewrite !Forall_app. repeat split.
    - destruct (tryParseLatLon (trim ov)); repeat constructor; intros [].
    - destruct (tryParseLatLon (trim dv)); repeat constructor; intros [].
    - repeat constructor; try (intros []).
      + destruct (originMarker w); intros [].
      + destruct (destMarker w); intros [].
    - rewrite Hlog, !Forall_app. repeat split.
      + apply Forall_fmap, Forall_forall. intros x _ [].
      + apply Forall_fmap, Forall_forall. intros x _ [].
      + eapply Forall_impl; [exact Hrest|]. intros e He Hn.
        destruct e; cbn in He, Hn; contradiction. }
  split.
  { rewrite !elem_of_app. right. right. left.
    do 3 apply list_elem_of_further. apply list_elem_of_here. }
  split; [exact Hov|]. split; [exact Hlive|].
  split; [cbn; now rewrite Hrc2, Hrc1|].
  split.
  { cbn [originMarker set_route_sheet]. rewrite Hom2, Hom1.
    destruct (Hmk (Some mo) _ _ Hwf1 Hmo1) as (id & t & E & Hin & Hl).
    exists id, t. auto. }
  split.
  { cbn [destMarker set_route_sheet]. rewrite Hdm2, Hdm1.
    destruct (Hmk (Some mdm) _ _ Hwf1 Hmd1) as (id & t & E & Hin & Hl).
    exists id, t. auto. }
  split; [|reflexivity].
  cbn [view set_route_sheet]. rewrite Hv2, Hv1. now destruct (routes data).
Qed.

(** X14. The same submission on a page without the route sheet: the routes
    are drawn and their cards rendered, then the assignment to the missing
    sheet throws. The listener reports that error instead of announcing the
    update, and the overlays it has drawn stay on the map. *)
Theorem submit_without_route_sheet (ov dv : jsstring) (ms : option jsstring) (w : World)
    (o d : Place) (data : RouteResultSet) :
  wf_world w ->
  trim ov <> [] -> trim dv <> [] ->
  resolves_to (trim ov) (tryParseLatLon (trim ov)) o ->
  resolves_to (trim dv) (tryParseLatLon (trim dv)) d ->
  route_reply net (place o) (place d)
              (match ms with Some value => value | None => str "walk" end)
  = Success data ->
  route_sheet w = None ->
  exists w' pre message,
    submit ov dv ms w
    = (Normal tt, w', pre ++ [EvConsoleError message; EvAlert message])
    /\ message <> []
    /\ Forall (fun e => forall type, e <> EvDispatch type) pre
    /\ Forall2 (overlay_of w') (routeLayers w') (routes data)
    /\ live_routes w' = list_to_set (routeLayers w')
    /\ route_sheet w' = None.
Proof.
  intros Hwf Ho Hd Hro Hrd Hreply Hsheet.
  set (md := match ms with Some value => value | None => str "walk" end) in *.
  destruct (placeMarkers_run o d w Hwf)
    as (mo & mdm & w1 & Hrun1 & _ & _ & _ & _ & _ & _ & _ & _ & _ & _ & Hrs1 & Hwf1).
  destruct (requestAndDraw_success o d md w1 data Hreply) as (w2 & log & Hdraw & Hrun2).
  rewrite Hrs1, Hsheet in Hrun2.
  destruct (live_routes_drawn data w1 w2 log Hwf1 Hdraw) as (Hwf2 & Hov & Hlive).
  destruct (drawMultiRoutes_run data w1)
    as (ids' & w2'' & rest & Hrun' & Hrest & _ & _ & _ & _ & _ & _ & _ & _ & _ & Hrs2).
  rewrite Hdraw in Hrun'. injection Hrun' as <- Hlog.
  pose proof (bind_Normal (placeMarkers o d)
                (fun _ => requestAndDraw o d md) w tt w1 _ Hrun1) as Hsub.
  cbv beta in Hsub. rewrite Hrun2 in Hsub.
  rewrite (submit_resolved ov dv ms w o d _ _ _ Ho Hd Hro Hrd Hsub).
  eexists _, _, _. split.
  { f_equal. rewrite !app_assoc. reflexivity. }
  split; [discriminate|].
  split.
  { rewrite !Forall_app. repeat split.
    - destruct (tryParseLatLon (trim ov)); repeat constructor; discriminate.
    - destruct (tryParseLatLon (trim dv)); repeat constructor; discriminate.
    - repeat constructor; try discriminate.
      + destruct (originMarker w); discriminate.
      + destruct (destMarker w); discriminate.
    - constructor; [discriminate|].
      rewrite Hlog, !Forall_app. repeat split.
      + apply Forall_fmap, Forall_forall. intros; discriminate.
      + apply Forall_fmap, Forall_forall. intros; discriminate.
      + eapply Forall_impl; [exact Hrest|]. intros e He ty.
        destruct e; cbn in He; try contradiction; discriminate. }
  split; [exact Hov|]. split; [exact Hlive|].
  now rewrite Hrs2, Hrs1.
Qed.

(** ** Markers across submissions *)

Lemma setMarker_object (ll : LatLon) (title : jsstring) (existing : option nat)
    (w w' : World) (m : nat) (log : list event) :
  setMarker ll title existing w = (Normal m, w', log) ->
  match existing with
  | Some x =>
      forall p t q, objects w !! x = Some (Marker p t q) ->
                    objects w' !! m = Some (Marker ll t (Some title))
  | None => objects w' !! m = Some (Marker ll title (Some title))
  end.
Proof.
  destruct existing as [x|]; cbn; intros H; injection H as <- <- _; cbn.
  - intros p t q Hl. rewrite !lookup_alter_eq, Hl. reflexivity.
  - rewrite lookup_alter_eq, lookup_insert_eq. reflexivity.
Qed.

(** Step 3 of the listener, with what it does to the map and to the two
    marker objects. *)
Lemma placeMarkers_frame (o d : Place) (w : World) :
  wf_world w ->
  exists mo md w' log,
    placeMarkers o d w = (Normal tt, w', log)
    /\ originMarker w' = Some mo /\ destMarker w' = Some md
    /\ on_map w' = {[ md ]} ∪ ({[ mo ]} ∪ on_map w)
    /\ (forall j, j <> mo -> j <> md -> objects w' !! j = objects w !! j)
    /\ routeLayers w' = routeLayers w
    /\ match originMarker w with
       | Some x =>
           mo = x
           /\ forall p t q, objects w !! x = Some (Marker p t q) ->
                objects w' !! mo
                = Some (Marker (place o) t (Some (str "Origin: " ++ display o)))
       | None => mo ∉ dom (objects w)
       end
    /\ match destMarker w with
       | Some x =>
           md = x
           /\ forall p t q, objects w !! x = Some (Marker p t q) ->
                objects w' !! md
                = Some (Marker (place d) t (Some (str "Destination: " ++ display d)))
       | None => md ∉ dom (objects w)
       end
    /\ (exists ll t p, objects w' !! mo = Some (Marker ll t p))
    /\ (exists ll t p, objects w' !! md = Some (Marker ll t p)).
Proof.
  intros [Hmap Hroutes Htracked Ho Hd Hdist].
  destruct (setMarker_run (place o) (str "Origin: " ++ display o) (originMarker w) w Ho)
    as (mo & w1 & Hrun1 & [t1 Hobj1] & Hkeep1 & Hon1 & Hdom1 & Hex1
        & Hv1 & Hom1 & Hdm1 & Hrl1 & Hrc1 & Hrs1).
  pose proof (setMarker_object _ _ _ _ _ _ _ Hrun1) as Htitle1.
  set (w2 := set_originMarker (Some mo) w1).
  assert (Hne : forall id, destMarker w = Some id -> id <> mo).
  { intros id Hid ->. destruct (Hd mo Hid) as (_ & l & t & p & Hl).
    destruct (originMarker w) as [x|] eqn:Hx.
    - subst x. exact (Hdist mo eq_refl Hid).
    - apply Hex1, elem_of_dom. eauto. }
  assert (Hok2 : marker_ok w2 (destMarker w2)).
  { intros id Hid. unfold w2 in *. cbn in *. rewrite Hdm1 in Hid.
    destruct (Hd id Hid) as (Hin & l & t & p & Hl). split.
    - rewrite Hon1. now apply elem_of_union_r.
    - exists l, t, p. rewrite Hkeep1 by (apply Hne, Hid). exact Hl. }
  destruct (setMarker_run (place d) (str "Destination: " ++ display d) (destMarker w2) w2 Hok2)
    as (md & w3 & Hrun2 & [t2 Hobj2] & Hkeep2 & Hon2 & Hdom2 & Hex2
        & Hv2 & Hom2 & Hdm2 & Hrl2 & Hrc2 & Hrs2).
  pose proof (setMarker_object _ _ _ _ _ _ _ Hrun2) as Htitle2.
  unfold w2 in Hkeep2, Hon2, Hdom2, Hex2, Hv2, Hom2, Hdm2, Hrl2, Hrc2, Hrs2, Htitle2.
  cbn in Hkeep2, Hon2, Hdom2, Hex2, Hv2, Hom2, Hdm2, Hrl2, Hrc2, Hrs2, Htitle2.
  assert (Hmomd : md <> mo).
  { destruct (destMarker w) as [x|] eqn:Hx; rewrite Hdm1 in Hex2.
    - subst x. now apply Hne.
    - intros ->. apply Hex2. rewrite Hdom1. now apply elem_of_union_l, elem_of_singleton. }
  set (w4 := set_destMarker (Some md) w3).
  set (w5 := set_view (FitBounds [place o; place d] (40, 40)) w4).
  assert (Hobjo : objects w3 !! mo = objects w1 !! mo).
  { apply Hkeep2. congruence. }
  exists mo, md, w5. eexists.
  split.
  { unfold placeMarkers. rewrite get_run.
    rewrite (bind_Normal _ _ w mo w1 _ Hrun1), modify_run, get_run. fold w2.
    rewrite (bind_Normal _ _ w2 md w3 _ Hrun2), modify_run. fold w4.
    rewrite (fitToMarkers_both w4 mo md (place o) (place d) _ _ _ _
               ltac:(unfold w4; cbn; exact Hom2) eq_refl
               ltac:(unfold w4; cbn; rewrite Hobjo; exact Hobj1) Hobj2).
    fold w5. reflexivity. }
  split; [cbn; exact Hom2|]. split; [reflexivity|].
  split; [cbn; now rewrite Hon2, Hon1|].
  split; [intros j H1 H2; cbn; now rewrite Hkeep2, Hkeep1|].
  split; [cbn; now rewrite Hrl2, Hrl1|].
  split.
  { destruct (originMarker w) as [x|]; [|exact Hex1].
    split; [exact Hex1|]. intros p t q Hl. cbn. rewrite Hobjo. exact (Htitle1 p t q Hl). }
  split.
  { rewrite Hdm1 in Hex2, Htitle2. destruct (destMarker w) as [x|] eqn:Hx.
    - split; [exact Hex2|]. intros p t q Hl. cbn. apply (Htitle2 p t q).
      rewrite Hkeep1; [exact Hl|]. subst x. now apply Hne.
    - intros Hin. apply Hex2. rewrite Hdom1. now apply elem_of_union_r. }
  split; [cbn; rewrite Hobjo; eauto | cbn; eauto].
Qed.

(** Step 4 of the listener leaves every object that exists as it is. *)
Lemma requestAndDraw_objects (o d : Place) (md : jsstring) (w : World) (id : nat) :
  id ∈ dom (objects w) ->
  objects (snd (fst (requestAndDraw o d md w))) !! id = objects w !! id.
Proof.
  intros Hin.
  destruct (route_reply net (place o) (place d) md) as [data| |m] eqn:Hreply.
  - destruct (requestAndDraw_success o d md w data Hreply) as (w1 & log & Hdraw & Hrun).
    destruct (drawMultiRoutes_run data w)
      as (ids & w1' & rest & Hrun' & _ & _ & _ & _ & Hkeep & _).
    rewrite Hdraw in Hrun'. injection Hrun' as <- _.
    rewrite Hrun. destruct (route_sheet w); cbn [fst snd]; [cbn [objects set_route_sheet]|];
      now apply Hkeep.
  - unfold requestAndDraw.
    pose proof (fetchRoutesMulti_run (place o) (place d) md w) as Hfetch.
    rewrite Hreply in Hfetch. now rewrite (bind_Threw _ _ w _ w _ Hfetch).
  - unfold requestAndDraw.
    pose proof (fetchRoutesMulti_run (place o) (place d) md w) as Hfetch.
    rewrite Hreply in Hfetch. now rewrite (bind_Threw _ _ w _ w _ Hfetch).
Qed.

(** X15. The markers are created once. When both marker variables hold a
    marker, a submission whose end points resolve moves these two markers
    and rewrites their popups, whatever the routing service answers; the
    hover title a marker was created with is never written again, so it
    keeps the text of the first submission. *)
Theorem markers_are_moved_not_recreated (ov dv : jsstring) (ms : option jsstring)
    (w : World) (o d : Place) (mo md : nat) (po pd : LatLon) (to td : jsstring)
    (qo qd : option jsstring) :
  wf_world w ->
  trim ov <> [] -> trim dv <> [] ->
  resolves_to (trim ov) (tryParseLatLon (trim ov)) o ->
  resolves_to (trim dv) (tryParseLatLon (trim dv)) d ->
  originMarker w = Some mo -> objects w !! mo = Some (Marker po to qo) ->
  destMarker w = Some md -> objects w !! md = Some (Marker pd td qd) ->
  exists w' log,
    submit ov dv ms w = (Normal tt, w', log)
    /\ originMarker w' = Some mo /\ destMarker w' = Some md
    /\ objects w' !! mo
       = Some (Marker (place o) to (Some (str "Origin: " ++ display o)))
    /\ objects w' !! md
       = Some (Marker (place d) td (Some (str "Destination: " ++ display d)))
    /\ EvMoveMarker mo (place o) ∈ log /\ EvMoveMarker md (place d) ∈ log
    /\ (EvAddLayer mo ∉ log) /\ (EvAddLayer md ∉ log).
Proof.
  intros Hwf Ho Hd Hro Hrd Hom Hlo Hdm Hld.
  set (mode := match ms with Some value => value | None => str "walk" end).
  destruct (placeMarkers_run o d w Hwf)
    as (mo' & md' & w1 & Hrun1 & Hom1 & Hdm1 & _ & _ & _ & _ & _ & _ & _ & _ & _ & Hwf1).
  destruct (placeMarkers_frame o d w Hwf)
    as (mo'' & md'' & w1' & log1 & Hrun1' & Hom1' & Hdm1' & _ & _ & _ & Horig & Hdest & _).
  rewrite Hrun1 in Hrun1'. injection Hrun1' as <- <-.
  rewrite Hom1 in Hom1'. injection Hom1' as <-. rewrite Hdm1 in Hdm1'. injection Hdm1' as <-.
  rewrite Hom in Horig, Hrun1. rewrite Hdm in Hdest, Hrun1.
  destruct Horig as [-> Hto]. destruct Hdest as [-> Htd].
  specialize (Hto _ _ _ Hlo). specialize (Htd _ _ _ Hld).
  destruct (requestAndDraw_run o d mode w1 Hwf1)
    as (r & w2 & t & Hrun2 & Hlog2 & _ & Hom2 & Hdm2 & _ & _ & _).
  pose proof (requestAndDraw_objects o d mode w1) as Hobj. rewrite Hrun2 in Hobj.
  cbn [fst snd] in Hobj.
  pose proof (bind_Normal (placeMarkers o d)
                (fun _ => requestAndDraw o d mode) w tt w1 _ Hrun1) as Hsub.
  cbv beta in Hsub. rewrite Hrun2 in Hsub.
  rewrite (submit_resolved ov dv ms w o d _ _ _ Ho Hd Hro Hrd Hsub).
  eexists _, _. split; [reflexivity|].
  split; [now rewrite Hom2|]. split; [now rewrite Hdm2|].
  split; [rewrite Hobj; [exact Hto | apply elem_of_dom; eauto]|].
  split; [rewrite Hobj; [exact Htd | apply elem_of_dom; eauto]|].
  assert (Hgeo : forall q p id, EvAddLayer id ∉ geo_log q p).
  { intros q [p|] id Hin; cbn in Hin; [inversion Hin|].
    apply list_elem_of_singleton in Hin. discriminate. }
  assert (Hfresh : forall id, id ∈ dom (objects w1) -> EvAddLayer id ∉ t).
  { intros id Hid Hin.
    destruct (route_reply net (place o) (place d) mode) as [data| |m] eqn:Hreply.
    - destruct (requestAndDraw_success o d mode w1 data Hreply) as (w3 & log & Hdraw & Hrun3).
      destruct (drawMultiRoutes_run data w1)
        as (ids & w3' & rest & Hrun' & Hrest & _ & _ & Hnew & _).
      rewrite Hdraw in Hrun'. injection Hrun' as <- Hlog.
      rewrite Hrun2 in Hrun3.
      assert (Ht : t = log \/ t = log ++ [EvDispatch (str "routes:updated")]).
      { destruct (route_sheet w1); injection Hrun3 as _ _ ->; auto. }
      assert (Hin' : EvAddLayer id ∈ log).
      { destruct Ht as [-> | ->]; [exact Hin|].
        apply elem_of_app in Hin as [Hin | Hin]; [exact Hin|].
        apply list_elem_of_singleton in Hin. discriminate. }
      rewrite Hlog in Hin'. rewrite !elem_of_app in Hin'.
      destruct Hin' as [Hin' | [Hin' | Hin']].
      + apply list_elem_of_fmap in Hin' as (x & E & _). discriminate.
      + apply list_elem_of_fmap in Hin' as (x & E & Hx). injection E as <-.
        exact (Hnew id Hx Hid).
      + rewrite Forall_forall in Hrest. apply Hrest in Hin'. exact Hin'.
    - pose proof (fetchRoutesMulti_run (place o) (place d) mode w1) as Hfetch.
      rewrite Hreply in Hfetch. unfold requestAndDraw in Hrun2.
      rewrite (bind_Threw _ _ w1 _ w1 _ Hfetch) in Hrun2. injection Hrun2 as _ _ <-.
      inversion Hin.
    - pose proof (fetchRoutesMulti_run (place o) (place d) mode w1) as Hfetch.
      rewrite Hreply in Hfetch. unfold requestAndDraw in Hrun2.
      rewrite (bind_Threw _ _ w1 _ w1 _ Hfetch) in Hrun2. injection Hrun2 as _ _ <-.
      inversion Hin. }
  assert (Hpost : forall id,
             EvAddLayer id ∉ match r with
                             | Threw m => [EvConsoleError m;
                                           EvAlert (str_or m (str "Search/route failed."))]
                             | _ => []
                             end).
  { intros id Hin. destruct r as [[]|m|]; [inversion Hin| |inversion Hin].
    repeat (apply elem_of_cons in Hin as [Hin | Hin]; [discriminate|]). inversion Hin. }
  split.
  { rewrite !elem_of_app. right. right. left. left. apply list_elem_of_here. }
  split.
  { rewrite !elem_of_app. right. right. left. left.
    apply list_elem_of_further, list_elem_of_here. }
  assert (Hno : forall id, id ∈ dom (objects w1) ->
            EvAddLayer id ∉ geo_log (trim ov) (tryParseLatLon (trim ov))
                            ++ geo_log (trim dv) (tryParseLatLon (trim dv))
                            ++ ([EvMoveMarker mo (place o); EvMoveMarker md (place d);
                                 EvView (FitBounds [place o; place d] (40, 40))]
                                ++ EvRouteRequest (place o) (place d) mode :: t)
                            ++ match r with
                               | Threw m => [EvConsoleError m;
                                             EvAlert (str_or m (str "Search/route failed."))]
                               | _ => []
                               end).
  { intros id Hid. rewrite !elem_of_app. intros [H | [H | [[H | H] | H]]].
    - exact (Hgeo _ _ _ H).
    - exact (Hgeo _ _ _ H).
    - repeat (apply elem_of_cons in H as [H | H]; [discriminate|]). inversion H.
    - apply elem_of_cons in H as [H | H]; [discriminate|]. exact (Hfresh id Hid H).
    - exact (Hpost id H). }
  split; apply Hno; apply elem_of_dom; eauto.
Qed.

(** ** What is on the map, over any number of submissions *)

Lemma placeMarkers_accounted (o d : Place) (w w1 : World) (log : list event) :
  wf_world w -> accounted w ->
  placeMarkers o d w = (Normal tt, w1, log) -> accounted w1.
Proof.
  intros Hwf Hacc Hrun.
  destruct (placeMarkers_frame o d w Hwf)
    as (mo & md & w1' & log' & Hrun' & Hom & Hdm & Hon & Hkeep & Hrl & Horig & Hdest & _).
  rewrite Hrun in Hrun'. injection Hrun' as <- _.
  intros id Hin. rewrite Hom, Hdm, Hrl.
  destruct (decide (id = mo)) as [-> | Hmo]; [auto|].
  destruct (decide (id = md)) as [-> | Hmd]; [auto|].
  rewrite Hon, !elem_of_union, !elem_of_singleton in Hin.
  destruct Hin as [Hin | [Hin | Hin]]; [contradiction | contradiction |].
  destruct (Hacc id Hin) as [Htile | [Ho | [Hd | Hr]]].
  - left. now rewrite Hkeep.
  - rewrite Ho in Horig. destruct Horig as [E _]. congruence.
  - rewrite Hd in Hdest. destruct Hdest as [E _]. congruence.
  - auto.
Qed.

Lemma drawMultiRoutes_accounted (data : RouteResultSet) (w w' : World) (log : list event) :
  wf_world w -> accounted w ->
  drawMultiRoutes data w = (Normal tt, w', log) -> accounted w'.
Proof.
  intros Hwf Hacc Hrun.
  destruct (drawMultiRoutes_run data w)
    as (ids & w2 & rest & Hrun' & _ & _ & _ & _ & Hkeep & _ & Hon & Hrl & Hom & Hdm & _).
  rewrite Hrun in Hrun'. injection Hrun' as <- _.
  intros id Hin. rewrite Hom, Hdm, Hrl.
  rewrite Hon, elem_of_union, elem_of_difference, !elem_of_list_to_set in Hin.
  destruct Hin as [Hin | [Hin Hnot]]; [auto|].
  destruct (Hacc id Hin) as [Htile | [Ho | [Hd | Hr]]]; [|auto|auto|contradiction].
  left. rewrite Hkeep; [exact Htile|]. apply (wf_on_map w Hwf), Hin.
Qed.

Lemma requestAndDraw_accounted (o d : Place) (md : jsstring) (w : World) :
  wf_world w -> accounted w -> accounted (snd (fst (requestAndDraw o d md w))).
Proof.
  intros Hwf Hacc.
  destruct (route_reply net (place o) (place d) md) as [data| |m] eqn:Hreply.
  - destruct (requestAndDraw_success o d md w data Hreply) as (w1 & log & Hdraw & Hrun).
    pose proof (drawMultiRoutes_accounted data w w1 log Hwf Hacc Hdraw) as Hacc1.
    rewrite Hrun. destruct (route_sheet w); exact Hacc1.
  - unfold requestAndDraw.
    pose proof (fetchRoutesMulti_run (place o) (place d) md w) as Hfetch.
    rewrite Hreply in Hfetch. now rewrite (bind_Threw _ _ w _ w _ Hfetch).
  - unfold requestAndDraw.
    pose proof (fetchRoutesMulti_run (place o) (place d) md w) as Hfetch.
    rewrite Hreply in Hfetch. now rewrite (bind_Threw _ _ w _ w _ Hfetch).
Qed.

Lemma submit_accounted (ov dv : jsstring) (ms : option jsstring) (w : World) :
  wf_world w -> accounted w -> accounted (snd (fst (submit ov dv ms w))).
Proof.
  intros Hwf Hacc.
  destruct (submit_run ov dv ms w Hwf) as (w' & t & Hrun & _ & Hcases).
  rewrite Hrun. cbn [fst snd].
  destruct Hcases as [(_ & -> & _) | [(_ & _ & -> & _) | [(_ & _ & -> & _) | Hgo]]];
    try exact Hacc.
  destruct Hgo as (Ho & Hd & o & d & _ & _ & _ & _ & Hro & Hrd & _).
  set (md := match ms with Some value => value | None => str "walk" end).
  destruct (placeMarkers_run o d w Hwf)
    as (mo & mdm & w1 & Hrun1 & _ & _ & _ & _ & _ & _ & _ & _ & _ & _ & _ & Hwf1).
  pose proof (placeMarkers_accounted o d w w1 _ Hwf Hacc Hrun1) as Hacc1.
  pose proof (requestAndDraw_accounted o d md w1 Hwf1 Hacc1) as Hacc2.
  destruct (requestAndDraw o d md w1) as [[r w2] t2] eqn:Hrun2. cbn [fst snd] in Hacc2.
  pose proof (bind_Normal (placeMarkers o d)
                (fun _ => requestAndDraw o d md) w tt w1 _ Hrun1) as Hsub.
  cbv beta in Hsub. rewrite Hrun2 in Hsub.
  rewrite (submit_resolved ov dv ms w o d _ _ _ Ho Hd Hro Hrd Hsub) in Hrun.
  injection Hrun as <- _. exact Hacc2.
Qed.

(** X16. Nothing piles up on the map. On the page the script starts from,
    and then after every run of the listener, whatever the inputs and the
    replies of the two services, the page is well formed and every layer on
    its map is the tile layer, the marker held by [originMarker] or by
    [destMarker], or an overlay recorded in [routeLayers]: no marker and no
    overlay of an earlier submission is left behind. *)
Theorem submissions_keep_the_map_tidy :
  (forall choices sheet,
      wf_world (initial choices sheet) /\ accounted (initial choices sheet))
  /\ (forall ov dv ms w,
        wf_world w /\ accounted w ->
        wf_world (snd (fst (submit ov dv ms w)))
        /\ accounted (snd (fst (submit ov dv ms w)))).
Proof.
  split.
  - intros choices sheet. split; [apply wf_initial|]. intros id Hin. cbn in Hin.
    apply elem_of_singleton in Hin as ->. left. reflexivity.
  - intros ov dv ms w [Hwf Hacc].
    split; [now apply submit_wf | now apply submit_accounted].
Qed.

(** ** The incident overlay *)

Lemma Qle_bool_false (a b : Q) : Qle_bool a b = false -> (b < a)%Q.
Proof. intros H. apply Qltb_lt. unfold Qltb. now rewrite H. Qed.

(** X17. The colour of a dot by the severity of the incident: amber-600
    from 100 up, amber-500 from 50, blue-400 from 10, blue-300 below, so a
    more severe incident is never drawn in the colour of a lower tier. *)
Theorem colorBySeverity_tiers (sev : Q) :
  (colorBySeverity sev = str "#d97706" <-> (100 <= sev)%Q)
  /\ (colorBySeverity sev = str "#f59e0b" <-> (50 <= sev < 100)%Q)
  /\ (colorBySeverity sev = str "#60a5fa" <-> (10 <= sev < 50)%Q)
  /\ (colorBySeverity sev = str "#93c5fd" <-> (sev < 10)%Q).
Proof.
  unfold colorBySeverity.
  destruct (Qle_bool 100 sev) eqn:E1;
    [apply Qle_bool_iff in E1 | apply Qle_bool_false in E1];
    [|destruct (Qle_bool 50 sev) eqn:E2;
        [apply Qle_bool_iff in E2 | apply Qle_bool_false in E2];
        [|destruct (Qle_bool 10 sev) eqn:E3;
            [apply Qle_bool_iff in E3 | apply Qle_bool_false in E3]]];
    repeat match goal with |- _ /\ _ => split end;
    (split; intros Hc;
     [ first [discriminate | assumption | split; assumption]
     | first [reflexivity | exfalso; lra | exfalso; destruct Hc; lra] ]).
Qed.

Section OverlayProperties.

Variable log10 : Q -> Q.

(** X18. The radius of a dot lies between 2 and 8 whatever the severity
    and whatever [Math.log10] returns: the clamp does not rely on the
    logarithm. *)
Theorem radiusBySeverity_clamped (sev : Q) :
  (2 <= radiusBySeverity log10 sev <= 8)%Q.
Proof.
  unfold radiusBySeverity. split.
  - apply Q.le_max_l.
  - apply Q.max_lub; [discriminate | apply Q.le_min_l].
Qed.

(** X19. With a logarithm that is monotone and exact at 1 and at 100: the
    radius is 2 for a severity of 0 or less, 8 from a severity of 99 on,
    [2 + 3 log10 (sev + 1)] in between, and it never shrinks as the
    severity grows. *)
Theorem radiusBySeverity_scale :
  (forall x y, (x <= y)%Q -> (log10 x <= log10 y)%Q) ->
  (log10 1 == 0)%Q -> (log10 100 == 2)%Q ->
  (forall sev, (sev <= 0)%Q -> (radiusBySeverity log10 sev == 2)%Q)
  /\ (forall sev, (99 <= sev)%Q -> (radiusBySeverity log10 sev == 8)%Q)
  /\ (forall sev, (0 <= sev <= 99)%Q ->
        (radiusBySeverity log10 sev == 2 + log10 (sev + 1) * 3)%Q)
  /\ (forall a b, (a <= b)%Q ->
        (radiusBySeverity log10 a <= radiusBySeverity log10 b)%Q).
Proof.
  intros Hmono H1 H100.
  assert (Hcomp : forall x y, (x == y)%Q -> (log10 x == log10 y)%Q).
  { intros x y E. apply Qle_antisym; apply Hmono; rewrite E; apply Qle_refl. }
  assert (Hclamp : forall r, (2 <= r <= 8)%Q -> (Qmax 2 (Qmin 8 r) == r)%Q).
  { intros r [Hlo Hhi]. rewrite (Q.min_r 8 r Hhi). now apply Q.max_r. }
  split; [|split; [|split]].
  - intros sev Hsev. unfold radiusBySeverity.
    assert (Harg : (Qmax 1 (sev + 1) == 1)%Q) by (apply Q.max_l; lra).
    pose proof (Hcomp _ _ Harg) as Hl. rewrite H1 in Hl.
    transitivity (Qmax 2 (Qmin 8 2)); [|reflexivity].
    apply Q.max_compat; [reflexivity|]. apply Q.min_compat; [reflexivity|].
    rewrite Hl. reflexivity.
  - intros sev Hsev. unfold radiusBySeverity.
    assert (Hl : (2 <= log10 (Qmax 1 (sev + 1)))%Q).
    { rewrite <- H100. apply Hmono. eapply Qle_trans; [|apply Q.le_max_r]. lra. }
    assert (Hmin : (Qmin 8 (2 + log10 (Qmax 1 (sev + 1)) * 3) == 8)%Q)
      by (apply Q.min_l; lra).
    transitivity (Qmax 2 8); [|reflexivity].
    apply Q.max_compat; [reflexivity | exact Hmin].
  - intros sev [Hlo Hhi]. unfold radiusBySeverity.
    assert (Harg : (Qmax 1 (sev + 1) == sev + 1)%Q) by (apply Q.max_r; lra).
    pose proof (Hcomp _ _ Harg) as Hl.
    assert (H0 : (0 <= log10 (sev + 1))%Q).
    { rewrite <- H1. apply Hmono. lra. }
    assert (H2 : (log10 (sev + 1) <= 2)%Q).
    { rewrite <- H100. apply Hmono. lra. }
    transitivity (Qmax 2 (Qmin 8 (2 + log10 (sev + 1) * 3))).
    + apply Q.max_compat; [reflexivity|]. apply Q.min_compat; [reflexivity|].
      rewrite Hl. reflexivity.
    + apply Hclamp. split; lra.
  - intros a b Hab. unfold radiusBySeverity.
    apply Q.max_le_compat_l, Q.min_le_compat_l.
    assert (Hl : (log10 (Qmax 1 (a + 1)) <= log10 (Qmax 1 (b + 1)))%Q).
    { apply Hmono, Q.max_le_compat_l. lra. }
    lra.
Qed.

Lemma fresh_group_not_in (gs : gmap nat (list (list CircleMarker))) :
  fresh_group gs ∉ dom gs.
Proof.
  intros Hin.
  assert (Hlt : (fresh_group gs < fresh_group gs)%nat); [|lia].
  unfold fresh_group at 2, set_fold. simpl.
  apply Nat.lt_succ_r, foldr_max_ge. now apply elem_of_elements.
Qed.

(** X20. Showing the incidents again does not stack them: after a
    successful [showCrimeDots] one layer group is on the map, [crimeLayer]
    holds it, and it contains the dots of this reply and nothing of an
    earlier one (nothing at all when the reply has no feature). The group
    of before is used again when there is one; otherwise a new one is
    made. *)
Theorem showCrimeDots_replaces_dots (data : list Feature) (s : CrimeMap) :
  crime_ok s ->
  exists g s',
    showCrimeDots log10 (Success data) s = (Normal tt, s')
    /\ crimeLayer s' = Some g
    /\ shown s' = {[ g ]}
    /\ groups s' !! g
       = Some (match data with [] => [] | _ => [crimeDot log10 <$> data] end)
    /\ match crimeLayer s with
       | Some g0 => g = g0
       | None => g ∉ dom (groups s)
       end
    /\ crime_ok s'.
Proof.
  unfold crime_ok, showCrimeDots. cbn [fetchCrimesInView].
  destruct (crimeLayer s) as [g0|] eqn:Hcl.
  - intros [Hshown [fgs Hg]]. exists g0.
    destruct data as [|f fs]; cbn [fmap list_fmap].
    + eexists. split; [reflexivity|]. cbn.
      rewrite lookup_alter_eq, Hg. cbn. repeat split; eauto.
    + eexists. split; [reflexivity|]. cbn.
      rewrite !lookup_alter_eq, Hg. cbn. repeat split; eauto.
  - intros Hshown. exists (fresh_group (groups s)).
    destruct data as [|f fs]; cbn [fmap list_fmap].
    + eexists. split; [reflexivity|]. cbn.
      rewrite lookup_insert_eq, Hshown, union_empty_r_L.
      repeat split; eauto. apply fresh_group_not_in.
    + eexists. split; [reflexivity|]. cbn.
      rewrite lookup_alter_eq, lookup_insert_eq, Hshown, union_empty_r_L. cbn.
      repeat split; eauto. apply fresh_group_not_in.
Qed.

End OverlayProperties.

(** X21. [hideCrimeDots] takes the overlay off the map and forgets its
    layer group, so that the next [showCrimeDots] starts a new one; hiding
    an overlay that is not shown does nothing. *)
Theorem hideCrimeDots_removes_overlay (s : CrimeMap) :
  crime_ok s ->
  shown (hideCrimeDots s) = ∅
  /\ crimeLayer (hideCrimeDots s) = None
  /\ groups (hideCrimeDots s) = groups s
  /\ hideCrimeDots (hideCrimeDots s) = hideCrimeDots s
  /\ (crimeLayer s = None -> hideCrimeDots s = s)
  /\ crime_ok (hideCrimeDots s).
Proof.
  unfold crime_ok, hideCrimeDots. destruct (crimeLayer s) as [g|] eqn:Hcl.
  - intros [Hshown _]. cbn. rewrite Hshown, difference_diag_L.
    repeat split; try reflexivity. discriminate.
  - intros Hshown. rewrite Hcl. repeat split; try reflexivity; assumption.
Qed.

(** ** Scores are relative to the set *)

Lemma maxRisk_app (rs : list Route) (r : Route) :
  (maxRisk rs <= maxRisk (rs ++ [r]))%Q.
Proof.
  unfold maxRisk. rewrite fmap_app, fold_left_app. cbn [fmap list_fmap fold_left].
  apply Q.le_max_l.
Qed.

Lemma safetyScore_divisor (m1 m2 : Q) (r : Route) :
  (0 < m1)%Q -> (m1 <= m2)%Q -> safetyScore m1 r <= safetyScore m2 r.
Proof.
  intros Hpos Hle. unfold safetyScore.
  set (x := or0 (mean_risk (stats r))).
  assert (Hpos2 : (0 < m2)%Q) by (eapply Qlt_le_trans; eassumption).
  destruct (Qlt_le_dec x 0) as [Hneg | Hnn].
  - (* a negative risk scores 100 against any divisor *)
    assert (Hfull : forall m, (0 < m)%Q ->
              Z.max 0 (Z.min 100 (round_half_up ((1 - Qmin 1 (x / m)) * 100))) = 100).
    { intros m Hm.
      assert (Hrel : (x / m <= 0)%Q).
      { apply Qle_shift_div_r; [exact Hm | lra]. }
      assert (Hmin : (Qmin 1 (x / m) <= 0)%Q)
        by (eapply Qle_trans; [apply Q.le_min_r | exact Hrel]).
      assert (H100 : 100 <= round_half_up ((1 - Qmin 1 (x / m)) * 100)).
      { rewrite <- (round_half_up_int 100) at 1. apply round_half_up_mono.
        change (inject_Z 100) with 100%Q. lra. }
      lia. }
    rewrite (Hfull m1 Hpos), (Hfull m2 Hpos2). lia.
  - assert (Hrel : (x / m2 <= x / m1)%Q).
    { apply Qle_shift_div_r; [exact Hpos2|].
      assert (Hy : (0 <= x / m1)%Q) by (apply Qle_shift_div_l; [exact Hpos | lra]).
      assert (Hx : (x == x / m1 * m1)%Q).
      { field. intros E. rewrite E in Hpos. discriminate. }
      rewrite Hx at 1. rewrite !(Qmult_comm (x / m1)).
      apply Qmult_le_compat_r; assumption. }
    assert (Hmin : (Qmin 1 (x / m2) <= Qmin 1 (x / m1))%Q)
      by (apply Q.min_le_compat_l, Hrel).
    assert (Hr : round_half_up ((1 - Qmin 1 (x / m1)) * 100)
                 <= round_half_up ((1 - Qmin 1 (x / m2)) * 100)).
    { apply round_half_up_mono. lra. }
    lia.
Qed.

(** X22. A further route in the reply never lowers the score of the
    others: the divisor can only grow, so a route looks the safer the
    riskier its alternatives are. *)
Theorem further_route_never_lowers_scores (rs : list Route) (extra a : Route) (i : nat) :
  rs !! i = Some a ->
  exists s s',
    safetyScores rs !! i = Some s
    /\ safetyScores (rs ++ [extra]) !! i = Some s'
    /\ s <= s'.
Proof.
  intros Hi. eexists _, _.
  split; [rewrite safetyScores_lookup, Hi; reflexivity|].
  split; [rewrite safetyScores_lookup, (lookup_app_l_Some _ _ _ _ Hi); reflexivity|].
  apply safetyScore_divisor; [apply maxRisk_pos | apply maxRisk_app].
Qed.

(** ** One tier per card *)

(** X23. The title a route gets when the service names none, the feature
    chips and the description are cut at the same values of [beta], so a
    card never mixes the wording of two tiers; every card has three chips,
    of which the second is "Sidewalks available". *)
Theorem card_wording_is_of_one_tier (speeds : jsval) (r : Route) (safety : Z) :
  let c := routeCard speeds r safety in
  length (card_chips c) = 3%nat
  /\ card_chips c !! 1%nat = Some (str "Sidewalks available")
  /\ (nameForBeta (beta r) = str "Fastest Route"
      <-> card_chips c !! 0%nat = Some (str "Main thoroughfares"))
  /\ (nameForBeta (beta r) = str "Safest Route"
      <-> card_chips c !! 0%nat = Some (str "Excellent safety features"))
  /\ (nameForBeta (beta r) = str "Balanced Route"
      <-> card_chips c !! 0%nat = Some (str "Mixed safety features"))
  /\ (nameForBeta (beta r) = str "Fastest Route"
      <-> card_subtitle c = str "Direct route optimized for walk")
  /\ (nameForBeta (beta r) = str "Safest Route"
      <-> card_subtitle c = str "Maximum safety route for walk")
  /\ (nameForBeta (beta r) = str "Balanced Route"
      <-> card_subtitle c = str "Good compromise between speed and safety for walk").
Proof.
  cbn zeta. unfold routeCard, nameForBeta, featureChips, cardSubtitle.
  cbn [card_chips card_subtitle].
  destruct (Qeq_bool (beta r) 0); [|destruct (Qle_bool 1 (beta r))];
    repeat match goal with |- _ /\ _ => split end;
    try reflexivity; split; intros H; first [reflexivity | discriminate].
Qed.

(** ** A route without a length *)

(** X25. A route whose [stats] have no [length_m] is shown as a route of
    length 0: with a numeric speed that is positive, its card reads "0m"
    and "0.0 mi". *)
Theorem missing_length_shows_zero (speed : Q) (r : Route) (safety : Z) :
  length_m (stats r) = None ->
  (0 < speed)%Q ->
  card_eta (routeCard (VNumber (Fin speed)) r safety) = str "0m"
  /\ card_miles (routeCard (VNumber (Fin speed)) r safety) = str "0.0 mi".
Proof.
  intros Hlen Hspeed. unfold routeCard. cbn [card_eta card_miles]. rewrite Hlen.
  split; [|reflexivity].
  unfold fmtMinutes. cbn [or0 ToNumber num_div].
  assert (Hs : Qeq_bool speed 0 = false).
  { apply Qeq_bool_false. intros E. rewrite E in Hspeed. discriminate. }
  rewrite Hs. cbn [num_div].
  assert (H60 : Qeq_bool 60 0 = false) by reflexivity. rewrite H60.
  cbn [Math_round]. rewrite (round_half_up_eq _ 0).
  - rewrite (Number_toString_nat 0) by lia. reflexivity.
  - unfold Qdiv. ring.
Qed.

(** ** The cards of the first multi-route variant *)


(** ** The requests of a run *)

Lemma filter_none {A} (f : A -> bool) (P : A -> Prop) (l : list A) :
  Forall P l -> (forall x, P x -> f x = false) -> List.filter f l = [].
Proof.
  intros Hall Hf. induction Hall as [|x l Hx _ IH]; [reflexivity|].
  cbn. now rewrite (Hf x Hx).
Qed.

Lemma geo_log_requests (q : jsstring) (parsed : option LatLon) :
  (length (List.filter is_geocode_request (geo_log q parsed)) <= 1)%nat
  /\ List.filter is_route_request (geo_log q parsed) = []
  /\ forall q', EvGeocodeRequest q' ∈ geo_log q parsed -> q' = q.
Proof.
  destruct parsed; cbn; repeat split; try lia.
  - intros q' H. inversion H.
  - intros q' H. apply list_elem_of_singleton in H. now injection H.
Qed.

(** X24. A run of the listener asks the geocoder at most twice and the
    routing service at most once. What it sends to the geocoder is the
    trimmed text of one of the two fields, and the mode it sends to the
    routing service is the value of the selector, or walk on a page without
    a selector. *)
Theorem submit_sends_few_requests (ov dv : jsstring) (ms : option jsstring) (w : World) :
  wf_world w ->
  (length (List.filter is_geocode_request (snd (submit ov dv ms w))) <= 2)%nat
  /\ (length (List.filter is_route_request (snd (submit ov dv ms w))) <= 1)%nat
  /\ (forall q, EvGeocodeRequest q ∈ snd (submit ov dv ms w) ->
        q = trim ov \/ q = trim dv)
  /\ (forall o d md, EvRouteRequest o d md ∈ snd (submit ov dv ms w) ->
        md = match ms with Some value => value | None => str "walk" end).
Proof.
  intros Hwf.
  destruct (submit_run ov dv ms w Hwf) as (w' & t & Hrun & _ & Hcases).
  rewrite Hrun. cbn [snd].
  assert (Hng : forall l, Forall notice_event l -> List.filter is_geocode_request l = []).
  { intros l Hl. apply (filter_none _ _ _ Hl). intros [] He; try reflexivity; destruct He. }
  assert (Hnr : forall l, Forall notice_event l -> List.filter is_route_request l = []).
  { intros l Hl. apply (filter_none _ _ _ Hl). intros [] He; try reflexivity; destruct He. }
  assert (Hdg : forall l, Forall (fun e => drawing_event e \/ notice_event e) l ->
                          List.filter is_geocode_request l = []).
  { intros l Hl. apply (filter_none _ _ _ Hl).
    intros [] [He | He]; try reflexivity; destruct He. }
  assert (Hdr : forall l, Forall (fun e => drawing_event e \/ notice_event e) l ->
                          List.filter is_route_request l = []).
  { intros l Hl. apply (filter_none _ _ _ Hl).
    intros [] [He | He]; try reflexivity; destruct He. }
  assert (Hin : forall (f : event -> bool) e l, e ∈ l -> f e = true -> List.filter f l <> []).
  { intros f e l He Hf Hnil. apply list_elem_of_In in He.
    assert (Hfe : In e (List.filter f l)) by (apply filter_In; auto).
    rewrite Hnil in Hfe. destruct Hfe. }
  destruct Hcases as [(_ & _ & ->) | [Horigin | [Hdest | Hgo]]].
  - cbn. repeat split; try lia.
    + intros q H. apply list_elem_of_singleton in H. discriminate.
    + intros o d md H. apply list_elem_of_singleton in H. discriminate.
  - destruct Horigin as (_ & _ & _ & _ & _ & post & -> & Hpost).
    cbn [List.filter is_geocode_request is_route_request].
    rewrite (Hng _ Hpost), (Hnr _ Hpost). cbn. repeat split; try lia.
    + intros q H. apply elem_of_cons in H as [H | H]; [left; now injection H|].
      exfalso. exact (Hin is_geocode_request _ _ H eq_refl (Hng _ Hpost)).
    + intros o d md H. apply elem_of_cons in H as [H | H]; [discriminate|].
      exfalso. exact (Hin is_route_request _ _ H eq_refl (Hnr _ Hpost)).
  - destruct Hdest as (_ & _ & _ & _ & _ & _ & post & -> & Hpost).
    destruct (geo_log_requests (trim ov) (tryParseLatLon (trim ov))) as (Hg1 & Hr1 & Hq1).
    rewrite !List.filter_app. cbn [List.filter is_geocode_request is_route_request].
    rewrite (Hng _ Hpost), (Hnr _ Hpost), Hr1, !length_app. cbn. repeat split; try lia.
    + intros q H. apply elem_of_app in H as [H | H]; [left; now apply Hq1|].
      apply elem_of_cons in H as [H | H]; [right; now injection H|].
      exfalso. exact (Hin is_geocode_request _ _ H eq_refl (Hng _ Hpost)).
    + intros o d md H. apply elem_of_app in H as [H | H].
      * exfalso. exact (Hin is_route_request _ _ H eq_refl Hr1).
      * apply elem_of_cons in H as [H | H]; [discriminate|].
        exfalso. exact (Hin is_route_request _ _ H eq_refl (Hnr _ Hpost)).
  - destruct Hgo as (_ & _ & o & d & mo & mdm & w1 & post & _ & _ & -> & Hpost & _).
    destruct (geo_log_requests (trim ov) (tryParseLatLon (trim ov))) as (Hg1 & Hr1 & Hq1).
    destruct (geo_log_requests (trim dv) (tryParseLatLon (trim dv))) as (Hg2 & Hr2 & Hq2).
    assert (Hmk : forall f, (forall id, f (EvAddLayer id) = false) ->
                            (forall id p, f (EvMoveMarker id p) = false) ->
                            f (match originMarker w with
                               | None => EvAddLayer mo
                               | Some _ => EvMoveMarker mo (place o)
                               end) = false
                            /\ f (match destMarker w with
                                  | None => EvAddLayer mdm
                                  | Some _ => EvMoveMarker mdm (place d)
                                  end) = false).
    { intros f Ha Hm. destruct (originMarker w), (destMarker w); auto. }
    destruct (Hmk is_geocode_request (fun _ => eq_refl) (fun _ _ => eq_refl)) as [Hg3 Hg4].
    destruct (Hmk is_route_request (fun _ => eq_refl) (fun _ _ => eq_refl)) as [Hr3 Hr4].
    rewrite !List.filter_app. cbn [List.filter].
    rewrite Hg3, Hg4, Hr3, Hr4, (Hdg _ Hpost), (Hdr _ Hpost), Hr1, Hr2.
    cbn [is_geocode_request is_route_request]. rewrite !length_app. cbn.
    repeat split; try lia.
    + intros q H. rewrite !elem_of_app in H. destruct H as [H | [H | H]].
      * left. now apply Hq1.
      * right. now apply Hq2.
      * exfalso.
        apply elem_of_cons in H as [H | H]; [destruct (originMarker w); discriminate|].
        apply elem_of_cons in H as [H | H]; [destruct (destMarker w); discriminate|].
        apply elem_of_cons in H as [H | H]; [discriminate|].
        apply elem_of_cons in H as [H | H]; [discriminate|].
        exact (Hin is_geocode_request _ _ H eq_refl (Hdg _ Hpost)).
    + intros o' d' md H. rewrite !elem_of_app in H. destruct H as [H | [H | H]].
      * exfalso. exact (Hin is_route_request _ _ H eq_refl Hr1).
      * exfalso. exact (Hin is_route_request _ _ H eq_refl Hr2).
      * apply elem_of_cons in H as [H | H]; [destruct (originMarker w); discriminate|].
        apply elem_of_cons in H as [H | H]; [destruct (destMarker w); discriminate|].
        apply elem_of_cons in H as [H | H]; [discriminate|].
        apply elem_of_cons in H as [H | H]; [now injection H|].
        exfalso. exact (Hin is_route_request _ _ H eq_refl (Hdr _ Hpost)).
Qed.

End App.

(** * Instances

    The theorems above at concrete inputs. None of these inputs makes the
    script print a number outside the integers below [10^21] and the
    fixed-point notation, so any function stands for [shortestDecimal]. *)

Definition anyDecimal : Q -> jsstring := fun _ => [].

(** A routing service that is down, and a geocoder that knows no place. *)
Definition net_down : Network :=
  {| geocode_reply := fun _ => Success [];
     route_reply := fun _ _ _ => HttpError |}.

Definition demo_route (b : Q) (n : option jsstring) (risk : option Q) : Route :=
  {| beta := b; name := n; color := str "#1d4ed8";
     geojson := [ {| lat := 3864 # 100; lon := - (9029 # 100) |};
                  {| lat := 3860 # 100; lon := - (9020 # 100) |} ];
     stats := {| length_m := Some 1000%Q; mean_risk := risk;
                 detour_m_vs_beta0 := 0; risk_delta_vs_beta0 := 0 |} |}.

Definition demo_set (rs : list Route) : RouteResultSet :=
  {| mode := Some (str "walk");
     snapped_origin := {| lat := 3864 # 100; lon := - (9029 # 100) |};
     snapped_destination := {| lat := 3860 # 100; lon := - (9020 # 100) |};
     routes := rs |}.

(** The numerals 38.64, -90.29, 95 and 200. *)
Definition n_38_64 : Numeral :=
  {| sign := NoSign; int_part := [3; 8]; frac_part := Some [6; 4] |}.
Definition n_m90_29 : Numeral :=
  {| sign := Minus; int_part := [9; 0]; frac_part := Some [2; 9] |}.
Definition n_95 : Numeral :=
  {| sign := NoSign; int_part := [9; 5]; frac_part := None |}.
Definition n_200 : Numeral :=
  {| sign := NoSign; int_part := [2; 0; 0]; frac_part := None |}.

(** The numerals 90.00000000000000001 and 0. *)
Definition n_90_past : Numeral :=
  {| sign := NoSign; int_part := [9; 0];
     frac_part := Some [0; 0; 0; 0; 0; 0; 0; 0; 0; 0; 0; 0; 0; 0; 0; 0; 1] |}.
Definition n_0 : Numeral :=
  {| sign := NoSign; int_part := [0]; frac_part := None |}.

(** The points that the texts "38.64,-90.29" and "38.60 -90.20" name: the
    binary64 numbers nearest to the four numerals. *)
Definition point_38_64 : LatLon :=
  {| lat := 2719048275024937 # 70368744177664;
     lon := - (6353593911801283 # 70368744177664) |}.
Definition point_38_60 : LatLon :=
  {| lat := 5432467050515661 # 140737488355328;
     lon := - (6347260724825293 # 70368744177664) |}.

Example typed_points :
  binary64 (3864 # 100) = Fin (lat point_38_64)
  /\ binary64 (- (9029 # 100)) = Fin (lon point_38_64)
  /\ binary64 (3860 # 100) = Fin (lat point_38_60)
  /\ binary64 (- (9020 # 100)) = Fin (lon point_38_60).
Proof. repeat split; vm_compute; reflexivity. Qed.

Lemma is_digits_checked (ds : list Z) :
  ds <> [] -> forallb (fun d => (0 <=? d) && (d <=? 9)) ds = true -> is_digits ds.
Proof.
  intros Hne Hall. split; [exact Hne|]. apply Forall_forall. intros d Hin.
  rewrite forallb_forall in Hall. apply list_elem_of_In in Hin.
  specialize (Hall d Hin). lia.
Qed.

(** Two redraws on the fresh page: three overlays, then two. *)
Lemma redraw_replaces_overlays_witness :
  wf_world (initial None None)
  /\ exists w1 t1 w2 t2,
       drawMultiRoutes anyDecimal
         (demo_set [demo_route 0 None (Some 10%Q); demo_route (1 # 2) None (Some 5%Q);
                    demo_route 1 None (Some 0%Q)])
         (initial None None) = (Normal tt, w1, t1)
       /\ drawMultiRoutes anyDecimal
            (demo_set [demo_route 0 None None; demo_route 1 None None]) w1
          = (Normal tt, w2, t2)
       /\ live_routes w2 = list_to_set (routeLayers w2)
       /\ length (routeLayers w2) = 2%nat
       /\ forall id, id ∈ routeLayers w1 -> id ∉ on_map w2.
Proof.
  split; [apply wf_initial|].
  destruct (redraw_replaces_overlays anyDecimal
              (demo_set [demo_route 0 None (Some 10%Q); demo_route (1 # 2) None (Some 5%Q);
                         demo_route 1 None (Some 0%Q)])
              (demo_set [demo_route 0 None None; demo_route 1 None None])
              (initial None None) (wf_initial None None))
    as (w1 & t1 & w2 & t2 & H1 & H2 & H3 & _ & H5 & H6 & _).
  exists w1, t1, w2, t2.
  split; [exact H1|]. split; [exact H2|]. split; [exact H3|].
  split; [exact (Forall2_length _ _ _ H5)|exact H6].
Defined.


(** "38.64,-90.29" parses to the binary64 point nearest to it; "95,200"
    does not parse. *)
Lemma tryParseLatLon_coordinate_text_witness :
  (exists p, tryParseLatLon (str "38.64,-90.29") = Some p
             /\ binary64 (numeral_value n_38_64) = Fin (lat p)
             /\ binary64 (numeral_value n_m90_29) = Fin (lon p)
             /\ in_range (lat p) (lon p)
             /\ (Qabs (lat p - numeral_value n_38_64) <= pow2 (-47))%Q
             /\ (Qabs (lon p - numeral_value n_m90_29) <= pow2 (-46))%Q)
  /\ tryParseLatLon (str "95,200") = None.
Proof.
  assert (Hsep : is_separator [44%N]) by (split; [discriminate | repeat constructor]).
  split.
  - destruct (tryParseLatLon_coordinate_text anyDecimal net_down n_38_64 n_m90_29 [44%N])
      as (_ & Hin & _).
    + split; apply is_digits_checked; (discriminate || reflexivity).
    + split; apply is_digits_checked; (discriminate || reflexivity).
    + exact Hsep.
    + destruct Hin as [Hp _]; [|exact Hp].
      split; vm_compute; discriminate.
  - destruct (tryParseLatLon_coordinate_text anyDecimal net_down n_95 n_200 [44%N])
      as (_ & _ & Hout).
    + split; [apply is_digits_checked; (discriminate || reflexivity) | exact I].
    + split; [apply is_digits_checked; (discriminate || reflexivity) | exact I].
    + exact Hsep.
    + destruct Hout as [Hnone _]; [|exact Hnone].
      intros [H _]. vm_compute in H. apply H. reflexivity.
Defined.

(** C5 as stated fails just past a bound. The latitude typed in
    "90.00000000000000001,0" is above 90; the binary64 number nearest to it
    is 90, so the text is accepted as the point (90, 0) and the listener
    does not geocode it. *)
Lemma coordinate_text_counterexample :
  wf_numeral n_90_past /\ wf_numeral n_0 /\ is_separator (str ",")
  /\ numeral_text n_90_past ++ str "," ++ numeral_text n_0
     = str "90.00000000000000001,0"
  /\ (90 < numeral_value n_90_past)%Q
  /\ ~ in_range (numeral_value n_90_past) (numeral_value n_0)
  /\ tryParseLatLon (str "90.00000000000000001,0") = Some {| lat := 90; lon := 0 |}
  /\ EvGeocodeRequest (str "90.00000000000000001,0")
       ∉ snd (submit anyDecimal net_down (str "90.00000000000000001,0")
                     (str "38.60 -90.20") None (initial None None)).
Proof.
  split; [split; apply is_digits_checked; (discriminate || reflexivity)|].
  split; [split; [apply is_digits_checked; (discriminate || reflexivity) | exact I]|].
  split; [split; [discriminate | repeat constructor]|].
  split; [reflexivity|].
  split; [reflexivity|].
  split; [intros [[_ H] _]; vm_compute in H; apply H; reflexivity|].
  assert (Hp : tryParseLatLon (str "90.00000000000000001,0")
               = Some {| lat := 90; lon := 0 |}) by (vm_compute; reflexivity).
  split; [exact Hp|].
  intros Hgeo.
  apply (geocode_only_unparsed anyDecimal net_down _ _ _ _ _ (wf_initial None None)) in Hgeo.
  congruence.
Qed.


(** A route the service named "Scenic": the card shows that name. *)
Lemma card_title_and_description_witness :
  exists c,
    routeCards anyDecimal [demo_route 0 (Some (str "Scenic")) None] (Some (str "walk")) !! 0%nat
    = Some c
    /\ card_title c = str "Scenic"
    /\ card_subtitle c = str "Direct route optimized for walk".
Proof.
  destruct (card_title_and_description anyDecimal
              [demo_route 0 (Some (str "Scenic")) None] (Some (str "walk")) 0%nat
              (demo_route 0 (Some (str "Scenic")) None) eq_refl)
    as (c & Hc & Hname & _ & Hsub).
  exists c. split; [exact Hc|]. split.
  - apply Hname; [reflexivity | discriminate].
  - rewrite Hsub by (now left). reflexivity.
Defined.

(** C7 as stated fails on a named route: at [beta = 0] and the mode walk
    the documented title is "Fastest Route", and the card shows "Scenic",
    the name the service supplied. *)
Lemma card_title_counterexample :
  (beta (demo_route 0 (Some (str "Scenic")) None) == 0)%Q
  /\ exists c,
       routeCards anyDecimal [demo_route 0 (Some (str "Scenic")) None]
                  (Some (str "walk")) !! 0%nat = Some c
       /\ card_title c = str "Scenic"
       /\ card_title c <> str "Fastest Route".
Proof.
  split; [reflexivity|]. eexists. split; [reflexivity|].
  split; [reflexivity | discriminate].
Qed.

(** The description names the mode walk whatever the active mode is: for
    the mode bike it is not the documented one. *)
Example card_subtitle_ignores_mode :
  cardSubtitle (demo_route 0 None None) = str "Direct route optimized for walk"
  /\ cardSubtitle (demo_route 0 None None) <> documented_description 0 (str "bike").
Proof. split; [reflexivity | discriminate]. Qed.

(** A submission while the routing service is down, on the fresh page: the
    markers are placed, the request fails, no overlay is touched. *)
Lemma markers_before_route_request_witness :
  wf_world (initial (Some []) (Some []))
  /\ exists w' t,
       submit anyDecimal net_down (str "38.64,-90.29") (str "38.60 -90.20") None
              (initial (Some []) (Some [])) = (Normal tt, w', t)
       /\ routeLayers w' = []
       /\ EvAlert (str "Route computation failed") ∈ t
       /\ (exists title, marker_at w' (originMarker w') point_38_64 title).
Proof.
  split; [apply wf_initial|].
  destruct (markers_before_route_request anyDecimal net_down
              (str "38.64,-90.29") (str "38.60 -90.20") None
              (initial (Some []) (Some [])) (wf_initial _ _))
    as (w' & t & Hrun & Hall).
  assert (Hk : t !! 3%nat
               = Some (EvRouteRequest point_38_64 point_38_60 (str "walk"))).
  { replace t with (snd (submit anyDecimal net_down (str "38.64,-90.29")
                           (str "38.60 -90.20") None (initial (Some []) (Some []))))
      by (now rewrite Hrun).
    vm_compute. reflexivity. }
  destruct (Hall _ _ _ _ Hk) as [(mo & mdm & eo & ed & _ & _ & _ & _ & _ & _ & Hom & _ & Hmo & _) Hfail].
  destruct (Hfail eq_refl) as (_ & Hrl & _ & _ & _ & Halert).
  exists w', t. split; [exact Hrun|]. split; [exact Hrl|]. split; [exact Halert|].
  rewrite Hom. exact Hmo.
Defined.

(** ** Instances of the further properties *)

Definition demo_routes : list Route :=
  [demo_route 0 None (Some 10%Q); demo_route 1 None (Some 2%Q)].

(** A geocoder that knows one place, whatever it is asked for, and a routing
    service that answers every request with [demo_routes]. *)
Definition net_up : Network :=
  {| geocode_reply := fun _ =>
       Success [ {| display_name := str "Forest Park";
                    match_lat := 3864 # 100; match_lon := (- (9029 # 100))%Q |} ];
     route_reply := fun _ _ _ => Success (demo_set demo_routes) |}.

(** A geocoder that answers every request with an error status. *)
Definition net_broken : Network :=
  {| geocode_reply := fun _ => HttpError;
     route_reply := fun _ _ _ => HttpError |}.

(** The points the texts "38.64,-90.29" and "38.60 -90.20" name, as the
    listener resolves them, and the place [net_up] knows. *)
Definition typed_origin : Place :=
  {| place := point_38_64; display := raw_display anyDecimal point_38_64 |}.
Definition typed_destination : Place :=
  {| place := point_38_60; display := raw_display anyDecimal point_38_60 |}.
Definition forest_park : Place :=
  {| place := {| lat := 3864 # 100; lon := - (9029 # 100) |};
     display := str "Forest Park" |}.

(** The page after one submission while the routing service is down: both
    markers are placed, no route is drawn. *)
Definition page_with_markers : World :=
  snd (fst (submit anyDecimal net_down (str "38.64,-90.29") (str "38.60 -90.20") None
              (initial (Some []) (Some [])))).

(** The page after [demo_routes] were drawn on the fresh page. *)
Definition page_with_routes : World :=
  snd (fst (drawMultiRoutes anyDecimal (demo_set demo_routes) (initial (Some []) (Some [])))).

(** The integer part of the decimal logarithm between 1 and 1000: it is
    monotone and exact at 1 and at 100, which is all the scale of the radii
    asks of [Math.log10]. *)
Definition log10_floor (x : Q) : Q :=
  if Qle_bool 100 x then 2 else if Qle_bool 10 x then 1 else 0.

Definition demo_incident : Feature :=
  {| coordinates := ((- (9029 # 100))%Q, 3864 # 100); severity := Some 99%Q |}.

(** " 38.64, -90.29 " is accepted, so its trimmed text is two numerals
    around a separator, and the point is the pair of binary64 numbers
    nearest to them. *)
Lemma tryParseLatLon_accepts_only_coordinates_witness :
  exists la lo sep,
    wf_numeral la /\ wf_numeral lo /\ is_separator sep
    /\ trim (str " 38.64, -90.29 ") = numeral_text la ++ sep ++ numeral_text lo
    /\ binary64 (numeral_value la) = Fin (lat point_38_64)
    /\ binary64 (numeral_value lo) = Fin (lon point_38_64).
Proof.
  destruct (tryParseLatLon_accepts_only_coordinates (str " 38.64, -90.29 ") point_38_64)
    as (la & lo & sep & H1 & H2 & H3 & H4 & H5 & H6 & _).
  - vm_compute. reflexivity.
  - exists la, lo, sep. auto 6.
Defined.

(** A set of one route with mean risk 3: it scores 0. *)
Lemma riskiest_route_scores_zero_witness :
  safetyScores [demo_route 0 None (Some 3%Q)] !! 0%nat = Some 0
  /\ exists c,
       routeCards anyDecimal [demo_route 0 None (Some 3%Q)] None !! 0%nat = Some c
       /\ card_safety c = str "0/100"
       /\ text (card_badge c) = str "Caution".
Proof.
  apply (riskiest_route_scores_zero anyDecimal [demo_route 0 None (Some 3%Q)] None 0%nat
           (demo_route 0 None (Some 3%Q))).
  - reflexivity.
  - discriminate.
  - intros r' Hr'. apply list_elem_of_singleton in Hr' as ->. apply Qle_refl.
Defined.

(** 1000 metres are shown with one digit after the point. *)
Lemma fmtMiles_one_decimal_witness :
  exists ip d,
    fmtMiles anyDecimal (Fin 1000) = ip ++ 46%N :: d :: str " mi" /\ ip <> [].
Proof.
  destruct (fmtMiles_one_decimal anyDecimal 1000)
    as (mile & miles & ip & d & _ & _ & _ & _ & H & Hne & _).
  - discriminate.
  - vm_compute. discriminate.
  - exists ip, d. auto.
Defined.

(** Clearing the page on which [demo_routes] were drawn. *)
Lemma clearRoutes_clears_witness :
  exists w',
    clearRoutes page_with_routes
    = (Normal tt, w', EvRemoveLayer <$> routeLayers page_with_routes)
    /\ routeLayers w' = []
    /\ live_routes w' = ∅.
Proof.
  destruct (clearRoutes_clears page_with_routes) as (w' & H1 & H2 & H3 & _).
  - apply drawMultiRoutes_wf, wf_initial.
  - exists w'. auto.
Defined.

(** Drawing [demo_routes] on the fresh page: two cards, two overlays. *)
Lemma cards_follow_overlays_witness :
  exists w' log cards,
    drawMultiRoutes anyDecimal (demo_set demo_routes) (initial (Some []) None)
    = (Normal tt, w', log)
    /\ route_choices w' = Some cards
    /\ length cards = 2%nat
    /\ length (routeLayers w') = 2%nat.
Proof.
  destruct (cards_follow_overlays anyDecimal (demo_set demo_routes) (initial (Some []) None) [])
    as (w' & log & cards & H1 & H2 & H3 & H4 & _).
  - reflexivity.
  - exists w', log, cards. auto.
Defined.

(** A reply without routes, on the page on which [demo_routes] were drawn. *)
Lemma drawMultiRoutes_no_routes_witness :
  exists w',
    routeLayers w' = [] /\ live_routes w' = ∅
    /\ view w' = view page_with_routes
    /\ route_choices w' = Some [].
Proof.
  destruct (drawMultiRoutes_no_routes anyDecimal (demo_set []) page_with_routes)
    as (w' & _ & H2 & H3 & H4 & H5).
  - apply drawMultiRoutes_wf, wf_initial.
  - reflexivity.
  - exists w'. auto.
Defined.

(** Drawing [demo_routes] on a page without the card box. *)
Lemma drawMultiRoutes_without_card_box_witness :
  exists w' log,
    drawMultiRoutes anyDecimal (demo_set demo_routes) (initial None None)
    = (Normal tt, w', log)
    /\ route_choices w' = None
    /\ Forall2 (overlay_of w') (routeLayers w') demo_routes.
Proof.
  destruct (drawMultiRoutes_without_card_box anyDecimal (demo_set demo_routes)
              (initial None None) eq_refl)
    as (w' & log & H1 & H2 & _ & H4).
  exists w', log. auto.
Defined.

(** An origin of three spaces. *)
Lemma submit_blank_input_witness :
  submit anyDecimal net_up (str "   ") (str "38.60 -90.20") None (initial None None)
  = (Normal tt, initial None None,
     [EvAlert (str "Please enter both origin and destination.")]).
Proof.
  apply submit_blank_input. left. repeat constructor.
Defined.

(** "Nowhere", which [net_down] does not know. *)
Lemma submit_origin_not_found_witness :
  submit anyDecimal net_down (str "Nowhere") (str "38.60 -90.20") None (initial None None)
  = (Normal tt, initial None None,
     [EvGeocodeRequest (str "Nowhere"); EvAlert (str "Origin not found.")]).
Proof.
  apply (submit_origin_not_found anyDecimal net_down (str "Nowhere") (str "38.60 -90.20")).
  - vm_compute. discriminate.
  - vm_compute. discriminate.
  - vm_compute. reflexivity.
  - reflexivity.
Defined.

Lemma submit_destination_not_found_witness :
  submit anyDecimal net_down (str "38.64,-90.29") (str "Nowhere") None (initial None None)
  = (Normal tt, initial None None,
     [EvGeocodeRequest (str "Nowhere"); EvAlert (str "Destination not found.")]).
Proof.
  apply (submit_destination_not_found anyDecimal net_down (str "38.64,-90.29") (str "Nowhere")
           None (initial None None) typed_origin).
  - vm_compute. discriminate.
  - vm_compute. discriminate.
  - vm_compute. reflexivity.
  - vm_compute. reflexivity.
  - reflexivity.
Defined.

Lemma submit_geocoder_failure_witness :
  submit anyDecimal net_broken (str "Nowhere") (str "38.60 -90.20") None (initial None None)
  = (Normal tt, initial None None,
     [EvGeocodeRequest (str "Nowhere"); EvConsoleError (str "Geocode failed");
      EvAlert (str "Geocode failed")]).
Proof.
  apply (submit_geocoder_failure anyDecimal net_broken (str "Nowhere") (str "38.60 -90.20")
           None (initial None None) (str "Geocode failed")).
  - vm_compute. discriminate.
  - vm_compute. discriminate.
  - vm_compute. reflexivity.
  - left. split; reflexivity.
Defined.

(** From "Forest Park" to a typed point, with both services up. *)
Lemma submit_draws_routes_witness :
  exists w' pre,
    submit anyDecimal net_up (str "Forest Park") (str "38.60 -90.20") None
           (initial (Some []) (Some []))
    = (Normal tt, w', pre ++ [EvDispatch (str "routes:updated")])
    /\ length (routeLayers w') = 2%nat
    /\ route_sheet w' = Some (str "block").
Proof.
  destruct (submit_draws_routes anyDecimal net_up (str "Forest Park") (str "38.60 -90.20") None
              (initial (Some []) (Some [])) forest_park typed_destination
              (demo_set demo_routes) [])
    as (w' & pre & H1 & _ & _ & H3 & _ & _ & _ & _ & _ & H8).
  - apply wf_initial.
  - vm_compute. discriminate.
  - vm_compute. discriminate.
  - eexists _, _. split; reflexivity.
  - vm_compute. reflexivity.
  - reflexivity.
  - reflexivity.
  - exists w', pre. split; [exact H1|]. split; [|exact H8].
    exact (Forall2_length _ _ _ H3).
Defined.

(** The same submission on a page without the route sheet. *)
Lemma submit_without_route_sheet_witness :
  exists w' pre message,
    submit anyDecimal net_up (str "Forest Park") (str "38.60 -90.20") None
           (initial (Some []) None)
    = (Normal tt, w', pre ++ [EvConsoleError message; EvAlert message])
    /\ length (routeLayers w') = 2%nat.
Proof.
  destruct (submit_without_route_sheet anyDecimal net_up (str "Forest Park")
              (str "38.60 -90.20") None (initial (Some []) None)
              forest_park typed_destination (demo_set demo_routes))
    as (w' & pre & message & H1 & _ & _ & H4 & _).
  - apply wf_initial.
  - vm_compute. discriminate.
  - vm_compute. discriminate.
  - eexists _, _. split; reflexivity.
  - vm_compute. reflexivity.
  - reflexivity.
  - reflexivity.
  - exists w', pre, message. split; [exact H1|]. exact (Forall2_length _ _ _ H4).
Defined.

(** A second submission, from "Forest Park": the markers 1 and 2 of the
    first one are moved, and the origin marker keeps the hover title of
    the first submission. *)
Lemma markers_are_moved_not_recreated_witness :
  exists w' log,
    submit anyDecimal net_up (str "Forest Park") (str "38.60 -90.20") None page_with_markers
    = (Normal tt, w', log)
    /\ originMarker w' = Some 1%nat
    /\ objects w' !! 1%nat
       = Some (Marker (place forest_park) (str "Origin: " ++ display typed_origin)
                 (Some (str "Origin: Forest Park"))).
Proof.
  destruct (markers_are_moved_not_recreated anyDecimal net_up (str "Forest Park")
              (str "38.60 -90.20") None page_with_markers forest_park typed_destination
              1%nat 2%nat (place typed_origin) (place typed_destination)
              (str "Origin: " ++ display typed_origin)
              (str "Destination: " ++ display typed_destination)
              (Some (str "Origin: " ++ display typed_origin))
              (Some (str "Destination: " ++ display typed_destination)))
    as (w' & log & H1 & H2 & _ & H4 & _).
  - apply submit_wf, wf_initial.
  - vm_compute. discriminate.
  - vm_compute. discriminate.
  - eexists _, _. split; reflexivity.
  - vm_compute. reflexivity.
  - vm_compute. reflexivity.
  - vm_compute. reflexivity.
  - vm_compute. reflexivity.
  - vm_compute. reflexivity.
  - exists w', log. auto.
Defined.

(** The page after one submission, and after a second one from it. *)
Lemma submissions_keep_the_map_tidy_witness :
  accounted page_with_markers
  /\ accounted (snd (fst (submit anyDecimal net_up (str "Forest Park") (str "38.60 -90.20")
                            None page_with_markers))).
Proof.
  destruct (submissions_keep_the_map_tidy anyDecimal net_down) as [Hinit _].
  destruct (submissions_keep_the_map_tidy anyDecimal net_down) as [_ Hstep1].
  destruct (submissions_keep_the_map_tidy anyDecimal net_up) as [_ Hstep2].
  pose proof (Hstep1 (str "38.64,-90.29") (str "38.60 -90.20") None
                (initial (Some []) (Some [])) (Hinit _ _)) as H1.
  split; [exact (proj2 H1)|].
  exact (proj2 (Hstep2 (str "Forest Park") (str "38.60 -90.20") None page_with_markers H1)).
Defined.

(** With [log10_floor] for the logarithm. *)
Lemma radiusBySeverity_scale_witness :
  (radiusBySeverity log10_floor 0 == 2)%Q
  /\ (radiusBySeverity log10_floor 250 == 8)%Q.
Proof.
  destruct (radiusBySeverity_scale log10_floor) as (Hlow & Hhigh & _).
  - intros x y Hxy. unfold log10_floor.
    destruct (Qle_bool 100 x) eqn:X1, (Qle_bool 100 y) eqn:Y1;
      try apply Qle_bool_iff in X1; try apply Qle_bool_iff in Y1;
      try apply Qle_bool_false in X1; try apply Qle_bool_false in Y1;
      try discriminate; try lra;
      destruct (Qle_bool 10 x) eqn:X2, (Qle_bool 10 y) eqn:Y2;
      try apply Qle_bool_iff in X2; try apply Qle_bool_iff in Y2;
      try apply Qle_bool_false in X2; try apply Qle_bool_false in Y2;
      try discriminate; try lra.
  - reflexivity.
  - reflexivity.
  - split; [apply Hlow | apply Hhigh]; discriminate.
Defined.

(** The first showing of one incident. *)
Lemma showCrimeDots_replaces_dots_witness :
  exists g s',
    showCrimeDots anyDecimal log10_floor (Success [demo_incident]) no_crimes = (Normal tt, s')
    /\ shown s' = {[ g ]}
    /\ groups s' !! g = Some [[crimeDot anyDecimal log10_floor demo_incident]].
Proof.
  destruct (showCrimeDots_replaces_dots anyDecimal log10_floor [demo_incident] no_crimes)
    as (g & s' & H1 & _ & H3 & H4 & _).
  - reflexivity.
  - exists g, s'. auto.
Defined.

(** Hiding an overlay that was never shown. *)
Lemma hideCrimeDots_removes_overlay_witness :
  shown (hideCrimeDots no_crimes) = ∅ /\ hideCrimeDots no_crimes = no_crimes.
Proof.
  destruct (hideCrimeDots_removes_overlay no_crimes) as (H1 & _ & _ & _ & H5 & _).
  - reflexivity.
  - split; [exact H1 | now apply H5].
Defined.

(** A route of mean risk 5, alone and beside one of mean risk 10. *)
Lemma further_route_never_lowers_scores_witness :
  exists s s',
    safetyScores [demo_route 0 None (Some 5%Q)] !! 0%nat = Some s
    /\ safetyScores ([demo_route 0 None (Some 5%Q)] ++ [demo_route 1 None (Some 10%Q)]) !! 0%nat
       = Some s'
    /\ s <= s'.
Proof.
  exact (further_route_never_lowers_scores [demo_route 0 None (Some 5%Q)]
           (demo_route 1 None (Some 10%Q)) (demo_route 0 None (Some 5%Q)) 0%nat eq_refl).
Defined.

(** From "Forest Park" to a typed point: one geocoding request, one route
    request. *)
Lemma submit_sends_few_requests_witness :
  (length (List.filter is_geocode_request
             (snd (submit anyDecimal net_up (str "Forest Park") (str "38.60 -90.20") None
                     (initial (Some []) (Some []))))) <= 2)%nat
  /\ (length (List.filter is_route_request
                (snd (submit anyDecimal net_up (str "Forest Park") (str "38.60 -90.20") None
                        (initial (Some []) (Some []))))) <= 1)%nat.
Proof.
  destruct (submit_sends_few_requests anyDecimal net_up (str "Forest Park")
              (str "38.60 -90.20") None (initial (Some []) (Some [])) (wf_initial _ _))
    as (H1 & H2 & _).
  split; assumption.
Defined.

(** A route without a length, on foot. *)
Lemma missing_length_shows_zero_witness :
  card_eta (routeCard anyDecimal (speedFor (str "walk"))
              {| beta := 0; name := None; color := []; geojson := [];
                 stats := {| length_m := None; mean_risk := None;
                             detour_m_vs_beta0 := 0; risk_delta_vs_beta0 := 0 |} |} 100)
  = str "0m".
Proof.
  refine (proj1 (missing_length_shows_zero anyDecimal (13 # 10) _ 100 _ _));
    reflexivity.
Defined.

